(** * libscanbuild.arguments: command-line arguments of analyze-build

    A shallow embedding of [libscanbuild/arguments.py] and the properties of
    its parser, its normalisation pass, its validation pass, its accumulating
    option action, its two checker-listing printers and its entry point.

    Python values are modelled as follows.
    - [str] is [string]; a character is an [ascii], so the texts of the
      model are those of one-byte characters.
    - [argparse.Namespace] is a finite map from attribute names to values.
    - A [dict] of checkers is a finite map from names to pairs.
    - Standard output and standard error are the texts written to them.
    - A function that may raise or write is a computation of the monad [Py].

    The module builds its parser with [argparse] and normalises paths with
    [os.path]; both are modelled here as far as the module uses them:
    [os.path] as [posixpath], and [argparse] from the point where each
    option of the command line has been told from its argument. *)

From Stdlib Require Import ZArith Ascii String List Lia.
From stdpp Require Import base gmap strings list sorting.

Local Open Scope stdpp_scope.

(** ** Python strings *)

Module str.

(** [s * n] *)
Fixpoint mul (s : string) (n : nat) : string :=
  match n with
  | O => ""
  | S n => s +:+ mul s n
  end.

(** [s.startswith(prefix)] *)
Fixpoint startswith (s prefix : string) {struct prefix} : bool :=
  match prefix, s with
  | "", _ => true
  | String a prefix, String b s => Ascii.eqb a b && startswith s prefix
  | String _ _, "" => false
  end.

(** [s.endswith(suffix)] for a suffix of one character. *)
Fixpoint endswith (s : string) (suffix : ascii) : bool :=
  match s with
  | "" => false
  | String c "" => Ascii.eqb c suffix
  | String _ s => endswith s suffix
  end.

(** [s.split(sep)] for a separator of one character: the result has one
    more element than [s] has separators, and is never empty. *)
Fixpoint split (sep : ascii) (s : string) : list string :=
  match s with
  | "" => [""]
  | String c s =>
      if Ascii.eqb c sep then "" :: split sep s
      else match split sep s with
           | [] => [String c ""]
           | w :: ws => String c w :: ws
           end
  end.

(** [sep.join(words)] *)
Definition join (sep : string) (words : list string) : string :=
  String.concat sep words.

(** [s.lstrip(c)]: drops the leading occurrences of the character. *)
Fixpoint lstrip (c : ascii) (s : string) : string :=
  match s with
  | "" => ""
  | String a s' => if Ascii.eqb a c then lstrip c s' else s
  end.

(** [s.replace(a, b)] for single characters. *)
Fixpoint replace (a b : ascii) (s : string) : string :=
  match s with
  | "" => ""
  | String c s => String (if Ascii.eqb c a then b else c) (replace a b s)
  end.

(** ['{: <width}'.format(s)]: left-aligned in a field of [width]
    characters filled with spaces; a longer string is not cut. *)
Definition ljust (width : nat) (s : string) : string :=
  s +:+ mul " " (width - String.length s).

End str.

(** [sorted(names)]: strings compare by their characters' codes.  The order
    is total and antisymmetric, so the sorted list of a list is unique and
    does not depend on the algorithm (see [sorted_unique]). *)
Definition sorted (names : list string) : list string :=
  merge_sort String.le names.

(** ** Effects *)

Inductive exn : Type :=
| SystemExit (status : Z)
| AttributeError (name : string)
| KeyError (key : string)
| TypeError
| OverflowError
| Exception (message : string).

Inductive outcome (A : Type) : Type :=
| Returned (a : A)
| Raised (e : exn).
Arguments Returned {A} a.
Arguments Raised {A} e.

(** What the process has written so far on standard output and on standard
    error. *)
Record World : Type := mkWorld {
  stdout : string;
  stderr : string
}.

Definition Py (A : Type) : Type := World → outcome A * World.

#[global] Instance Py_ret : MRet Py := λ A a w, (Returned a, w).
#[global] Instance Py_bind : MBind Py := λ A B k c w,
  match c w with
  | (Returned a, w') => k a w'
  | (Raised e, w') => (Raised e, w')
  end.

Definition raise {A} (e : exn) : Py A := λ w, (Raised e, w).

(** The newline character, as a string of length one. *)
Definition nl : string := String (ascii_of_nat 10) "".

(** [sys.stdout.write(text)] and [sys.stderr.write(text)] *)
Definition write_stdout (text : string) : Py unit :=
  λ w, (Returned tt, mkWorld (stdout w +:+ text) (stderr w)).
Definition write_stderr (text : string) : Py unit :=
  λ w, (Returned tt, mkWorld (stdout w) (stderr w +:+ text)).

(** [print(line)] *)
Definition print (line : string) : Py unit := write_stdout (line +:+ nl).

(** [f(x) for x in xs], drawn to its end: the values in order, up to the
    first that raises. *)
Fixpoint generate {A B} (f : A → Py B) (xs : list A) : Py (list B) :=
  match xs with
  | [] => mret []
  | x :: xs => y ← f x; ys ← generate f xs; mret (y :: ys)
  end.

(** [for x in xs: body(x)] *)
Fixpoint for_ {A} (xs : list A) (body : A → Py unit) : Py unit :=
  match xs with
  | [] => mret tt
  | x :: xs => body x;; for_ xs body
  end.

(** ** Checker listings *)

(** The double-quote character, as a string of length one. *)
Definition dquote : string := String (ascii_of_nat 34) "".

(** [Dict[str, Tuple[str, bool]]]: name to (description, active). *)
Abbreviation Checkers := (gmap string (string * bool)).

(** [checkers[name]] *)
Definition getitem (checkers : Checkers) (name : string) : Py (string * bool) :=
  match checkers !! name with
  | Some v => mret v
  | None => raise (KeyError name)
  end.

(** [checkers.keys()] and [checkers.items()] *)
Definition keys (checkers : Checkers) : list string := (map_to_list checkers).*1.
Definition items (checkers : Checkers) : list (string * (string * bool)) :=
  map_to_list checkers.

Definition print_active_checkers (checkers : Checkers) : Py unit :=
  for_ (sorted (omap (λ '(name, (_, active)), if active : bool then Some name else None)
                     (items checkers)))
       (λ name, print name).

(** The body of the loop of [print_checkers]. *)
Definition print_checkers_entry (checkers : Checkers) (name : string) : Py unit :=
  '(description, active) ← getitem checkers name;
  let prefix := if active : bool then "+" else " " in
  if (30 <? String.length name)%nat then
    print (" " +:+ prefix +:+ " " +:+ name);;
    print (str.mul " " 35 +:+ description)
  else
    print (" " +:+ prefix +:+ " " +:+ str.ljust 30 name +:+ "  " +:+ description).

Definition print_checkers (checkers : Checkers) : Py unit :=
  print "";;
  print "available checkers:";;
  print "";;
  for_ (sorted (keys checkers)) (print_checkers_entry checkers);;
  print "";;
  print ("NOTE: " +:+ dquote +:+ "+" +:+ dquote +:+
         " indicates that an analysis is enabled by default.");;
  print "".

(** ** Values and namespaces *)

(** The values an attribute of the parsed namespace can hold; a list holds
    values of any kind. *)
#[warnings="-register-all"] Inductive Value : Type :=
| VNone
| VBool (b : bool)
| VInt (n : Z)
| VStr (s : string)
| VListOf (items : list Value).

#[global] Instance Value_eq_dec : EqDecision Value.
Proof.
  refine (fix go (x y : Value) {struct x} : Decision (x = y) :=
            match x, y with
            | VNone, VNone => left eq_refl
            | VBool a, VBool b => cast_if (decide (a = b))
            | VInt a, VInt b => cast_if (decide (a = b))
            | VStr a, VStr b => cast_if (decide (a = b))
            | VListOf a, VListOf b => cast_if (@list_eq_dec Value go a b)
            | _, _ => right _
            end); congruence.
Defined.

(** The list of the given strings. *)
Definition VList (l : list string) : Value := VListOf (VStr <$> l).

(** [argparse.Namespace]: the attributes of the object, by name. *)
Abbreviation Namespace := (gmap string Value).

(** [v is None] *)
Definition is_None (v : Value) : bool :=
  match v with VNone => true | _ => false end.

(** [bool(v)], as an [if] takes it. *)
Definition truthy (v : Value) : bool :=
  match v with
  | VNone => false
  | VBool b => b
  | VInt n => negb (n =? 0)%Z
  | VStr s => negb (String.eqb s "")
  | VListOf items => negb (bool_decide (items = []))
  end.

(** [namespace.name] *)
Definition getattr (namespace : Namespace) (name : string) : Py Value :=
  match namespace !! name with
  | Some v => mret v
  | None => raise (AttributeError name)
  end.

(** [getattr(namespace, name, default)] *)
Definition getattr3 (namespace : Namespace) (name : string) (default : Value) : Value :=
  match namespace !! name with
  | Some v => v
  | None => default
  end.

(** [hasattr(namespace, name)] *)
Definition hasattr (namespace : Namespace) (name : string) : bool :=
  bool_decide (is_Some (namespace !! name)).

(** [setattr(namespace, name, v)]: the namespace after the assignment. *)
Definition setattr (namespace : Namespace) (name : string) (v : Value) : Namespace :=
  <[name := v]> namespace.

(** [iter(v)]: the elements a [for] or a generator draws from [v]; a string
    yields its characters. *)
Fixpoint chars (s : string) : list string :=
  match s with
  | "" => []
  | String c s => String c "" :: chars s
  end.

Definition iter (v : Value) : Py (list Value) :=
  match v with
  | VListOf items => mret items
  | VStr s => mret (VStr <$> chars s)
  | _ => raise TypeError
  end.

(** ** os.path on POSIX *)

Module posixpath.

(** [isabs(s)] *)
Definition isabs (s : string) : bool := str.startswith s "/".

(** [join(a, b)] *)
Definition join (a b : string) : string :=
  if str.startswith b "/" then b
  else if String.eqb a "" || str.endswith a "/" then a +:+ b
  else a +:+ "/" +:+ b.

(** The value of [initial_slashes] in [normpath]: POSIX allows one or two
    initial slashes and treats three or more as one. *)
Definition initial_slashes (path : string) : nat :=
  if str.startswith path "/" then
    if str.startswith path "//" && negb (str.startswith path "///") then 2 else 1
  else 0.

(** One turn of the loop of [normpath] over the components. *)
Definition normpath_step (slashes : nat) (new_comps : list string) (comp : string)
  : list string :=
  if bool_decide (comp = "" ∨ comp = ".") then new_comps
  else if bool_decide (comp ≠ ".." ∨ (slashes = 0 ∧ new_comps = [])
                       ∨ (new_comps ≠ [] ∧ last new_comps = Some ".."))
  then new_comps ++ [comp]
  else if bool_decide (new_comps ≠ []) then removelast new_comps
  else new_comps.

(** [normpath(path)] *)
Definition normpath (path : string) : string :=
  if bool_decide (path = "") then "."
  else
    let slashes := initial_slashes path in
    let comps := str.split "/" path in
    let new_comps := foldl (normpath_step slashes) [] comps in
    let path := str.join "/" new_comps in
    let path :=
      if bool_decide (slashes ≠ 0) then str.mul "/" slashes +:+ path else path in
    if bool_decide (path = "") then "." else path.

(** [abspath(path)] in the working directory [cwd]. *)
Definition abspath (cwd path : string) : string :=
  let path := if isabs path then path else join cwd path in
  normpath path.

End posixpath.

(** ** The process environment *)

(** What the module reads from the operating system, from the Python runtime
    and from the rest of the package.
    - [getcwd] is [os.getcwd()], taken to succeed; it is an absolute path.
    - [exists_on_disk] is [os.path.exists] on a path and [fd_is_open] is
      [os.path.exists] on a file descriptor that fits a C [int].
    - [gettempdir] is [tempfile.gettempdir()], taken to find a directory.
    - [argv0] is [os.path.basename(sys.argv[0])].
    - [int_of_str] is [int] on a string, [None] where it raises.
    - [get_checkers] is [libscanbuild.clang.get_checkers]: it runs the
      analyzer and may fail.
    - [list_of_set xs] is [list(set(xs))]: the elements of [xs], once each,
      in the order the runtime iterates the set, which depends on the hash
      seed of the process and on the insertions made; no order is assumed. *)
Class Environment : Type := {
  getcwd : string;
  getcwd_isabs : posixpath.isabs getcwd = true;
  exists_on_disk : string → bool;
  fd_is_open : Z → bool;
  gettempdir : string;
  argv0 : string;
  int_of_str : string → option Z;
  get_checkers : Value → Value → Py Checkers;
  list_of_set : list string → list string;
  list_of_set_NoDup : ∀ xs, NoDup (list_of_set xs);
  list_of_set_elem : ∀ xs x, x ∈ list_of_set xs ↔ x ∈ xs
}.

(** [os.path.abspath(path)] *)
Definition os_path_abspath `{Environment} (path : string) : string :=
  posixpath.abspath getcwd path.

(** [os.path.abspath(entry)] on a value: a value that is not a string is
    not a path. *)
Definition abspath_of `{Environment} (entry : Value) : Py string :=
  match entry with
  | VStr path => mret (os_path_abspath path)
  | _ => raise TypeError
  end.

(** [os.path.exists(path)]: a number is a file descriptor, and one that
    does not fit a C [int] is refused with an overflow error. *)
Definition os_path_exists `{Environment} (path : Value) : Py bool :=
  match path with
  | VStr s => mret (exists_on_disk s)
  | VInt n =>
      if bool_decide (-2147483648 ≤ n ≤ 2147483647)%Z then mret (fd_is_open n)
      else raise OverflowError
  | VBool b => mret (fd_is_open (if b then 1 else 0))
  | VNone | VListOf _ => raise TypeError
  end.

(** ** The accumulating option action *)

(** [actual.extend(words)] *)
Definition extend (actual : Value) (words : list string) : Py Value :=
  match actual with
  | VListOf items => mret (VListOf (items ++ (VStr <$> words)))
  | _ => raise (AttributeError "extend")
  end.

(** [AppendCommaSeparated.__call__(self, parser, namespace, values)] where
    [self.dest] is [self_dest]: the namespace after the call. *)
Definition AppendCommaSeparated_call (self_dest : string) (namespace : Namespace)
    (values : string) : Py Namespace :=
  let namespace :=
    if is_None (getattr3 namespace self_dest VNone)
    then setattr namespace self_dest (VList [])
    else namespace in
  actual ← getattr namespace self_dest;
  actual ← extend actual (str.split "," values);
  mret (setattr namespace self_dest actual).

(** ** argparse *)

Module argparse.

(** [argparse.SUPPRESS] *)
Definition SUPPRESS : string := "==SUPPRESS==".

(** The action classes the parser uses: argparse's own, by their registry
    names, and the class [AppendCommaSeparated] of this module. *)
Inductive ActionClass : Type :=
| store | store_const | store_true | store_false | append | count | help
| AppendCommaSeparated.

Inductive ArgType : Type := int.

(** The keyword arguments of [add_argument] that decide the parse; [help]
    texts only reach the help message and are left out. *)
Inductive kwarg : Type :=
| dest (name : string)
| action (cls : ActionClass)
| const (v : Value)
| default (v : Value)
| default_SUPPRESS
| type (t : ArgType)
| choices (l : list string)
| metavar (s : string).

(** An [argparse.Action] object. [a_nargs] is [Some 0] for an option that
    takes no argument and [None] for one that takes exactly one.  [a_default]
    is [None] when the default is the object [argparse.SUPPRESS], which
    argparse tells from every value by identity. *)
Record Action : Type := mkAction {
  option_strings : list string;
  a_dest : string;
  a_class : ActionClass;
  a_nargs : option nat;
  a_const : Value;
  a_default : option Value;
  a_type : option ArgType;
  a_choices : option (list string)
}.

#[global] Instance ActionClass_eq_dec : EqDecision ActionClass.
Proof. solve_decision. Defined.
#[global] Instance ArgType_eq_dec : EqDecision ArgType.
Proof. solve_decision. Defined.
#[global] Instance Action_eq_dec : EqDecision Action.
Proof. solve_decision. Defined.

(** An [ArgumentParser]: the program name, the actions in the order they
    were added, and the mutually exclusive groups with their actions. *)
Record ArgumentParser : Type := mkParser {
  prog : string;
  actions : list Action;
  mutually_exclusive_groups : list (list Action)
}.

(** Where [add_argument] is called: on the parser or one of its argument
    groups (which only arrange the help message), or on the mutually
    exclusive group of the given index. *)
Inductive container : Type :=
| on_parser
| on_mutex_group (index : nat).

(** The destination [add_argument] derives when [dest] is not given: the
    first long option string (or the first option string), without its
    leading dashes and with the other dashes as underscores. *)
Definition is_long (option_string : string) : bool :=
  match option_string with
  | String _ (String c _) => Ascii.eqb c "-"
  | _ => false
  end.

Definition derived_dest (option_strings : list string) : string :=
  let long_option_strings := List.filter is_long option_strings in
  let dest_option_string :=
    match long_option_strings, option_strings with
    | s :: _, _ => s
    | [], s :: _ => s
    | [], [] => ""
    end in
  str.replace "-" "_" (str.lstrip "-" dest_option_string).

Definition kw_dest (kwargs : list kwarg) : option string :=
  head (omap (λ k, match k with dest d => Some d | _ => None end) kwargs).
Definition kw_action (kwargs : list kwarg) : option ActionClass :=
  head (omap (λ k, match k with action c => Some c | _ => None end) kwargs).
Definition kw_const (kwargs : list kwarg) : option Value :=
  head (omap (λ k, match k with const v => Some v | _ => None end) kwargs).
Definition kw_default (kwargs : list kwarg) : option (option Value) :=
  head (omap (λ k, match k with
                   | default v => Some (Some v)
                   | default_SUPPRESS => Some None
                   | _ => None
                   end) kwargs).
Definition kw_type (kwargs : list kwarg) : option ArgType :=
  head (omap (λ k, match k with type t => Some t | _ => None end) kwargs).
Definition kw_choices (kwargs : list kwarg) : option (list string) :=
  head (omap (λ k, match k with choices l => Some l | _ => None end) kwargs).

(** [add_argument] with its option strings and keywords: the action it
    creates.  The defaults are those of the constructor of each class. *)
Definition make_action (option_strings : list string) (kwargs : list kwarg) : Action :=
  let d := match kw_dest kwargs with
           | Some d => d
           | None => derived_dest option_strings
           end in
  let given_default :=
    match kw_default kwargs with Some v => v | None => Some VNone end in
  let given_const := match kw_const kwargs with Some v => v | None => VNone end in
  match match kw_action kwargs with Some c => c | None => store end with
  | store =>
      mkAction option_strings d store None given_const given_default
               (kw_type kwargs) (kw_choices kwargs)
  | store_const =>
      mkAction option_strings d store_const (Some 0) given_const given_default None None
  | store_true =>
      mkAction option_strings d store_true (Some 0) (VBool true)
               (match kw_default kwargs with Some v => v | None => Some (VBool false) end)
               None None
  | store_false =>
      mkAction option_strings d store_false (Some 0) (VBool false)
               (match kw_default kwargs with Some v => v | None => Some (VBool true) end)
               None None
  | append =>
      mkAction option_strings d append None given_const given_default
               (kw_type kwargs) (kw_choices kwargs)
  | count =>
      mkAction option_strings d count (Some 0) VNone given_default None None
  | help =>
      mkAction option_strings d help (Some 0) VNone
               (match kw_default kwargs with Some v => v | None => None end)
               None None
  | AppendCommaSeparated =>
      mkAction option_strings d AppendCommaSeparated None given_const given_default
               (kw_type kwargs) (kw_choices kwargs)
  end.

Definition add_argument (parser : ArgumentParser) (where_ : container)
    (option_strings : list string) (kwargs : list kwarg) : ArgumentParser :=
  let a := make_action option_strings kwargs in
  mkParser (prog parser) (actions parser ++ [a])
    match where_ with
    | on_parser => mutually_exclusive_groups parser
    | on_mutex_group i =>
        alter (λ g, g ++ [a]) i (mutually_exclusive_groups parser)
    end.

(** [add_mutually_exclusive_group()]: the parser with the new, empty group
    and the index of the group. *)
Definition add_mutually_exclusive_group (parser : ArgumentParser)
  : ArgumentParser * container :=
  (mkParser (prog parser) (actions parser) (mutually_exclusive_groups parser ++ [[]]),
   on_mutex_group (length (mutually_exclusive_groups parser))).

(** [ArgumentParser(...)] with [add_help] left at its default: the parser
    starts with the help option. *)
Definition new_parser `{Environment} : ArgumentParser :=
  add_argument (mkParser argv0 [] []) on_parser ["-h"; "--help"]
    [action help; default_SUPPRESS].

(** The failures of the parse that argparse reports as usage errors. *)
Inductive ArgumentError : Type :=
| not_allowed_with (a conflict : Action)
| expected_one_argument (a : Action)
| ignored_explicit_argument (a : Action) (arg : string)
| invalid_value (a : Action) (arg : string)
| invalid_choice (a : Action) (arg : string)
| unrecognized_arguments (args : list string).

(** The texts argparse lays out: the usage line, the help message and the
    message of a usage error. *)
Class HelpFormatter : Type := {
  format_usage : ArgumentParser → string;
  format_help : ArgumentParser → string;
  str_of_error : ArgumentError → string
}.

(** [parser.exit(status, message)]; argparse writes a message only when it
    is not empty, and writing an empty one writes nothing. *)
Definition exit {A} (status : Z) (message : option string) : Py A :=
  match message with
  | Some m => write_stderr m
  | None => mret tt
  end;;
  raise (SystemExit status).

(** [parser.error(message)] *)
Definition error `{HelpFormatter} {A} (parser : ArgumentParser) (message : string)
  : Py A :=
  write_stderr (format_usage parser);;
  exit 2 (Some (prog parser +:+ ": error: " +:+ message +:+ nl)).

(** One option of the command line as argparse has read it: the option
    string it has resolved the word to (an abbreviation stands as the option
    string it abbreviates, and a cluster of one-letter options as its
    options one by one), and the argument given with it, if there is one, as
    in [--cdb=file], or in [--cdb file] when the second word is one argparse
    takes for an argument.  A word that abbreviates several option strings
    is refused before any option is consumed, and makes no occurrence. *)
Inductive occurrence : Type :=
| Occ (option_string : string) (argument : option string).

(** The action registered for an option string, looked up as it stands:
    the words have been resolved before, see [occurrence]. *)
Definition find_action (parser : ArgumentParser) (option_string : string)
  : option Action :=
  head (filter (λ a, option_string ∈ option_strings a) (actions parser)).

(** [action_conflicts[a]]: the other actions of the mutually exclusive
    groups [a] belongs to. *)
Definition action_conflicts (parser : ArgumentParser) (a : Action) : list Action :=
  g ← mutually_exclusive_groups parser;
  if bool_decide (a ∈ g) then filter (λ b, b ≠ a) g else [].

(** [_get_value]: the argument converted by the [type] of the action. *)
Definition get_value `{Environment} (a : Action) (arg_string : string)
  : ArgumentError + Value :=
  match a_type a with
  | None => inr (VStr arg_string)
  | Some int =>
      match int_of_str arg_string with
      | Some n => inr (VInt n)
      | None => inl (invalid_value a arg_string)
      end
  end.

(** [_check_value]: the converted argument is one of the [choices]. *)
Definition check_value (a : Action) (arg_string : string) (value : Value)
  : ArgumentError + Value :=
  match a_choices a with
  | None => inr value
  | Some l =>
      match value with
      | VStr s => if bool_decide (s ∈ l) then inr value
                  else inl (invalid_choice a arg_string)
      | _ => inl (invalid_choice a arg_string)
      end
  end.

(** [arg_strings.remove('--')], where the string may be missing: the list
    without the first [--]. *)
Fixpoint remove_dashes (arg_strings : list string) : list string :=
  match arg_strings with
  | [] => []
  | arg_string :: arg_strings =>
      if String.eqb arg_string "--" then arg_strings
      else arg_string :: remove_dashes arg_strings
  end.

(** The list of the arguments, each converted, then each checked. *)
Fixpoint get_value_all `{Environment} (a : Action) (arg_strings : list string)
  : ArgumentError + list Value :=
  match arg_strings with
  | [] => inr []
  | arg_string :: arg_strings =>
      match get_value a arg_string with
      | inl e => inl e
      | inr value =>
          match get_value_all a arg_strings with
          | inl e => inl e
          | inr values => inr (value :: values)
          end
      end
  end.

Fixpoint check_value_all (a : Action) (arg_strings : list string) (values : list Value)
  : ArgumentError + list Value :=
  match arg_strings, values with
  | arg_string :: arg_strings, value :: values =>
      match check_value a arg_string value with
      | inl e => inl e
      | inr value =>
          match check_value_all a arg_strings values with
          | inl e => inl e
          | inr values => inr (value :: values)
          end
      end
  | _, _ => inr []
  end.

(** [_get_values]: the first [--] among the argument strings is dropped;
    an option that takes one argument and has one string left gets it
    converted and checked, and in every other case the action gets the list
    of what is left, which is the empty list for an option without argument
    and for the argument [--]. *)
Definition get_values `{Environment} (a : Action) (arg_strings : list string)
  : ArgumentError + Value :=
  let arg_strings := remove_dashes arg_strings in
  match arg_strings, a_nargs a with
  | [arg_string], None =>
      match get_value a arg_string with
      | inr value => check_value a arg_string value
      | inl e => inl e
      end
  | _, _ =>
      match get_value_all a arg_strings with
      | inl e => inl e
      | inr values =>
          match check_value_all a arg_strings values with
          | inl e => inl e
          | inr values => inr (VListOf values)
          end
      end
  end.

(** [action(parser, namespace, values, option_string)] for each class; for
    an option without argument [values] is not read. *)
Definition call `{Environment} `{HelpFormatter} (parser : ArgumentParser) (a : Action)
    (namespace : Namespace) (values : Value) : Py Namespace :=
  match a_class a with
  | store => mret (setattr namespace (a_dest a) values)
  | store_const | store_true | store_false =>
      mret (setattr namespace (a_dest a) (a_const a))
  | append =>
      match getattr3 namespace (a_dest a) VNone with
      | VNone => mret (setattr namespace (a_dest a) (VListOf [values]))
      | VListOf items => mret (setattr namespace (a_dest a) (VListOf (items ++ [values])))
      | _ => raise (AttributeError "append")
      end
  | count =>
      match getattr3 namespace (a_dest a) VNone with
      | VNone => mret (setattr namespace (a_dest a) (VInt 1))
      | VInt n => mret (setattr namespace (a_dest a) (VInt (n + 1)))
      | VBool b => mret (setattr namespace (a_dest a) (VInt ((if b then 1 else 0) + 1)))
      | _ => raise TypeError
      end
  | help => write_stdout (format_help parser);; exit 0 None
  | AppendCommaSeparated =>
      match values with
      | VStr s => AppendCommaSeparated_call (a_dest a) namespace s
      | _ => raise (AttributeError "split")
      end
  end.

(** The state of the loop of [parse_known_args]. *)
Record ParseState : Type := mkState {
  namespace : Namespace;
  seen_non_default_actions : list Action;
  extras : list string
}.

Definition usage_error `{HelpFormatter} {A} (parser : ArgumentParser) (e : ArgumentError)
  : Py A :=
  error parser (str_of_error e).

(** [take_action]: the argument is converted and checked, the action is
    refused when a conflicting action was seen before, and then it is
    called. *)
Definition take_action `{Environment} `{HelpFormatter} (parser : ArgumentParser)
    (a : Action) (argument : option string) (st : ParseState) : Py ParseState :=
  match get_values a (option_list argument) with
  | inl e => usage_error parser e
  | inr values =>
      let seen := a :: seen_non_default_actions st in
      match filter (λ c, c ∈ seen) (action_conflicts parser a) with
      | conflict :: _ => usage_error parser (not_allowed_with a conflict)
      | [] =>
          ns ← call parser a (namespace st) values;
          mret (mkState ns seen (extras st))
      end
  end.

(** [consume_optional]: an option string no action is registered for goes
    to the extras; an option is refused when it comes with an argument and
    takes none, or comes with none and takes one. *)
Definition consume_optional `{Environment} `{HelpFormatter} (parser : ArgumentParser)
    (st : ParseState) (o : occurrence) : Py ParseState :=
  let '(Occ option_string argument) := o in
  match find_action parser option_string with
  | None =>
      mret (mkState (namespace st) (seen_non_default_actions st)
              (extras st ++ option_string :: option_list argument))
  | Some a =>
      match a_nargs a, argument with
      | Some 0, Some arg => usage_error parser (ignored_explicit_argument a arg)
      | Some 0, None => take_action parser a None st
      | _, None => usage_error parser (expected_one_argument a)
      | _, Some arg => take_action parser a (Some arg) st
      end
  end.

Fixpoint consume_optionals `{Environment} `{HelpFormatter} (parser : ArgumentParser)
    (st : ParseState) (args : list occurrence) : Py ParseState :=
  match args with
  | [] => mret st
  | o :: args =>
      st ← consume_optional parser st o;
      consume_optionals parser st args
  end.

(** The namespace before the first option is read: each destination holds
    the default of the first action that names it. *)
Definition add_default (namespace : Namespace) (a : Action) : Namespace :=
  if bool_decide (a_dest a ≠ SUPPRESS) && negb (hasattr namespace (a_dest a)) then
    match a_default a with
    | Some v => setattr namespace (a_dest a) v
    | None => namespace
    end
  else namespace.

Definition initial_namespace (parser : ArgumentParser) : Namespace :=
  foldl add_default ∅ (actions parser).

(** [parser.parse_args()] on the options of the command line.  (At its end
    argparse converts, with the [type] of the action, a default that is a
    string and is still in the namespace; no action of this parser has both
    a [type] and a string for default, so nothing is converted.) *)
Definition parse_args `{Environment} `{HelpFormatter} (parser : ArgumentParser)
    (args : list occurrence) : Py Namespace :=
  st ← consume_optionals parser (mkState (initial_namespace parser) [] []) args;
  if bool_decide (extras st ≠ [])
  then usage_error parser (unrecognized_arguments (extras st))
  else mret (namespace st).

End argparse.

(** ** The module *)

Section arguments.
Import argparse.
Context `{Environment} `{HelpFormatter}.

(** [normalize_args_for_analyze(args)]: the namespace after the call. *)
Definition normalize_args_for_analyze (args : Namespace) : Py Namespace :=
  plugins ← getattr args "plugins";
  let args := if is_None plugins then setattr args "plugins" (VList []) else args in
  excludes ← getattr args "excludes";
  entries ← iter excludes;
  uniq_excludes ← generate abspath_of entries;
  mret (setattr args "excludes" (VList (list_of_set uniq_excludes))).

(** [validate_args_for_analyze(parser, args)] *)
Definition validate_args_for_analyze (parser : ArgumentParser) (args : Namespace)
  : Py unit :=
  help_checkers_verbose ← getattr args "help_checkers_verbose";
  if truthy help_checkers_verbose then
    clang ← getattr args "clang";
    plugins ← getattr args "plugins";
    checkers ← get_checkers clang plugins;
    print_checkers checkers;;
    exit 0 None
  else
    help_checkers ← getattr args "help_checkers";
    if truthy help_checkers then
      clang ← getattr args "clang";
      plugins ← getattr args "plugins";
      checkers ← get_checkers clang plugins;
      print_active_checkers checkers;;
      exit 0 None
    else
      cdb ← getattr args "cdb";
      found ← os_path_exists cdb;
      if negb found then error parser "compilation database is missing"
      else mret tt.

(** [create_default_parser()] *)
Definition create_default_parser : ArgumentParser :=
  let parser := new_parser in
  let parser := add_argument parser on_parser ["--verbose"; "-v"]
    [action count; default (VInt 0)] in
  parser.

(** [create_analyze_parser()]; the argument groups [output], [advanced] and
    [plugins] only arrange the help message, so their arguments are added to
    the parser. *)
Definition create_analyze_parser : ArgumentParser :=
  let parser := create_default_parser in
  let parser := add_argument parser on_parser ["--cdb"]
    [metavar "<file>"; default (VStr "compile_commands.json")] in
  let parser := add_argument parser on_parser ["--status-bugs"]
    [action store_true] in
  let parser := add_argument parser on_parser ["--exclude"]
    [metavar "<directory>"; dest "excludes"; action append; default (VList [])] in
  let output := on_parser in
  let parser := add_argument parser output ["--output"; "-o"]
    [metavar "<path>"; default (VStr gettempdir)] in
  let parser := add_argument parser output ["--keep-empty"]
    [action store_true] in
  let parser := add_argument parser output ["--html-title"]
    [metavar "<title>"] in
  let '(parser, format_group) := add_mutually_exclusive_group parser in
  let parser := add_argument parser format_group ["--plist"; "-plist"]
    [dest "output_format"; const (VStr "plist"); default (VStr "html");
     action store_const] in
  let parser := add_argument parser format_group ["--plist-html"; "-plist-html"]
    [dest "output_format"; const (VStr "plist-html"); default (VStr "html");
     action store_const] in
  let parser := add_argument parser format_group
    ["--plist-multi-file"; "-plist-multi-file"]
    [dest "output_format"; const (VStr "plist-multi-file"); default (VStr "html");
     action store_const] in
  let advanced := on_parser in
  let parser := add_argument parser advanced ["--use-analyzer"]
    [metavar "<path>"; dest "clang"; default (VStr "clang")] in
  let parser := add_argument parser advanced
    ["--no-failure-reports"; "-no-failure-reports"]
    [dest "output_failures"; action store_false] in
  let parser := add_argument parser on_parser ["--analyze-headers"]
    [action store_true] in
  let parser := add_argument parser advanced ["--stats"; "-stats"]
    [action store_true] in
  let parser := add_argument parser advanced ["--internal-stats"]
    [action store_true] in
  let parser := add_argument parser advanced ["--maxloop"; "-maxloop"]
    [metavar "<loop count>"; type int] in
  let parser := add_argument parser advanced ["--store"; "-store"]
    [metavar "<model>"; dest "store_model"; choices ["region"; "basic"]] in
  let parser := add_argument parser advanced ["--constraints"; "-constraints"]
    [metavar "<model>"; dest "constraints_model"; choices ["range"; "basic"]] in
  let parser := add_argument parser advanced ["--analyzer-config"; "-analyzer-config"]
    [metavar "<options>"] in
  let parser := add_argument parser advanced ["--force-analyze-debug-code"]
    [dest "force_debug"; action store_true] in
  let plugins := on_parser in
  let parser := add_argument parser plugins ["--load-plugin"; "-load-plugin"]
    [metavar "<plugin library>"; dest "plugins"; action append] in
  let parser := add_argument parser plugins ["--enable-checker"; "-enable-checker"]
    [metavar "<checker name>"; action AppendCommaSeparated] in
  let parser := add_argument parser plugins ["--disable-checker"; "-disable-checker"]
    [metavar "<checker name>"; action AppendCommaSeparated] in
  let parser := add_argument parser plugins ["--help-checkers"]
    [action store_true] in
  let parser := add_argument parser plugins ["--help-checkers-verbose"]
    [action store_true] in
  parser.

End arguments.

(** ** An environment to run the definitions in *)

Definition example_checkers : Checkers :=
  {[ "core.A" := ("desc", true);
     "core.VeryLongCheckerNameExceedingThirtyChars" := ("d2", false) ]}.

#[local] Instance example_env : Environment := {|
  getcwd := "/home/user/project";
  getcwd_isabs := eq_refl;
  exists_on_disk := λ p, bool_decide (p = "compile_commands.json");
  fd_is_open := λ n, bool_decide (0 ≤ n ≤ 2)%Z;
  gettempdir := "/tmp";
  argv0 := "analyze-build";
  int_of_str := λ s, if String.eqb s "4" then Some 4%Z else None;
  get_checkers := λ _ _, mret example_checkers;
  list_of_set := remove_dups;
  list_of_set_NoDup := NoDup_remove_dups;
  list_of_set_elem := λ xs x, elem_of_remove_dups xs x
|}.

#[local] Instance example_formatter : argparse.HelpFormatter := {|
  argparse.format_usage := λ p, "usage: " +:+ argparse.prog p +:+ nl;
  argparse.format_help := λ p, "usage: " +:+ argparse.prog p +:+ nl;
  argparse.str_of_error := λ e, "error"
|}.

Definition w0 : World := mkWorld "" "".

(** The text of the given lines, each ended by a newline. *)
Fixpoint unlines (lines : list string) : string :=
  match lines with
  | [] => ""
  | line :: lines => line +:+ nl +:+ unlines lines
  end.

(** The lines of the header and of the footer of the verbose listing. *)
Definition header : list string := [""; "available checkers:"; ""].
Definition legend : string :=
  "NOTE: " +:+ dquote +:+ "+" +:+ dquote +:+
  " indicates that an analysis is enabled by default.".
Definition footer : list string := [""; legend; ""].

(** The lines of the verbose listing for one checker, as the specification
    words them: the marker and the name, and the description either on the
    same line after the name padded to 30 characters and two spaces, or on a
    line of its own after 35 spaces. *)
Definition entry_lines (name description : string) (active : bool) : list string :=
  let marker := if active then "+" else " " in
  if decide (30 < String.length name) then
    [" " +:+ marker +:+ " " +:+ name;
     "                                   " +:+ description]
  else
    [" " +:+ marker +:+ " " +:+ name +:+ str.mul " " (30 - String.length name)
       +:+ "  " +:+ description].

(** The two attributes the normaliser reads, with the values the parser
    leaves in them when no argument is the bare [--]: [plugins] is [None] or
    a list of strings, [excludes] is a list of strings. *)
Definition parsed (args : Namespace) : Prop :=
  (args !! "plugins" = Some VNone ∨ ∃ l, args !! "plugins" = Some (VList l))
  ∧ ∃ excludes, args !! "excludes" = Some (VList excludes).

(** The attributes the validator reads, with the values the parser leaves
    in them: the two help flags are booleans, the analyzer and the
    compilation database are strings. *)
Definition validated (args : Namespace) : Prop :=
  (∃ b, args !! "help_checkers_verbose" = Some (VBool b))
  ∧ (∃ b, args !! "help_checkers" = Some (VBool b))
  ∧ (∃ s, args !! "clang" = Some (VStr s))
  ∧ (∃ s, args !! "cdb" = Some (VStr s)).

(** The namespace a computation returns from the empty world; the empty
    namespace when it raises. *)
Definition returned (c : Py Namespace) : Namespace :=
  match c w0 with
  | (Returned ns, _) => ns
  | (Raised _, _) => ∅
  end.

(** A namespace to run the normaliser and the validator on: what the parser
    returns for [--exclude src/../lib --exclude lib --exclude /opt/x]. *)
Definition example_args : Namespace :=
  returned (argparse.parse_args create_analyze_parser
              [argparse.Occ "--exclude" (Some "src/../lib");
               argparse.Occ "--exclude" (Some "lib");
               argparse.Occ "--exclude" (Some "/opt/x")]).

(** A namespace whose compilation database is not on the disk of the example
    environment: what the parser returns for [--cdb missing.json]. *)
Definition missing_cdb_args : Namespace :=
  returned (argparse.parse_args create_analyze_parser
              [argparse.Occ "--cdb" (Some "missing.json")]).

(** The actions of the output-format flags: those of the mutually exclusive
    groups of the parser. *)
Definition format_group `{Environment} : list argparse.Action :=
  concat (argparse.mutually_exclusive_groups create_analyze_parser).

(** The output-format flags, in their two spellings, with the format each
    selects. *)
Definition format_flags : list (string * string) :=
  [("--plist", "plist"); ("-plist", "plist");
   ("--plist-html", "plist-html"); ("-plist-html", "plist-html");
   ("--plist-multi-file", "plist-multi-file");
   ("-plist-multi-file", "plist-multi-file")].

(** What holds of the output format while the options are read: it is
    [html] and no format flag was seen, or it is the format of the one
    format flag that was seen. *)
Definition format_invariant `{Environment} (st : argparse.ParseState) : Prop :=
  ∃ f, argparse.namespace st !! "output_format" = Some (VStr f)
       ∧ ((f = "html"
           ∧ ∀ a, a ∈ argparse.seen_non_default_actions st → a ∉ format_group)
          ∨ (∃ a, a ∈ format_group
                  ∧ a ∈ argparse.seen_non_default_actions st
                  ∧ argparse.a_const a = VStr f
                  ∧ ∀ b, b ∈ argparse.seen_non_default_actions st →
                         b ∈ format_group → b = a)).

(** A command line on which no option has the bare [--] for argument. *)
Definition plain (args : list argparse.occurrence) : Prop :=
  Forall (λ o, match o with argparse.Occ _ argument => argument ≠ Some "--" end) args.

(** The two checker-accumulating options: the spellings of the flag and the
    attribute it fills. *)
Definition checker_options : list (list string * string) :=
  [(["--enable-checker"; "-enable-checker"], "enable_checker");
   (["--disable-checker"; "-disable-checker"], "disable_checker")].

(** The arguments given to the flags [flags] on a command line, in order. *)
Definition arguments_of (flags : list string) (args : list argparse.occurrence)
  : list string :=
  omap (λ o, match o with
             | argparse.Occ option_string argument =>
                 if bool_decide (option_string ∈ flags) then argument else None
             end) args.

(** What the specification says the attribute holds after the flag was given
    with these arguments: [None] when the flag was not given, else the
    concatenation, in order, of the arguments split on commas. *)
Definition accumulated (values : list string) : Value :=
  match values with
  | [] => VNone
  | _ => VList (values ≫= str.split ",")
  end.

(** The attribute after one more argument. *)
Definition accumulate (v : Value) (values : string) : Value :=
  VListOf (match v with VListOf items => items | _ => [] end
           ++ (VStr <$> str.split "," values)).

(** [c in s] for a character. *)
Fixpoint contains (c : ascii) (s : string) : bool :=
  match s with
  | "" => false
  | String a s => Ascii.eqb a c || contains c s
  end.

(** A component of a normalised absolute path: a name, that is neither
    empty nor [.] nor [..] and holds no slash. *)
Definition is_name (comp : string) : Prop :=
  comp ≠ "" ∧ comp ≠ "." ∧ comp ≠ ".." ∧ contains "/" comp = false.

(** ** The entry point *)

(** The logging of the entry point: [reconfigure_logging] of the package
    and [logging.debug] of the runtime, given the format and the object to
    log (the command line or the namespace).  What they write, and whether
    they raise, is left open. *)
Class Logging : Type := {
  reconfigure_logging : Value → Py unit;
  logging_debug : string → list argparse.occurrence + Namespace → Py unit
}.

Section entry.
Import argparse.
Context `{Environment} `{HelpFormatter} `{Logging}.

(** [parse_args_for_analyze_build()] on the command line [argv]. *)
Definition parse_args_for_analyze_build (argv : list occurrence) : Py Namespace :=
  let parser := create_analyze_parser in
  args ← parse_args parser argv;
  verbose ← getattr args "verbose";
  reconfigure_logging verbose;;
  logging_debug "Raw arguments %s" (inl argv);;
  args ← normalize_args_for_analyze args;
  validate_args_for_analyze parser args;;
  logging_debug "Parsed arguments: %s" (inr args);;
  mret args.

End entry.

(** A logging that writes nothing, to run the entry point with. *)
#[local] Instance example_logging : Logging := {|
  reconfigure_logging := λ _, mret tt;
  logging_debug := λ _ _, mret tt
|}.

(** ** What the parser leaves in the namespace *)

(** The option string of an occurrence. *)
Definition flag_of (o : argparse.occurrence) : string :=
  match o with argparse.Occ option_string _ => option_string end.

(** Whether one of the flags [flags] is on the command line, and how many
    times. *)
Definition given (flags : list string) (args : list argparse.occurrence) : bool :=
  bool_decide (Exists (λ o, flag_of o ∈ flags) args).
Definition occurrences (flags : list string) (args : list argparse.occurrence) : nat :=
  length (filter (λ o, flag_of o ∈ flags) args).

(** What an option that takes one argument hands its action for it:
    argparse drops the bare [--] and hands the empty list, and hands any
    other argument as [convert] makes it. *)
Definition handed (convert : string → Value) (argument : string) : Value :=
  if String.eqb argument "--" then VListOf [] else convert argument.

(** [int(s)] for an argument the parser took. *)
Definition number `{Environment} (s : string) : Value :=
  from_option VInt VNone (int_of_str s).

(** The attribute [dest_] seen as folded over the command line: an
    occurrence of one of [flags] updates it with [step], any other option
    leaves it. *)
Definition fold_dest (flags : list string) (step : option string → Value → Value)
    (v : Value) (args : list argparse.occurrence) : Value :=
  foldl (λ v o, match o with
                | argparse.Occ option_string argument =>
                    if bool_decide (option_string ∈ flags) then step argument v else v
                end) v args.

(** The options that store their argument, with their attribute and its
    default. *)
Definition store_options `{Environment} : list (list string * string * Value) :=
  [(["--cdb"], "cdb", VStr "compile_commands.json");
   (["--output"; "-o"], "output", VStr gettempdir);
   (["--html-title"], "html_title", VNone);
   (["--use-analyzer"], "clang", VStr "clang");
   (["--analyzer-config"; "-analyzer-config"], "analyzer_config", VNone)].

(** The options that store one of a few words, with their attribute and the
    words. *)
Definition choice_options : list (list string * string * list string) :=
  [(["--store"; "-store"], "store_model", ["region"; "basic"]);
   (["--constraints"; "-constraints"], "constraints_model", ["range"; "basic"])].

(** The options without argument that set a boolean, with their attribute
    and the value they set; the attribute holds the other value when the
    option is not given. *)
Definition switch_options : list (list string * string * bool) :=
  [(["--status-bugs"], "status_bugs", true);
   (["--keep-empty"], "keep_empty", true);
   (["--no-failure-reports"; "-no-failure-reports"], "output_failures", false);
   (["--analyze-headers"], "analyze_headers", true);
   (["--stats"; "-stats"], "stats", true);
   (["--internal-stats"], "internal_stats", true);
   (["--force-analyze-debug-code"], "force_debug", true);
   (["--help-checkers"], "help_checkers", true);
   (["--help-checkers-verbose"], "help_checkers_verbose", true)].

(** The options that append their argument, with their attribute and what
    it holds when the option is not given. *)
Definition append_options : list (list string * string * Value) :=
  [(["--exclude"], "excludes", VList []);
   (["--load-plugin"; "-load-plugin"], "plugins", VNone)].

(** The names of the attributes of a parsed namespace. *)
Definition attribute_names : list string :=
  ["verbose"; "cdb"; "status_bugs"; "excludes"; "output"; "keep_empty";
   "html_title"; "output_format"; "clang"; "output_failures"; "analyze_headers";
   "stats"; "internal_stats"; "maxloop"; "store_model"; "constraints_model";
   "analyzer_config"; "force_debug"; "plugins"; "enable_checker";
   "disable_checker"; "help_checkers"; "help_checkers_verbose"].

(** The value an action of a class can work on: a list or [None] (or
    nothing) for the appending classes, a number or [None] (or nothing) for
    the counting class. *)
Definition class_shape (c : argparse.ActionClass) (v : option Value) : Prop :=
  match c with
  | argparse.append | argparse.AppendCommaSeparated =>
      v = None ∨ v = Some VNone ∨ ∃ items, v = Some (VListOf items)
  | argparse.count =>
      v = None ∨ v = Some VNone ∨ (∃ n, v = Some (VInt n)) ∨ ∃ b, v = Some (VBool b)
  | _ => True
  end.

(** A namespace every action of the parser can work on. *)
Definition typed `{Environment} (ns : Namespace) : Prop :=
  Forall (λ a, class_shape (argparse.a_class a) (ns !! argparse.a_dest a))
         (argparse.actions create_analyze_parser).

(** An option of the command line the parser takes: its option string is
    registered and is not the help option, it comes with an argument exactly
    when it takes one, and the argument is a number where one is asked for
    and one of the choices where there are choices; or the argument is the
    bare [--], which is neither converted nor checked, and the option is not
    a checker flag. *)
Definition acceptable `{Environment} (o : argparse.occurrence) : Prop :=
  match o with
  | argparse.Occ option_string argument =>
      ∃ a, argparse.find_action create_analyze_parser option_string = Some a
           ∧ argparse.a_class a ≠ argparse.help
           ∧ match argparse.a_nargs a, argument with
             | Some 0, None => True
             | None, Some s =>
                 if String.eqb s "--"
                 then argparse.a_class a ≠ argparse.AppendCommaSeparated
                 else (argparse.a_type a = Some argparse.int → is_Some (int_of_str s))
                      ∧ (∀ l, argparse.a_choices a = Some l → s ∈ l)
             | _, _ => False
             end
  end.

(** A command line the parser takes: every option is acceptable and the
    output-format flags on it all select the same format. *)
Definition well_formed `{Environment} (args : list argparse.occurrence) : Prop :=
  Forall acceptable args
  ∧ ∀ o o' f f', o ∈ args → o' ∈ args →
                 (flag_of o, f) ∈ format_flags → (flag_of o', f') ∈ format_flags →
                 f = f'.

(** How a parse can end from the world [w]: it returns and nothing was
    written; or the help message was written on standard output and the
    process exits with status 0; or the usage and the message of a usage
    error were written on standard error and the process exits with
    status 2; or the accumulating action was handed a list, which has no
    [split], and nothing was written. *)
Definition parse_outcome `{Environment} `{argparse.HelpFormatter} {A}
    (w : World) (r : outcome A * World) : Prop :=
  (∃ a, r = (Returned a, w))
  ∨ r = (Raised (SystemExit 0),
         mkWorld (stdout w +:+ argparse.format_help create_analyze_parser) (stderr w))
  ∨ (∃ e, r = (Raised (SystemExit 2),
               mkWorld (stdout w)
                 (stderr w +:+ argparse.format_usage create_analyze_parser
                  +:+ argparse.prog create_analyze_parser +:+ ": error: "
                  +:+ argparse.str_of_error e +:+ nl)))
  ∨ r = (Raised (AttributeError "split"), w).

(** A command line to run the parser on. *)
Definition example_argv : list argparse.occurrence :=
  [argparse.Occ "-v" None;
   argparse.Occ "--exclude" (Some "lib");
   argparse.Occ "-o" (Some "out");
   argparse.Occ "--verbose" None;
   argparse.Occ "--exclude" (Some "/opt/x");
   argparse.Occ "--load-plugin" (Some "plugin.so");
   argparse.Occ "--store" (Some "region");
   argparse.Occ "-maxloop" (Some "4");
   argparse.Occ "--stats" None;
   argparse.Occ "--plist" None;
   argparse.Occ "--enable-checker" (Some "core.A,core.B");
   argparse.Occ "-o" (Some "reports")].

(** The namespace the parser returns for it. *)
Definition example_parsed : Namespace :=
  returned (argparse.parse_args create_analyze_parser example_argv).

(** A command line that asks for the active checkers, and one whose
    compilation database is not on the disk of the example environment. *)
Definition example_help_argv : list argparse.occurrence :=
  [argparse.Occ "--use-analyzer" (Some "/usr/bin/clang");
   argparse.Occ "-v" None;
   argparse.Occ "--help-checkers" None].
Definition example_missing_argv : list argparse.occurrence :=
  [argparse.Occ "--cdb" (Some "missing.json")].

(** A command line with the bare [--] for argument, which argparse drops. *)
Definition example_dashes_argv : list argparse.occurrence :=
  [argparse.Occ "--cdb" (Some "--");
   argparse.Occ "--exclude" (Some "a");
   argparse.Occ "--exclude" (Some "--");
   argparse.Occ "--store" (Some "--");
   argparse.Occ "--maxloop" (Some "--")].
Definition example_dashes_parsed : Namespace :=
  returned (argparse.parse_args create_analyze_parser example_dashes_argv).

(** A command line the entry point returns on, and a namespace whose
    excluded directories are not all strings. *)
Definition example_build_argv : list argparse.occurrence :=
  [argparse.Occ "-v" None;
   argparse.Occ "--exclude" (Some "/opt/x");
   argparse.Occ "--load-plugin" (Some "--");
   argparse.Occ "--exclude" (Some "/opt/x/../y")].
Definition example_nested : Namespace :=
  {[ "plugins" := VNone; "excludes" := VListOf [VStr "/opt/x"; VListOf []] ]}.

(** * Properties *)

(** ** The monad *)

Lemma bind_returned {A B} (c : Py A) (k : A → Py B) w a w' :
  c w = (Returned a, w') → (c ≫= k) w = k a w'.
Proof. intros Hc. unfold mbind, Py_bind. by rewrite Hc. Qed.

Lemma bind_raised {A B} (c : Py A) (k : A → Py B) w e w' :
  c w = (Raised e, w') → (c ≫= k) w = (Raised e, w').
Proof. intros Hc. unfold mbind, Py_bind. by rewrite Hc. Qed.

Lemma bind_returned_inv {A B} (c : Py A) (k : A → Py B) w b w' :
  (c ≫= k) w = (Returned b, w') →
  ∃ a w1, c w = (Returned a, w1) ∧ k a w1 = (Returned b, w').
Proof.
  unfold mbind, Py_bind. destruct (c w) as [[a|e] w1]; [|done]. by exists a, w1.
Qed.


(** ** Strings *)

Lemma str_app_cons c s t : String c s +:+ t = String c (s +:+ t).
Proof. done. Qed.

Lemma str_app_empty_l s : "" +:+ s = s.
Proof. done. Qed.

Lemma str_app_empty_r s : s +:+ "" = s.
Proof. induction s as [|c s IH]; [done|]. by rewrite str_app_cons, IH. Qed.

Lemma str_app_assoc s t u : (s +:+ t) +:+ u = s +:+ (t +:+ u).
Proof. induction s as [|c s IH]; [done|]. by rewrite !str_app_cons, IH. Qed.

Lemma str_app_length s t : String.length (s +:+ t) = String.length s + String.length t.
Proof. induction s as [|c s IH]; [done|]. rewrite str_app_cons. simpl. by rewrite IH. Qed.

Lemma str_mul_length c n : String.length (str.mul (String c "") n) = n.
Proof. induction n as [|n IH]; [done|]. simpl. by rewrite str_app_empty_l, IH. Qed.

Lemma unlines_app lines1 lines2 :
  unlines (lines1 ++ lines2) = unlines lines1 +:+ unlines lines2.
Proof.
  induction lines1 as [|line lines1 IH]; [done|].
  cbn [app unlines]. by rewrite IH, !str_app_assoc.
Qed.

(** ** Writing *)

Lemma print_run line w :
  print line w = (Returned tt, mkWorld (stdout w +:+ unlines [line]) (stderr w)).
Proof. unfold print, write_stdout. cbn [unlines]. by rewrite str_app_empty_r. Qed.

(** A loop whose every turn writes the lines [f x] writes them in order. *)
Lemma for_run {A} (f : A → list string) (body : A → Py unit) xs w :
  (∀ x w, x ∈ xs →
     body x w = (Returned tt, mkWorld (stdout w +:+ unlines (f x)) (stderr w))) →
  for_ xs body w
  = (Returned tt, mkWorld (stdout w +:+ unlines (concat (f <$> xs))) (stderr w)).
Proof.
  revert w. induction xs as [|x xs IH]; intros w Hbody.
  - cbn. rewrite str_app_empty_r. by destruct w.
  - cbn [for_]. erewrite bind_returned by (apply Hbody; left).
    rewrite IH by (intros; apply Hbody; by right).
    cbn [stdout stderr]. rewrite fmap_cons. cbn [concat].
    by rewrite unlines_app, str_app_assoc.
Qed.

(** ** Sorting *)

Lemma sorted_Sorted names : Sorted String.le (sorted names).
Proof. apply (Sorted_merge_sort String.le). Qed.

Lemma sorted_Permutation names : sorted names ≡ₚ names.
Proof. apply merge_sort_Permutation. Qed.

Lemma sorted_elem names name : name ∈ sorted names ↔ name ∈ names.
Proof. by rewrite sorted_Permutation. Qed.

Lemma sorted_NoDup names : NoDup names → NoDup (sorted names).
Proof. by rewrite sorted_Permutation. Qed.


(** ** The checker listings *)

Lemma omap_NoDup_fst {A} (f : string * A → option string) (l : list (string * A)) :
  (∀ x y, f x = Some y → y = x.1) → NoDup l.*1 → NoDup (omap f l).
Proof.
  intros Hf. induction l as [|x l IH]; simpl; [constructor|].
  intros [Hx Hl]%NoDup_cons. destruct (f x) as [y|] eqn:Hy; [|by apply IH].
  apply NoDup_cons. split; [|by apply IH].
  intros (x' & Hx' & Hy')%list_elem_of_omap.
  apply Hf in Hy, Hy'. subst. apply Hx, list_elem_of_fmap. by exists x'.
Qed.

(** The names the active-only listing draws from the mapping. *)
Lemma active_names_elem (checkers : Checkers) name :
  name ∈ omap (λ '(name, (_, active)), if active : bool then Some name else None)
             (items checkers)
  ↔ ∃ description, checkers !! name = Some (description, true).
Proof.
  rewrite list_elem_of_omap. unfold items. split.
  - intros ([n [d a]] & Hin & Hf). apply elem_of_map_to_list in Hin.
    destruct a; simplify_eq. by exists d.
  - intros [d Hd]. exists (name, (d, true)). split; [|done].
    by apply elem_of_map_to_list.
Qed.

Lemma active_names_NoDup (checkers : Checkers) :
  NoDup (omap (λ '(name, (_, active)), if active : bool then Some name else None)
              (items checkers)).
Proof.
  apply omap_NoDup_fst; [|apply NoDup_fst_map_to_list].
  intros [n [d a]] y. destruct a; naive_solver.
Qed.

Lemma print_active_checkers_run (checkers : Checkers) w :
  print_active_checkers checkers w =
  (Returned tt,
   mkWorld (stdout w +:+
            unlines (sorted (omap (λ '(name, (_, active)),
                                     if active : bool then Some name else None)
                                  (items checkers))))
           (stderr w)).
Proof.
  unfold print_active_checkers.
  rewrite (for_run (λ name, [name])) by (intros; apply print_run).
  do 4 f_equal. induction (sorted _) as [|x l IH]; csimpl; [done|]. by rewrite IH.
Qed.

(** C7. For every checker mapping the active-only printer writes exactly the
    names whose active flag is true, each followed by a newline, in
    lexicographic order, each once, with no description and nothing else; on
    the mapping of the two checkers [core.A] (active) and
    [core.VeryLongCheckerNameExceedingThirtyChars] (not active) it writes
    the single line [core.A]. *)
Theorem print_active_checkers_spec (checkers : Checkers) (w : World) :
  (∃ names,
     print_active_checkers checkers w
     = (Returned tt, mkWorld (stdout w +:+ unlines names) (stderr w))
     ∧ Sorted String.le names
     ∧ NoDup names
     ∧ ∀ name, name ∈ names
               ↔ ∃ description, checkers !! name = Some (description, true))
  ∧ print_active_checkers
      {[ "core.A" := ("desc", true);
         "core.VeryLongCheckerNameExceedingThirtyChars" := ("d2", false) ]} w
    = (Returned tt, mkWorld (stdout w +:+ "core.A" +:+ nl) (stderr w)).
Proof.
  split.
  - eexists. split; [apply print_active_checkers_run|].
    split; [apply sorted_Sorted|]. split.
    + apply sorted_NoDup, active_names_NoDup.
    + intros name. rewrite sorted_elem. apply active_names_elem.
  - rewrite print_active_checkers_run. do 3 f_equal.
Qed.

Lemma print_checkers_entry_run (checkers : Checkers) name description active w :
  checkers !! name = Some (description, active) →
  print_checkers_entry checkers name w =
  (Returned tt,
   mkWorld (stdout w +:+ unlines (entry_lines name description active)) (stderr w)).
Proof.
  intros Hname. unfold print_checkers_entry, getitem, entry_lines. rewrite Hname.
  unfold mbind, Py_bind, mret, Py_ret. cbv beta iota.
  case_decide as Hlen.
  - apply Nat.ltb_lt in Hlen. rewrite Hlen, !print_run. cbn [stdout stderr].
    by rewrite str_app_assoc, <- unlines_app.
  - apply Nat.ltb_nlt in Hlen. rewrite Hlen, print_run.
    unfold str.ljust. by rewrite (str_app_assoc name).
Qed.

(** The lines of the verbose listing between the header and the footer. *)
Lemma print_checkers_run (checkers : Checkers) w :
  print_checkers checkers w =
  (Returned tt,
   mkWorld (stdout w +:+
            unlines (header
                     ++ concat ((λ name,
                          match checkers !! name with
                          | Some (description, active) =>
                              entry_lines name description active
                          | None => []
                          end) <$> sorted (keys checkers))
                     ++ footer))
           (stderr w)).
Proof.
  unfold print_checkers.
  do 3 (erewrite bind_returned by apply print_run).
  erewrite bind_returned.
  2:{ apply (for_run (λ name, match checkers !! name with
                              | Some (description, active) =>
                                  entry_lines name description active
                              | None => []
                              end)).
      intros name w' [[n [d a]] [-> Hin]]%sorted_elem%list_elem_of_fmap.
      apply elem_of_map_to_list in Hin. simpl. rewrite Hin.
      by apply print_checkers_entry_run. }
  do 2 (erewrite bind_returned by apply print_run).
  rewrite print_run. cbn [stdout stderr]. do 2 f_equal.
  rewrite !str_app_assoc. f_equal. by rewrite <- !unlines_app.
Qed.

(** C8. For every checker mapping the verbose printer writes the header (an
    empty line, [available checkers:], an empty line), then one entry per
    checker in lexicographic order of the names, then the footer (an empty
    line, the legend line that explains the [+] marker, an empty line).  An
    entry starts with a space, the marker ([+] if active, a space
    otherwise), a space and the name; when the name is longer than 30
    characters the description follows on a line of its own after 35 spaces,
    otherwise it follows on the same line after the name padded to 30
    characters and two spaces.  On the mapping of [core.A] and
    [core.VeryLongCheckerNameExceedingThirtyChars] the entry of [core.A]
    comes first and the long name has its description on the next line. *)
Theorem print_checkers_spec (checkers : Checkers) (w : World) :
  (∃ names entries,
     print_checkers checkers w
     = (Returned tt,
        mkWorld (stdout w +:+
                 unlines ([""; "available checkers:"; ""] ++ concat entries
                          ++ [""; legend; ""]))
                (stderr w))
     ∧ Sorted String.le names
     ∧ NoDup names
     ∧ (∀ name, name ∈ names ↔ is_Some (checkers !! name))
     ∧ Forall2 (λ name lines, ∃ description (active : bool),
          checkers !! name = Some (description, active)
          ∧ let marker := if active then "+" else " " in
            if decide (30 < String.length name) then
              lines = [" " +:+ marker +:+ " " +:+ name;
                       "                                   " +:+ description]
            else
              lines = [" " +:+ marker +:+ " " +:+ name
                       +:+ str.mul " " (30 - String.length name)
                       +:+ "  " +:+ description]) names entries)
  ∧ print_checkers
      {[ "core.A" := ("desc", true);
         "core.VeryLongCheckerNameExceedingThirtyChars" := ("d2", false) ]} w
    = (Returned tt,
       mkWorld (stdout w +:+
                unlines [""; "available checkers:"; "";
                         " + core.A                          desc";
                         "   core.VeryLongCheckerNameExceedingThirtyChars";
                         "                                   d2";
                         ""; legend; ""])
               (stderr w)).
Proof.
  split.
  - exists (sorted (keys checkers)).
    exists ((λ name, match checkers !! name with
                     | Some (description, active) =>
                         entry_lines name description active
                     | None => []
                     end) <$> sorted (keys checkers)).
    assert (∀ name, name ∈ sorted (keys checkers) ↔ is_Some (checkers !! name))
      as Hkeys.
    { intros name. rewrite sorted_elem. unfold keys. rewrite list_elem_of_fmap. split.
      - intros [[n v] [-> Hin%elem_of_map_to_list]]. by exists v.
      - intros [v Hv]. exists (name, v). by rewrite elem_of_map_to_list. }
    split; [|split; [apply sorted_Sorted|split; [|split; [done|]]]].
    + apply print_checkers_run.
    + apply sorted_NoDup, NoDup_fst_map_to_list.
    + apply Forall2_fmap_r, Forall_Forall2_diag, Forall_forall.
      intros name [[d a] Hname]%Hkeys. exists d, a. rewrite Hname.
      split; [done|]. unfold entry_lines. by case_decide.
  - by rewrite print_checkers_run.
Qed.

(** C10. In the verbose printer the description of a checker starts at the
    same column in both layouts: 35 characters precede it, so it starts at
    column 36.  For a name of at most 30 characters (exactly 30 included)
    the entry is the single line of a space, the marker, a space, the name
    padded to 30 characters, two spaces and the description.  For a longer
    name the entry is the line with the name and then a line of 35 spaces
    and the description. *)
Theorem description_column (checkers : Checkers) (name description : string)
    (active : bool) (w : World) :
  checkers !! name = Some (description, active) →
  let marker := if active then "+" else " " in
  ∃ before indent,
    print_checkers_entry checkers name w
    = (Returned tt,
       mkWorld (stdout w +:+ unlines (before ++ [indent +:+ description]))
               (stderr w))
    ∧ String.length indent = 35
    ∧ (String.length name ≤ 30 →
         before = []
         ∧ indent = " " +:+ marker +:+ " " +:+ name
                    +:+ str.mul " " (30 - String.length name) +:+ "  ")
    ∧ (30 < String.length name →
         before = [" " +:+ marker +:+ " " +:+ name]
         ∧ indent = str.mul " " 35).
Proof.
  intros Hname marker. rewrite (print_checkers_entry_run _ _ _ _ _ Hname).
  unfold entry_lines. fold marker. case_decide as Hlen.
  - exists [" " +:+ marker +:+ " " +:+ name], (str.mul " " 35).
    split; [done|]. split; [done|]. split; [lia|done].
  - exists [], (" " +:+ marker +:+ " " +:+ name
                +:+ str.mul " " (30 - String.length name) +:+ "  ").
    split; [|split; [|split; [done|lia]]].
    + cbn [app]. by rewrite !str_app_assoc.
    + rewrite !str_app_length, str_mul_length. unfold marker.
      destruct active; simpl; lia.
Qed.

Lemma description_column_witness :
  example_checkers !! "core.A" = Some ("desc", true)
  ∧ ∃ before indent,
      print_checkers_entry example_checkers "core.A" w0
      = (Returned tt,
         mkWorld (stdout w0 +:+ unlines (before ++ [indent +:+ "desc"]))
                 (stderr w0))
      ∧ String.length indent = 35
      ∧ (String.length "core.A" ≤ 30 →
           before = []
           ∧ indent = " " +:+ "+" +:+ " " +:+ "core.A"
                      +:+ str.mul " " (30 - String.length "core.A") +:+ "  ")
      ∧ (30 < String.length "core.A" →
           before = [" " +:+ "+" +:+ " " +:+ "core.A"]
           ∧ indent = str.mul " " 35).
Proof.
  split; [reflexivity|].
  apply (description_column example_checkers "core.A" "desc" true w0).
  reflexivity.
Defined.

(** ** Paths *)

Lemma split_nonempty sep s : str.split sep s ≠ [].
Proof. destruct s as [|c s]; simpl; [done|]. by repeat case_match. Qed.

Lemma split_no_sep sep s : Forall (λ w, contains sep w = false) (str.split sep s).
Proof.
  induction s as [|c s IH]; simpl; [by repeat constructor|].
  destruct (Ascii.eqb c sep) eqn:Hc; [by constructor|].
  destruct (str.split sep s) as [|w ws].
  - repeat constructor. simpl. by rewrite Hc.
  - inversion_clear IH. constructor; [|done]. simpl. by rewrite Hc.
Qed.

(** Splitting a word without separator gives the word. *)
Lemma split_word sep w : contains sep w = false → str.split sep w = [w].
Proof.
  induction w as [|c w IH]; simpl; [done|].
  intros [Hc Hw]%orb_false_elim. by rewrite Hc, IH.
Qed.

Lemma split_app_sep sep w s :
  contains sep w = false →
  str.split sep (w +:+ String sep s) = w :: str.split sep s.
Proof.
  induction w as [|c w IH]; simpl.
  - intros _. rewrite ?str_app_empty_l. simpl. by rewrite Ascii.eqb_refl.
  - intros [Hc Hw]%orb_false_elim. rewrite ?str_app_cons. simpl.
    by rewrite Hc, IH.
Qed.

(** Splitting what [join] made of words without separator gives the words
    back. *)
Lemma split_join sep words :
  words ≠ [] → Forall (λ w, contains sep w = false) words →
  str.split sep (str.join (String sep "") words) = words.
Proof.
  induction words as [|w words IH]; [done|]. intros _ Hall.
  inversion_clear Hall as [|?? Hw Hwords]. unfold str.join in *.
  destruct words as [|w' words]; simpl.
  - by apply split_word.
  - rewrite str_app_cons, str_app_empty_l, split_app_sep by done.
    f_equal. by apply IH.
Qed.

Lemma isabs_inv path : posixpath.isabs path = true ↔ ∃ rest, path = String "/" rest.
Proof.
  unfold posixpath.isabs. split.
  - destruct path as [|c rest]; cbn [str.startswith]; [done|].
    destruct (Ascii.eqb_spec "/" c) as [<-|]; [by eexists|done].
  - intros [rest ->]. reflexivity.
Qed.

Lemma isabs_app path s :
  posixpath.isabs path = true → posixpath.isabs (path +:+ s) = true.
Proof. intros [rest ->]%isabs_inv. apply isabs_inv. by eexists. Qed.

Lemma join_isabs a b :
  posixpath.isabs a = true → posixpath.isabs (posixpath.join a b) = true.
Proof.
  intros Ha. unfold posixpath.join.
  destruct (str.startswith b "/") eqn:Hb; [done|].
  destruct (_ || _); by apply isabs_app.
Qed.

(** The loop of [normpath] on an absolute path keeps names only. *)
Lemma normpath_step_names slashes new_comps comp :
  slashes ≠ 0 → contains "/" comp = false →
  Forall is_name new_comps →
  Forall is_name (posixpath.normpath_step slashes new_comps comp).
Proof.
  intros Hs Hcomp Hnames. unfold posixpath.normpath_step.
  case_bool_decide as H1; [done|].
  case_bool_decide as H2.
  - destruct H2 as [H2|[[? _]|[_ Hlast]]]; [|done|].
    + apply Forall_app. split; [done|]. repeat constructor; naive_solver.
    + apply last_Some in Hlast as [l' ->].
      apply Forall_app in Hnames as [_ Hdd]. inversion_clear Hdd as [|?? Hdd' _].
      by destruct Hdd' as (_ & _ & ? & _).
  - case_bool_decide; [|done].
    destruct new_comps as [|c l _] using rev_ind; [done|].
    rewrite removelast_last. by apply Forall_app in Hnames as [? _].
Qed.

Lemma normpath_loop_names slashes new_comps comps :
  slashes ≠ 0 → Forall (λ w, contains "/" w = false) comps →
  Forall is_name new_comps →
  Forall is_name (foldl (posixpath.normpath_step slashes) new_comps comps).
Proof.
  intros Hs Hcomps. revert new_comps.
  induction Hcomps as [|comp comps Hcomp _ IH]; intros new_comps Hnames; simpl;
    [done|].
  by apply IH, normpath_step_names.
Qed.

(** The loop of [normpath] appends names as they are and skips empty
    components. *)
Lemma normpath_step_name slashes new_comps comp :
  is_name comp → posixpath.normpath_step slashes new_comps comp = new_comps ++ [comp].
Proof.
  intros (Hne & Hdot & Hdotdot & _). unfold posixpath.normpath_step.
  case_bool_decide as Hskip; [by destruct Hskip|].
  case_bool_decide as Hkeep; [done|]. destruct Hkeep. by left.
Qed.

Lemma normpath_loop_name slashes new_comps comps :
  Forall is_name comps →
  foldl (posixpath.normpath_step slashes) new_comps comps = new_comps ++ comps.
Proof.
  intros Hcomps. revert new_comps.
  induction Hcomps as [|comp comps Hcomp _ IH]; intros new_comps; simpl.
  - by rewrite app_nil_r.
  - rewrite normpath_step_name, IH by done. by rewrite <- app_assoc.
Qed.

Lemma name_no_lead comp s :
  is_name comp → str.startswith (comp +:+ s) "/" = false.
Proof.
  intros (Hne & _ & _ & Hc). destruct comp as [|a comp]; [done|].
  simpl in Hc. apply orb_false_elim in Hc as [Ha _].
  rewrite str_app_cons. cbn [str.startswith]. by rewrite Ascii.eqb_sym, Ha.
Qed.

Lemma join_names_no_lead comps :
  Forall is_name comps → str.startswith (str.join "/" comps) "/" = false.
Proof.
  unfold str.join. destruct 1 as [|comp comps Hcomp _]; [done|].
  destruct comps; simpl.
  - rewrite <- (str_app_empty_r comp). by apply name_no_lead.
  - by apply name_no_lead.
Qed.

Lemma initial_slashes_1 s :
  str.startswith s "/" = false → posixpath.initial_slashes (String "/" s) = 1.
Proof.
  intros Hs. unfold posixpath.initial_slashes. cbn [str.startswith].
  rewrite Ascii.eqb_refl. cbn [andb].
  change (str.startswith s "/" && true) with (str.startswith s "/" && true).
  destruct s as [|c s]; [done|]. cbn [str.startswith] in *.
  by rewrite Hs.
Qed.

Lemma initial_slashes_2 s :
  str.startswith s "/" = false →
  posixpath.initial_slashes (String "/" (String "/" s)) = 2.
Proof.
  intros Hs. unfold posixpath.initial_slashes. cbn [str.startswith].
  rewrite Ascii.eqb_refl. cbn [andb].
  destruct s as [|c s]; [done|]. cbn [str.startswith] in *.
  by rewrite Hs.
Qed.

Lemma initial_slashes_abs path :
  posixpath.isabs path = true →
  posixpath.initial_slashes path = 1 ∨ posixpath.initial_slashes path = 2.
Proof.
  unfold posixpath.isabs, posixpath.initial_slashes. intros ->.
  destruct (_ && _); auto.
Qed.

(** A path made of one or two slashes and names joined by slashes is
    normalised: [normpath] leaves it as it is. *)
Lemma normpath_names slashes comps :
  slashes = 1 ∨ slashes = 2 → Forall is_name comps →
  posixpath.normpath (str.mul "/" slashes +:+ str.join "/" comps)
  = str.mul "/" slashes +:+ str.join "/" comps.
Proof.
  intros Hs Hcomps.
  pose proof (join_names_no_lead _ Hcomps) as Hlead.
  assert (str.split "/" (str.join "/" comps) = comps
          ∨ comps = [] ∧ str.split "/" (str.join "/" comps) = [""]) as Hsplit.
  { destruct comps as [|c comps]; [by right|]. left.
    apply split_join; [done|]. eapply Forall_impl; [done|]. by intros ? (_&_&_&?). }
  assert (foldl (posixpath.normpath_step slashes) []
                (str.split "/" (str.join "/" comps)) = comps) as Hloop.
  { destruct Hsplit as [->|[-> ->]]; [|done].
    by rewrite normpath_loop_name. }
  unfold posixpath.normpath.
  destruct Hs as [-> | ->]; cbn [str.mul]; repeat (rewrite str_app_cons || rewrite str_app_empty_l).
  - rewrite bool_decide_eq_false_2 by done.
    rewrite initial_slashes_1 by done.
    cbn [str.split]. rewrite !Ascii.eqb_refl. cbn [foldl].
    change (posixpath.normpath_step 1 [] "") with (@nil string).
    rewrite Hloop. cbn [str.mul]. repeat (rewrite str_app_cons || rewrite str_app_empty_l).
    rewrite (bool_decide_eq_true_2 (1 ≠ 0)) by done.
    by rewrite bool_decide_eq_false_2 by done.
  - rewrite bool_decide_eq_false_2 by done.
    rewrite initial_slashes_2 by done.
    cbn [str.split]. rewrite !Ascii.eqb_refl. cbn [foldl].
    change (posixpath.normpath_step 2 [] "") with (@nil string).
    change (posixpath.normpath_step 2 [] "") with (@nil string).
    rewrite Hloop. cbn [str.mul]. repeat (rewrite str_app_cons || rewrite str_app_empty_l).
    rewrite (bool_decide_eq_true_2 (2 ≠ 0)) by done.
    by rewrite bool_decide_eq_false_2 by done.
Qed.

(** [normpath] of an absolute path is one or two slashes and names joined by
    slashes. *)
Lemma normpath_abs path :
  posixpath.isabs path = true →
  ∃ slashes comps,
    (slashes = 1 ∨ slashes = 2) ∧ Forall is_name comps
    ∧ posixpath.normpath path = str.mul "/" slashes +:+ str.join "/" comps.
Proof.
  intros Habs. pose proof (initial_slashes_abs _ Habs) as Hs.
  apply isabs_inv in Habs as [rest ->].
  exists (posixpath.initial_slashes (String "/" rest)).
  exists (foldl (posixpath.normpath_step (posixpath.initial_slashes (String "/" rest)))
                [] (str.split "/" (String "/" rest))).
  split; [done|]. split.
  - apply normpath_loop_names; [lia|apply split_no_sep|constructor].
  - unfold posixpath.normpath.
    rewrite bool_decide_eq_false_2 by done. cbv zeta.
    destruct Hs as [-> | ->].
    + rewrite (bool_decide_eq_true_2 (1 ≠ 0)) by done.
      by rewrite bool_decide_eq_false_2.
    + rewrite (bool_decide_eq_true_2 (2 ≠ 0)) by done.
      by rewrite bool_decide_eq_false_2.
Qed.

Lemma normpath_idempotent path :
  posixpath.isabs path = true →
  posixpath.normpath (posixpath.normpath path) = posixpath.normpath path.
Proof.
  intros (slashes & comps & Hs & Hcomps & ->)%normpath_abs.
  by apply normpath_names.
Qed.

Lemma normpath_isabs path :
  posixpath.isabs path = true → posixpath.isabs (posixpath.normpath path) = true.
Proof.
  intros (slashes & comps & Hs & _ & ->)%normpath_abs.
  apply isabs_inv. destruct Hs as [-> | ->]; cbn [str.mul]; by eexists.
Qed.

(** [abspath] gives an absolute path, and leaves the paths it gives as they
    are. *)
Lemma abspath_isabs cwd path :
  posixpath.isabs cwd = true → posixpath.isabs (posixpath.abspath cwd path) = true.
Proof.
  intros Hcwd. unfold posixpath.abspath. apply normpath_isabs.
  destruct (posixpath.isabs path) eqn:Hp; [done|]. by apply join_isabs.
Qed.

Lemma abspath_idempotent cwd path :
  posixpath.isabs cwd = true →
  posixpath.abspath cwd (posixpath.abspath cwd path) = posixpath.abspath cwd path.
Proof.
  intros Hcwd. pose proof (abspath_isabs cwd path Hcwd) as Habs.
  unfold posixpath.abspath at 1. rewrite Habs.
  unfold posixpath.abspath. apply normpath_idempotent.
  destruct (posixpath.isabs path) eqn:Hp; [done|]. by apply join_isabs.
Qed.

(** ** Normalisation *)

Lemma getattr_Some (namespace : Namespace) name v w :
  namespace !! name = Some v → getattr namespace name w = (Returned v, w).
Proof. unfold getattr. by intros ->. Qed.

Lemma getattr_None (namespace : Namespace) name w :
  namespace !! name = None →
  getattr namespace name w = (Raised (AttributeError name), w).
Proof. unfold getattr. by intros ->. Qed.

Section normalize.
Context `{Environment}.

(** The absolute forms of a list of strings are all drawn. *)
Lemma generate_abspath (excludes : list string) w :
  generate abspath_of (VStr <$> excludes) w
  = (Returned (os_path_abspath <$> excludes), w).
Proof.
  induction excludes as [|entry excludes IH]; [done|].
  rewrite !fmap_cons. cbn [generate].
  erewrite bind_returned by reflexivity. by rewrite (bind_returned _ _ _ _ _ IH).
Qed.

(** Drawing the absolute forms writes nothing. *)
Lemma generate_abspath_world (entries : list Value) w r w' :
  generate abspath_of entries w = (r, w') → w' = w.
Proof.
  revert r. induction entries as [|entry entries IH]; intros r; cbn [generate].
  - by intros [= _ <-].
  - unfold mbind, Py_bind. destruct entry; cbn [abspath_of raise mret Py_ret];
      try (by intros [= _ <-]).
    destruct (generate abspath_of entries w) as [[paths|e] w1] eqn:Hrest;
      intros [= _ <-]; by eapply IH.
Qed.

Lemma normalize_run (args : Namespace) plugins excludes w :
  args !! "plugins" = Some plugins →
  args !! "excludes" = Some (VList excludes) →
  normalize_args_for_analyze args w
  = (Returned
       (<["excludes" := VList (list_of_set (os_path_abspath <$> excludes))]>
          (if is_None plugins then <["plugins" := VList []]> args else args)),
     w).
Proof.
  intros Hplugins Hexcludes. unfold normalize_args_for_analyze.
  erewrite bind_returned by (by apply getattr_Some).
  erewrite bind_returned.
  2:{ apply getattr_Some. unfold setattr.
      destruct (is_None plugins); [|done]. by rewrite lookup_insert_ne. }
  unfold VList at 1. cbn [iter]. erewrite bind_returned by reflexivity.
  by rewrite (bind_returned _ _ _ _ _ (generate_abspath excludes w)).
Qed.

(** When the normaliser returns, it read both attributes and drew the
    absolute form of every entry. *)
Lemma normalize_returned (args args' : Namespace) w w' :
  normalize_args_for_analyze args w = (Returned args', w') →
  ∃ plugins excludes entries paths,
    args !! "plugins" = Some plugins
    ∧ args !! "excludes" = Some excludes
    ∧ iter excludes w = (Returned entries, w)
    ∧ generate abspath_of entries w = (Returned paths, w)
    ∧ w' = w
    ∧ args' = <["excludes" := VList (list_of_set paths)]>
                (if is_None plugins then <["plugins" := VList []]> args else args).
Proof.
  unfold normalize_args_for_analyze.
  destruct (args !! "plugins") as [plugins|] eqn:Hplugins.
  2:{ by erewrite bind_raised by (by apply getattr_None). }
  erewrite bind_returned by (by apply getattr_Some).
  assert ((if is_None plugins then setattr args "plugins" (VList []) else args)
            !! "excludes" = args !! "excludes") as Hsame.
  { unfold setattr. destruct (is_None plugins); [|done]. by rewrite lookup_insert_ne. }
  destruct (args !! "excludes") as [excludes|] eqn:Hexcludes.
  2:{ by erewrite bind_raised by (by apply getattr_None). }
  erewrite bind_returned by (by apply getattr_Some).
  assert (∀ entries,
            iter excludes w = (Returned entries, w) →
            (generate abspath_of entries ≫= λ uniq_excludes,
               mret (setattr (if is_None plugins
                              then setattr args "plugins" (VList []) else args)
                       "excludes" (VList (list_of_set uniq_excludes)))) w
            = (Returned args', w') →
            ∃ plugins0 excludes0 entries0 paths,
              Some plugins = Some plugins0 ∧ Some excludes = Some excludes0
              ∧ iter excludes0 w = (Returned entries0, w)
              ∧ generate abspath_of entries0 w = (Returned paths, w)
              ∧ w' = w
              ∧ args' = <["excludes" := VList (list_of_set paths)]>
                          (if is_None plugins0 then <["plugins" := VList []]> args
                           else args)) as Hrest.
  { intros entries Hiter (paths & w1 & Hpaths & [= <- <-])%bind_returned_inv.
    pose proof (generate_abspath_world _ _ _ _ Hpaths) as ->.
    by exists plugins, excludes, entries, paths. }
  destruct excludes as [| | | s|items];
    try (by erewrite bind_raised by reflexivity).
  - erewrite bind_returned by reflexivity. by apply Hrest.
  - erewrite bind_returned by reflexivity. by apply Hrest.
Qed.

Lemma abspath_fixed (paths : list string) :
  os_path_abspath <$> (os_path_abspath <$> paths) = os_path_abspath <$> paths.
Proof.
  rewrite <- list_fmap_compose. apply list_fmap_ext. intros _ path _. simpl.
  apply abspath_idempotent, getcwd_isabs.
Qed.

Lemma abspath_fixed_set (paths : list string) :
  os_path_abspath <$> list_of_set (os_path_abspath <$> paths)
  = list_of_set (os_path_abspath <$> paths).
Proof.
  assert (Forall (λ p, os_path_abspath p = p)
                 (list_of_set (os_path_abspath <$> paths))) as Hfixed.
  { apply Forall_forall. intros p Hp.
    apply (proj1 (list_of_set_elem _ _)) in Hp.
    apply list_elem_of_fmap in Hp as [entry [-> _]].
    apply abspath_idempotent, getcwd_isabs. }
  induction Hfixed as [|p l Hp _ IH]; csimpl; [done|]. by rewrite Hp, IH.
Qed.

(** The elements of the normalised list of excludes. *)
Lemma excludes_elem (excludes : list string) p :
  p ∈ list_of_set (os_path_abspath <$> excludes)
  ↔ ∃ entry, entry ∈ excludes ∧ p = os_path_abspath entry.
Proof.
  rewrite list_of_set_elem, list_elem_of_fmap.
  split; intros [entry [? ?]]; by exists entry.
Qed.

Lemma excludes_length (excludes : list string) :
  length (list_of_set (os_path_abspath <$> excludes))
  = size (list_to_set (os_path_abspath <$> excludes) : gset string).
Proof.
  unfold size, set_size. simpl. apply Permutation_length, NoDup_Permutation.
  - apply list_of_set_NoDup.
  - apply NoDup_elements.
  - intros p. by rewrite list_of_set_elem, elem_of_elements, elem_of_list_to_set.
Qed.

(** C3. When the plugins attribute is [None] (the flag was not given) the
    normaliser sets it to the empty list; a list that was given is left as
    it is; and whenever the normaliser returns, the attribute is present and
    is not [None]. *)
Theorem normalize_plugins (args : Namespace) (excludes : list string) (w : World) :
  args !! "excludes" = Some (VList excludes) →
  (args !! "plugins" = Some VNone →
     ∃ args', normalize_args_for_analyze args w = (Returned args', w)
              ∧ args' !! "plugins" = Some (VList []))
  ∧ (∀ l, args !! "plugins" = Some (VList l) →
     ∃ args', normalize_args_for_analyze args w = (Returned args', w)
              ∧ args' !! "plugins" = Some (VList l))
  ∧ (∀ any any' u u',
       normalize_args_for_analyze any u = (Returned any', u') →
       ∃ v, any' !! "plugins" = Some v ∧ v ≠ VNone).
Proof.
  intros Hexcludes. split; [|split].
  - intros Hplugins. eexists. split; [by eapply normalize_run|].
    simpl. rewrite lookup_insert_ne by done. by rewrite lookup_insert_eq.
  - intros l Hplugins. eexists. split; [by eapply normalize_run|].
    simpl. by rewrite lookup_insert_ne by done.
  - intros any any' u u' Hrun.
    apply normalize_returned in Hrun
      as (plugins & ex & entries & paths & Hplugins & _ & _ & _ & _ & ->).
    rewrite lookup_insert_ne by done. destruct plugins; simpl.
    + rewrite lookup_insert_eq. by eexists.
    + by eexists.
    + by eexists.
    + by eexists.
    + by eexists.
Qed.

(** C9. On a parsed namespace the normaliser returns, writes nothing, and
    changes no attribute other than [plugins] and [excludes]: every other
    name is bound to the same value, or to none, before and after. *)
Theorem normalize_frame (args : Namespace) (w : World) :
  parsed args →
  ∃ args',
    normalize_args_for_analyze args w = (Returned args', w)
    ∧ ∀ name, name ≠ "plugins" → name ≠ "excludes" → args' !! name = args !! name.
Proof.
  intros [Hplugins [excludes Hexcludes]].
  assert (∃ plugins, args !! "plugins" = Some plugins) as [plugins Hp].
  { destruct Hplugins as [?|[l ?]]; by eexists. }
  eexists. split; [by eapply normalize_run|].
  intros name Hn1 Hn2. rewrite lookup_insert_ne by done.
  destruct (is_None plugins); [|done]. by rewrite lookup_insert_ne.
Qed.

(** C2. On a parsed namespace whose excludes are the given entries, the
    normaliser replaces them with a list of absolute paths without
    duplicates that holds exactly the absolute forms of the entries; its
    length is the number of distinct absolute forms.  This holds whatever
    order the runtime iterates the set in. *)
Theorem normalize_excludes (args : Namespace) (excludes : list string) (w : World) :
  parsed args →
  args !! "excludes" = Some (VList excludes) →
  ∃ args' result,
    normalize_args_for_analyze args w = (Returned args', w)
    ∧ args' !! "excludes" = Some (VList result)
    ∧ Forall (λ p, posixpath.isabs p = true) result
    ∧ NoDup result
    ∧ (∀ p, p ∈ result ↔ ∃ entry, entry ∈ excludes ∧ p = os_path_abspath entry)
    ∧ length result
      = size (list_to_set (os_path_abspath <$> excludes) : gset string).
Proof.
  intros [Hplugins _] Hexcludes.
  assert (∃ plugins, args !! "plugins" = Some plugins) as [plugins Hp].
  { destruct Hplugins as [?|[l ?]]; by eexists. }
  eexists _, (list_of_set (os_path_abspath <$> excludes)).
  split; [by eapply normalize_run|].
  split; [by rewrite lookup_insert_eq|].
  split; [|split; [apply list_of_set_NoDup|split;
                   [apply excludes_elem|apply excludes_length]]].
  apply Forall_forall. intros p [entry [_ ->]]%excludes_elem.
  apply abspath_isabs, getcwd_isabs.
Qed.

(** C6. On a parsed namespace the normaliser returns, and run again on its
    result it returns a namespace that differs from that result at most in
    the order of the excludes: plugins and every other attribute are the
    same, and the excludes are the same paths, each once.  The excludes of
    the first result are a fixed point of the absolute-path resolution and
    hold no duplicate. *)
Theorem normalize_idempotent (args : Namespace) (w : World) :
  parsed args →
  ∃ once twice excludes1 excludes2,
    normalize_args_for_analyze args w = (Returned once, w)
    ∧ normalize_args_for_analyze once w = (Returned twice, w)
    ∧ (∀ name, name ≠ "excludes" → twice !! name = once !! name)
    ∧ once !! "excludes" = Some (VList excludes1)
    ∧ twice !! "excludes" = Some (VList excludes2)
    ∧ excludes2 ≡ₚ excludes1
    ∧ os_path_abspath <$> excludes1 = excludes1
    ∧ NoDup excludes1.
Proof.
  intros [Hplugins [excludes Hexcludes]].
  set (once := <["excludes" := VList (list_of_set (os_path_abspath <$> excludes))]>
                 (if is_None (default VNone (args !! "plugins"))
                  then <["plugins" := VList []]> args else args)).
  assert (normalize_args_for_analyze args w = (Returned once, w)) as Hrun1.
  { destruct Hplugins as [Hp|[l Hp]]; unfold once; rewrite Hp;
      by eapply normalize_run. }
  assert (∃ l, once !! "plugins" = Some (VList l)) as [l Hl].
  { unfold once. rewrite lookup_insert_ne by done.
    destruct Hplugins as [Hp|[l Hp]]; rewrite Hp; simpl.
    - exists []. by rewrite lookup_insert_eq.
    - by exists l. }
  assert (once !! "excludes"
          = Some (VList (list_of_set (os_path_abspath <$> excludes)))) as Hex1.
  { unfold once. by rewrite lookup_insert_eq. }
  exists once. eexists. eexists. eexists.
  split; [done|]. split; [by eapply normalize_run|].
  split; [|split; [done|split; [by rewrite lookup_insert_eq|split; [|split]]]].
  - intros name Hname. by rewrite lookup_insert_ne.
  - rewrite abspath_fixed_set. apply NoDup_Permutation.
    + apply list_of_set_NoDup.
    + apply list_of_set_NoDup.
    + intros p. apply list_of_set_elem.
  - apply abspath_fixed_set.
  - apply list_of_set_NoDup.
Qed.

End normalize.

Lemma example_args_parsed : parsed example_args.
Proof.
  split; [left; by vm_compute|]. exists ["src/../lib"; "lib"; "/opt/x"]. by vm_compute.
Defined.

Lemma normalize_plugins_witness :
  example_args !! "excludes" = Some (VList ["src/../lib"; "lib"; "/opt/x"])
  ∧ example_args !! "plugins" = Some VNone
  ∧ ∃ args', normalize_args_for_analyze example_args w0 = (Returned args', w0)
             ∧ args' !! "plugins" = Some (VList []).
Proof.
  split; [by vm_compute|]. split; [by vm_compute|].
  apply (proj1 (normalize_plugins example_args ["src/../lib"; "lib"; "/opt/x"] w0
                  ltac:(by vm_compute))).
  by vm_compute.
Defined.

Lemma normalize_frame_witness :
  parsed example_args
  ∧ ∃ args',
      normalize_args_for_analyze example_args w0 = (Returned args', w0)
      ∧ ∀ name, name ≠ "plugins" → name ≠ "excludes" →
                args' !! name = example_args !! name.
Proof.
  split; [apply example_args_parsed|].
  apply (normalize_frame example_args w0), example_args_parsed.
Defined.

Lemma normalize_excludes_witness :
  parsed example_args
  ∧ example_args !! "excludes" = Some (VList ["src/../lib"; "lib"; "/opt/x"])
  ∧ ∃ args' result,
      normalize_args_for_analyze example_args w0 = (Returned args', w0)
      ∧ args' !! "excludes" = Some (VList result)
      ∧ Forall (λ p, posixpath.isabs p = true) result
      ∧ NoDup result
      ∧ (∀ p, p ∈ result ↔
              ∃ entry, entry ∈ ["src/../lib"; "lib"; "/opt/x"]
                       ∧ p = os_path_abspath entry)
      ∧ length result
        = size (list_to_set (os_path_abspath <$> ["src/../lib"; "lib"; "/opt/x"])
                : gset string).
Proof.
  split; [apply example_args_parsed|]. split; [by vm_compute|].
  apply (normalize_excludes example_args ["src/../lib"; "lib"; "/opt/x"] w0);
    [apply example_args_parsed|by vm_compute].
Defined.

Lemma normalize_idempotent_witness :
  parsed example_args
  ∧ ∃ once twice excludes1 excludes2,
      normalize_args_for_analyze example_args w0 = (Returned once, w0)
      ∧ normalize_args_for_analyze once w0 = (Returned twice, w0)
      ∧ (∀ name, name ≠ "excludes" → twice !! name = once !! name)
      ∧ once !! "excludes" = Some (VList excludes1)
      ∧ twice !! "excludes" = Some (VList excludes2)
      ∧ excludes2 ≡ₚ excludes1
      ∧ os_path_abspath <$> excludes1 = excludes1
      ∧ NoDup excludes1.
Proof.
  split; [apply example_args_parsed|].
  apply (normalize_idempotent example_args w0), example_args_parsed.
Defined.

(** The example run: the two relative entries resolve to the same directory. *)
Example normalize_example :
  (args ← normalize_args_for_analyze example_args; mret (args !! "excludes")) w0
  = (Returned (Some (VList ["/home/user/project/lib"; "/opt/x"])), w0).
Proof. by vm_compute. Qed.

(** ** Validation *)

Section validate.
Import argparse.
Context `{Environment} `{HelpFormatter}.

Lemma exit_run {A} status w :
  exit (A:=A) status None w = (Raised (SystemExit status), w).
Proof. done. Qed.

Lemma error_run {A} parser message w :
  error (A:=A) parser message w
  = (Raised (SystemExit 2),
     mkWorld (stdout w)
             (stderr w +:+ format_usage parser
              +:+ prog parser +:+ ": error: " +:+ message +:+ nl)).
Proof.
  unfold error, exit, write_stderr, mbind, Py_bind, raise. cbn [stdout stderr].
  by rewrite str_app_assoc.
Qed.

(** C1. The validator checks in this order, and the first condition that
    holds decides the outcome.  If the verbose checker-help flag is set, it
    asks for the checkers and, when it gets them, prints the verbose listing
    and exits with status 0.  Else if the checker-help flag is set, it asks
    for the checkers and, when it gets them, prints the active-only listing
    and exits with status 0.  (A failure to get the checkers is passed on.)
    Else if the compilation database does not exist, it writes the usage and
    the message [compilation database is missing] on standard error and
    exits with status 2.  Else it returns.  In particular, with no help flag
    set and a compilation database that does not exist, it exits with a
    non-zero status whatever the checker provider would do, and standard
    output is left as it was. *)
Theorem validate_order (parser : ArgumentParser) (args : Namespace)
    (verbose help_ clang plugins : Value) (cdb : string) (w : World) :
  args !! "help_checkers_verbose" = Some verbose →
  args !! "help_checkers" = Some help_ →
  args !! "clang" = Some clang →
  args !! "plugins" = Some plugins →
  args !! "cdb" = Some (VStr cdb) →
  validate_args_for_analyze parser args w
  = (if truthy verbose then
       match get_checkers clang plugins w with
       | (Returned checkers, w1) =>
           (Raised (SystemExit 0), (print_checkers checkers w1).2)
       | (Raised e, w1) => (Raised e, w1)
       end
     else if truthy help_ then
       match get_checkers clang plugins w with
       | (Returned checkers, w1) =>
           (Raised (SystemExit 0), (print_active_checkers checkers w1).2)
       | (Raised e, w1) => (Raised e, w1)
       end
     else if exists_on_disk cdb then (Returned tt, w)
     else
       (Raised (SystemExit 2),
        mkWorld (stdout w)
                (stderr w +:+ format_usage parser +:+ prog parser
                 +:+ ": error: compilation database is missing" +:+ nl)))
  ∧ (truthy verbose = false → truthy help_ = false → exists_on_disk cdb = false →
     ∃ status w',
       validate_args_for_analyze parser args w = (Raised (SystemExit status), w')
       ∧ status ≠ 0%Z
       ∧ stdout w' = stdout w).
Proof.
  intros Hverbose Hhelp Hclang Hplugins Hcdb.
  match goal with
  | |- ?run = ?outcome ∧ _ => assert (run = outcome) as Hrun; [|split; [exact Hrun|]]
  end.
  - unfold validate_args_for_analyze.
    erewrite bind_returned by (by apply getattr_Some).
    destruct (truthy verbose).
    { do 2 (erewrite bind_returned by (by apply getattr_Some)).
      destruct (get_checkers clang plugins w) as [[checkers|e] w1] eqn:Hget.
      - erewrite bind_returned by done.
        erewrite bind_returned by apply print_checkers_run.
        rewrite exit_run. by rewrite print_checkers_run.
      - by erewrite bind_raised by done. }
    erewrite bind_returned by (by apply getattr_Some).
    destruct (truthy help_).
    { do 2 (erewrite bind_returned by (by apply getattr_Some)).
      destruct (get_checkers clang plugins w) as [[checkers|e] w1] eqn:Hget.
      - erewrite bind_returned by done.
        erewrite bind_returned by apply print_active_checkers_run.
        rewrite exit_run. by rewrite print_active_checkers_run.
      - by erewrite bind_raised by done. }
    erewrite bind_returned by (by apply getattr_Some).
    erewrite bind_returned by reflexivity.
    destruct (exists_on_disk cdb); [done|]. apply error_run.
  - intros Hv Hh He. rewrite Hrun, Hv, Hh, He. by eexists _, _.
Qed.

End validate.

Lemma validate_order_witness :
  missing_cdb_args !! "help_checkers_verbose" = Some (VBool false)
  ∧ missing_cdb_args !! "help_checkers" = Some (VBool false)
  ∧ missing_cdb_args !! "clang" = Some (VStr "clang")
  ∧ missing_cdb_args !! "plugins" = Some VNone
  ∧ missing_cdb_args !! "cdb" = Some (VStr "missing.json")
  ∧ ∃ status w',
      validate_args_for_analyze create_analyze_parser missing_cdb_args w0
      = (Raised (SystemExit status), w')
      ∧ status ≠ 0%Z
      ∧ stdout w' = stdout w0.
Proof.
  repeat (split; [by vm_compute|]).
  apply (proj2 (validate_order create_analyze_parser missing_cdb_args
                  (VBool false) (VBool false) (VStr "clang") VNone "missing.json" w0
                  ltac:(by vm_compute) ltac:(by vm_compute) ltac:(by vm_compute)
                  ltac:(by vm_compute) ltac:(by vm_compute)));
    by vm_compute.
Defined.

(** The four outcomes on the example environment, where the only file on
    disk is [compile_commands.json]. *)
Example validate_examples :
  let run args := validate_args_for_analyze create_analyze_parser args w0 in
  run (<["help_checkers_verbose" := VBool true]> (<["help_checkers" := VBool true]>
         missing_cdb_args))
  = (Raised (SystemExit 0), (print_checkers example_checkers w0).2)
  ∧ run (<["help_checkers" := VBool true]> missing_cdb_args)
    = (Raised (SystemExit 0), mkWorld ("core.A" +:+ nl) "")
  ∧ run missing_cdb_args
    = (Raised (SystemExit 2),
       mkWorld "" ("usage: analyze-build" +:+ nl +:+
                   "analyze-build: error: compilation database is missing" +:+ nl))
  ∧ run example_args = (Returned tt, w0).
Proof. by vm_compute. Qed.

(** ** The parse *)

Section parse.
Import argparse.
Context `{Environment} `{HelpFormatter}.

Lemma usage_error_run {A} parser e w :
  ∃ w', usage_error (A:=A) parser e w = (Raised (SystemExit 2), w').
Proof. unfold usage_error. rewrite error_run. by eexists. Qed.

Lemma remove_dashes_argument (argument : option string) :
  remove_dashes (option_list argument)
  = match argument with
    | Some s => if String.eqb s "--" then [] else [s]
    | None => []
    end.
Proof. by destruct argument. Qed.

(** What the action is handed for the argument of its option: nothing, or
    the bare [--], gives the empty list; any other argument of an option
    that takes one is converted and checked. *)
Lemma get_values_inr a argument values :
  get_values a (option_list argument) = inr values →
  match argument with
  | None => values = VListOf []
  | Some s =>
      if String.eqb s "--" then values = VListOf []
      else match a_nargs a with
           | None => ∃ v, get_value a s = inr v ∧ check_value a s v = inr values
           | Some _ => ∃ v v', get_value a s = inr v ∧ check_value a s v = inr v'
                               ∧ values = VListOf [v']
           end
  end.
Proof.
  unfold get_values. rewrite remove_dashes_argument. destruct argument as [s|].
  - destruct (String.eqb s "--").
    + cbn. by intros [= <-].
    + destruct (a_nargs a) as [n|].
      * cbn. destruct (get_value a s) as [e|v] eqn:Hv; [done|].
        destruct (check_value a s v) as [e|v'] eqn:Hv'; [done|].
        intros [= <-]. by exists v, v'.
      * destruct (get_value a s) as [e|v] eqn:Hv; [done|]. intros Hcheck. by exists v.
  - cbn. by intros [= <-].
Qed.

(** What [take_action] did when it returned: the argument was accepted, no
    conflicting action had been seen, and the action was called. *)
Lemma take_action_returned parser a argument st w st' w' :
  take_action parser a argument st w = (Returned st', w') →
  ∃ values,
    match argument with
    | None => values = VListOf []
    | Some s =>
        if String.eqb s "--" then values = VListOf []
        else match a_nargs a with
             | None => ∃ v, get_value a s = inr v ∧ check_value a s v = inr values
             | Some _ => ∃ v v', get_value a s = inr v ∧ check_value a s v = inr v'
                                 ∧ values = VListOf [v']
             end
    end
    ∧ filter (λ c, c ∈ a :: seen_non_default_actions st) (action_conflicts parser a) = []
    ∧ call parser a (namespace st) values w = (Returned (namespace st'), w')
    ∧ seen_non_default_actions st' = a :: seen_non_default_actions st
    ∧ extras st' = extras st.
Proof.
  unfold take_action.
  assert (∀ e, usage_error parser e w ≠ (Returned st', w')) as Herr.
  { intros e. destruct (usage_error_run (A:=ParseState) parser e w) as [w1 ->]. done. }
  destruct (get_values a (option_list argument)) as [e|values] eqn:Hvalues;
    [by intros ?%Herr|].
  destruct (filter _ _) eqn:Hf; [|by intros ?%Herr].
  intros (ns & w1 & Hcall & [= <- <-])%bind_returned_inv.
  exists values. split; [by apply get_values_inr|]. eauto 10.
Qed.

(** What [consume_optional] did when it returned. *)
Lemma consume_optional_returned parser st option_string argument w st' w' :
  consume_optional parser st (Occ option_string argument) w = (Returned st', w') →
  (find_action parser option_string = None
   ∧ namespace st' = namespace st
   ∧ seen_non_default_actions st' = seen_non_default_actions st
   ∧ extras st' ≠ [])
  ∨ (∃ a, find_action parser option_string = Some a
          ∧ take_action parser a argument st w = (Returned st', w')
          ∧ (a_nargs a = Some 0 ↔ argument = None)).
Proof.
  unfold consume_optional.
  assert (∀ e, usage_error parser e w ≠ (Returned st', w')) as Herr.
  { intros e. destruct (usage_error_run (A:=ParseState) parser e w) as [w1 ->]. done. }
  destruct (find_action parser option_string) as [a|].
  - intros Hrun. right. exists a. split; [done|].
    destruct (a_nargs a) as [[|n]|], argument as [s|];
      try (by apply Herr in Hrun); (split; [done|]); split; done.
  - intros [= <- <-]. left. simpl. repeat split; try done.
    by destruct (extras st).
Qed.

(** A property of the state that every option keeps holds at the end. *)
Lemma consume_optionals_invariant parser (I : ParseState → Prop) args :
  (∀ st option_string argument w st' w',
     I st → Occ option_string argument ∈ args →
     consume_optional parser st (Occ option_string argument) w = (Returned st', w') →
     I st') →
  ∀ st w st' w',
    I st → consume_optionals parser st args w = (Returned st', w') → I st'.
Proof.
  induction args as [|[option_string argument] args IH]; intros Hstep st w st' w' Hst;
    simpl.
  - by intros [= <- <-].
  - intros (st1 & w1 & Hone & Hrest)%bind_returned_inv.
    eapply IH; [|eapply Hstep; [done|left|done]|done].
    intros. eapply Hstep; [done|by right|done].
Qed.

(** The options that were read are among the actions seen. *)
Lemma consume_optionals_seen parser args st w st' w' :
  consume_optionals parser st args w = (Returned st', w') →
  seen_non_default_actions st ⊆ seen_non_default_actions st'
  ∧ ∀ option_string argument a,
      Occ option_string argument ∈ args →
      find_action parser option_string = Some a →
      a ∈ seen_non_default_actions st'.
Proof.
  revert st w. induction args as [|[option_string argument] args IH]; intros st w;
    simpl.
  - intros [= <- <-]. split; [done|]. by intros ??? ?%elem_of_nil.
  - intros (st1 & w1 & Hone & Hrest)%bind_returned_inv.
    apply IH in Hrest as [Hsub Hall].
    apply consume_optional_returned in Hone
      as [(Hnone & _ & Hseen & _)|(a & Hsome & Htake & _)].
    + split; [by rewrite <- Hseen|].
      intros o arg b [[= -> ->]|Hin]%elem_of_cons Hb; [congruence|by eapply Hall].
    + apply take_action_returned in Htake as (_ & _ & _ & _ & Hseen & _).
      split; [intros x Hx; apply Hsub; rewrite Hseen; by right|].
      intros o arg b [[= -> ->]|Hin]%elem_of_cons Hb; [|by eapply Hall].
      apply Hsub. rewrite Hseen. simplify_eq. by left.
Qed.

(** An action changes no attribute but its destination. *)
Lemma AppendCommaSeparated_call_frame self_dest ns values w ns' w' name :
  AppendCommaSeparated_call self_dest ns values w = (Returned ns', w') →
  name ≠ self_dest → ns' !! name = ns !! name.
Proof.
  unfold AppendCommaSeparated_call.
  intros (actual & w1 & Hget & Hrest)%bind_returned_inv Hname.
  apply bind_returned_inv in Hrest as (actual' & w2 & _ & [= <- <-]).
  unfold setattr. rewrite lookup_insert_ne by done.
  destruct (is_None _); [|done]. by rewrite lookup_insert_ne.
Qed.

Lemma call_frame parser a ns values w ns' w' name :
  call parser a ns values w = (Returned ns', w') →
  name ≠ a_dest a → ns' !! name = ns !! name.
Proof.
  unfold call, setattr. intros Hcall Hname.
  destruct (a_class a).
  - injection Hcall as <- <-. by rewrite lookup_insert_ne.
  - injection Hcall as <- <-. by rewrite lookup_insert_ne.
  - injection Hcall as <- <-. by rewrite lookup_insert_ne.
  - injection Hcall as <- <-. by rewrite lookup_insert_ne.
  - destruct (getattr3 ns (a_dest a) VNone), values; try done;
      injection Hcall as <- <-; by rewrite lookup_insert_ne.
  - destruct (getattr3 ns (a_dest a) VNone); try done;
      injection Hcall as <- <-; by rewrite lookup_insert_ne.
  - done.
  - destruct values; try done. by eapply AppendCommaSeparated_call_frame.
Qed.

Lemma find_action_elem parser option_string a :
  find_action parser option_string = Some a →
  a ∈ actions parser ∧ option_string ∈ option_strings a.
Proof.
  unfold find_action. intros Hhead%head_Some_elem_of.
  by apply list_elem_of_filter in Hhead as [? ?].
Qed.

(** *** The output format *)

Lemma format_group_dest :
  Forall (λ a, a_dest a = "output_format" → a ∈ format_group)
         (actions create_analyze_parser).
Proof. apply (bool_decide_unpack _). by vm_compute. Qed.

Lemma format_group_actions :
  Forall (λ a, a_dest a = "output_format"
               ∧ a_class a = store_const
               ∧ a_const a ∈ [VStr "plist"; VStr "plist-html"; VStr "plist-multi-file"]
               ∧ action_conflicts create_analyze_parser a
                 = filter (λ b, b ≠ a) format_group)
         format_group.
Proof. apply (bool_decide_unpack _). by vm_compute. Qed.

Lemma format_flags_actions :
  Forall (λ '(flag, f),
            ∃ a, find_action create_analyze_parser flag = Some a
                 ∧ a ∈ format_group ∧ a_const a = VStr f)
         format_flags.
Proof.
  repeat constructor; (eexists; split; [by vm_compute|]);
    (split; [apply (bool_decide_unpack _); by vm_compute|by vm_compute]).
Qed.

Lemma format_invariant_initial :
  format_invariant (mkState (initial_namespace create_analyze_parser) [] []).
Proof.
  exists "html". split; [by vm_compute|]. left. split; [done|].
  by intros a Ha%elem_of_nil.
Qed.

Lemma format_invariant_step st option_string argument w st' w' :
  format_invariant st →
  consume_optional create_analyze_parser st (Occ option_string argument) w
  = (Returned st', w') →
  format_invariant st'.
Proof.
  intros (f & Hf & Hseen)
    [(_ & Hns & Hs & _)|(a & Ha & Htake & _)]%consume_optional_returned.
  { exists f. by rewrite Hns, Hs. }
  apply find_action_elem in Ha as [Ha _].
  apply take_action_returned in Htake as (values & _ & Hconflicts & Hcall & Hs & _).
  destruct (decide (a ∈ format_group)) as [Hgroup|Hgroup].
  - pose proof (proj1 (Forall_forall _ _) format_group_actions a Hgroup)
      as (Hdest & Hclass & Hconst & Hfilter).
    assert (∃ f', a_const a = VStr f') as [f' Hf'].
    { set_unfold in Hconst. destruct Hconst as [->|[->|[->|[]]]]; by eexists. }
    exists f'. split.
    + unfold call in Hcall. rewrite Hclass in Hcall.
      injection Hcall as Hns _. rewrite <- Hns, Hdest, Hf'.
      apply lookup_insert_eq.
    + right. exists a. rewrite Hs. split; [done|]. split; [by left|].
      split; [done|]. intros b [->|Hb]%elem_of_cons Hbg; [done|].
      destruct (decide (b = a)) as [|Hne]; [done|]. exfalso.
      assert (b ∈ filter (λ c, c ∈ a :: seen_non_default_actions st)
                         (action_conflicts create_analyze_parser a)) as Hin.
      { rewrite Hfilter. apply list_elem_of_filter. split; [by right|].
        by apply list_elem_of_filter. }
      rewrite Hconflicts in Hin. by apply elem_of_nil in Hin.
  - assert (a_dest a ≠ "output_format") as Hdest.
    { intros Hd. apply Hgroup.
      by apply (proj1 (Forall_forall _ _) format_group_dest a Ha). }
    exists f. split.
    + by rewrite (call_frame _ _ _ _ _ _ _ _ Hcall).
    + rewrite Hs. destruct Hseen as [[-> Hnone]|(b & Hb & Hbs & Hconst & Huniq)].
      * left. split; [done|]. intros c [->|Hc]%elem_of_cons; [done|by apply Hnone].
      * right. exists b. split; [done|]. split; [by right|]. split; [done|].
        intros c [->|Hc]%elem_of_cons Hcg; [done|by apply Huniq].
Qed.

(** What [parse_args] did when it returned. *)
Lemma parse_args_returned parser args w ns w' :
  parse_args parser args w = (Returned ns, w') →
  ∃ st, consume_optionals parser (mkState (initial_namespace parser) [] []) args w
        = (Returned st, w')
        ∧ namespace st = ns.
Proof.
  unfold parse_args. intros (st & w1 & Hloop & Hend)%bind_returned_inv.
  case_bool_decide.
  - destruct (usage_error_run (A:=Namespace) parser
                (unrecognized_arguments (extras st)) w1) as [w2 Herr].
    by rewrite Herr in Hend.
  - injection Hend as <- <-. by exists st.
Qed.

Lemma parse_args_format args w ns w' :
  parse_args create_analyze_parser args w = (Returned ns, w') →
  ∃ st, format_invariant st ∧ namespace st = ns
        ∧ ∀ option_string argument a,
            Occ option_string argument ∈ args →
            find_action create_analyze_parser option_string = Some a →
            a ∈ seen_non_default_actions st.
Proof.
  intros (st & Hloop & Hns)%parse_args_returned. exists st.
  split; [|split; [done|by eapply consume_optionals_seen]].
  eapply (consume_optionals_invariant _ format_invariant);
    [|apply format_invariant_initial|done].
  intros. by eapply format_invariant_step.
Qed.

(** C5. The output format is one of [html], [plist], [plist-html] and
    [plist-multi-file] at all times: it is [html] before the options are
    read, every parse that returns leaves one of the four in the namespace,
    and the normaliser does not touch it.  The three output-format flags, in
    their two spellings, are the members of the one mutually exclusive group
    of the parser.  When a parse returns and a format flag was on the command
    line, the output format is the format of that flag (for [--plist] it is
    [plist]); no parse returns when two flags of different formats are on
    the command line, and the parse of [--plist --plist-html] exits with
    status 2. *)
Theorem output_format_exclusive :
  initial_namespace create_analyze_parser !! "output_format" = Some (VStr "html")
  ∧ (λ group : list Action, option_strings <$> group)
      <$> mutually_exclusive_groups create_analyze_parser
    = [[["--plist"; "-plist"]; ["--plist-html"; "-plist-html"];
        ["--plist-multi-file"; "-plist-multi-file"]]]
  ∧ (∀ args w ns w',
       parse_args create_analyze_parser args w = (Returned ns, w') →
       ∃ f, ns !! "output_format" = Some (VStr f)
            ∧ f ∈ ["html"; "plist"; "plist-html"; "plist-multi-file"])
  ∧ (∀ ns w ns' w',
       normalize_args_for_analyze ns w = (Returned ns', w') →
       ns' !! "output_format" = ns !! "output_format")
  ∧ (∀ args w ns w' flag f argument,
       parse_args create_analyze_parser args w = (Returned ns, w') →
       (flag, f) ∈ format_flags →
       Occ flag argument ∈ args →
       ns !! "output_format" = Some (VStr f))
  ∧ (∀ args w ns w' argument,
       parse_args create_analyze_parser args w = (Returned ns, w') →
       Occ "--plist" argument ∈ args →
       ns !! "output_format" = Some (VStr "plist"))
  ∧ (∀ args w flag f argument flag' f' argument',
       (flag, f) ∈ format_flags → (flag', f') ∈ format_flags → f ≠ f' →
       Occ flag argument ∈ args → Occ flag' argument' ∈ args →
       ∀ ns w', parse_args create_analyze_parser args w ≠ (Returned ns, w'))
  ∧ (∀ w,
       (ns ← parse_args create_analyze_parser [Occ "--plist" None];
        mret (ns !! "output_format")) w
       = (Returned (Some (VStr "plist")), w))
  ∧ (∀ w, ∃ a b,
       find_action create_analyze_parser "--plist-html" = Some a
       ∧ find_action create_analyze_parser "--plist" = Some b
       ∧ parse_args create_analyze_parser
           [Occ "--plist" None; Occ "--plist-html" None] w
         = (Raised (SystemExit 2),
            mkWorld (stdout w)
              (stderr w +:+ format_usage create_analyze_parser
               +:+ prog create_analyze_parser +:+ ": error: "
               +:+ str_of_error (not_allowed_with a b) +:+ nl))).
Proof.
  assert (∀ args w ns w' flag f argument,
            parse_args create_analyze_parser args w = (Returned ns, w') →
            (flag, f) ∈ format_flags →
            Occ flag argument ∈ args →
            ns !! "output_format" = Some (VStr f)) as Hflag.
  { intros args w ns w' flag f argument Hrun Hflag Hin.
    apply parse_args_format in Hrun as (st & (f0 & Hf0 & Hseen) & <- & Hall).
    pose proof (proj1 (Forall_forall _ _) format_flags_actions _ Hflag)
      as (a & Hfind & Hgroup & Hconst).
    pose proof (Hall _ _ _ Hin Hfind) as Ha.
    destruct Hseen as [[_ Hnone]|(b & _ & _ & Hb & Huniq)].
    - by destruct (Hnone a Ha).
    - rewrite (Huniq a Ha Hgroup) in Hconst. congruence. }
  split; [by vm_compute|]. split; [by vm_compute|].
  split; [|split; [|split; [done|split; [|split; [|split]]]]].
  - intros args w ns w' Hrun.
    apply parse_args_format in Hrun as (st & (f & Hf & Hseen) & <- & _).
    exists f. split; [done|].
    destruct Hseen as [[-> _]|(a & Ha & _ & Hconst & _)]; [by left|].
    pose proof (proj1 (Forall_forall _ _) format_group_actions a Ha)
      as (_ & _ & Hin & _).
    rewrite Hconst in Hin. rewrite !elem_of_cons in Hin. rewrite !elem_of_cons.
    destruct Hin as [[= ->]|[[= ->]|[[= ->]|Hnil]]]; [auto..|].
    by apply elem_of_nil in Hnil.
  - intros ns w ns' w' Hrun.
    apply normalize_returned in Hrun
      as (plugins & ex & entries & paths & _ & _ & _ & _ & _ & ->).
    rewrite lookup_insert_ne by done.
    destruct (is_None plugins); [|done]. by rewrite lookup_insert_ne.
  - intros args w ns w' argument Hrun Hin.
    eapply Hflag; [done| |done]. by left.
  - intros args w flag f argument flag' f' argument' Hf Hf' Hne Hin Hin' ns w' Hrun.
    pose proof (Hflag _ _ _ _ _ _ _ Hrun Hf Hin).
    pose proof (Hflag _ _ _ _ _ _ _ Hrun Hf' Hin'). congruence.
  - intros w. by vm_compute.
  - intros w. eexists _, _. split; [by vm_compute|]. split; [by vm_compute|].
    unfold parse_args. erewrite bind_raised; [reflexivity|].
    cbn [consume_optionals].
    erewrite bind_returned; [|by vm_compute].
    erewrite bind_raised; [reflexivity|].
    rewrite <- error_run. by vm_compute.
Qed.

(** *** The attributes the normaliser reads *)

Lemma check_value_inr a s v values : check_value a s v = inr values → values = v.
Proof.
  unfold check_value. destruct (a_choices a); [|by intros [= <-]].
  destruct v; try done. case_bool_decide; [|done]. by intros [= <-].
Qed.

Lemma get_value_str a s v : a_type a = None → get_value a s = inr v → v = VStr s.
Proof. unfold get_value. intros ->. by intros [= <-]. Qed.

(** An argument other than the bare [--], given to an option that takes
    one and does not convert it, is handed to the action as it is. *)
Lemma handed_string a s values :
  a_nargs a = None → a_type a = None → s ≠ "--" →
  (if String.eqb s "--" then values = VListOf []
   else match a_nargs a with
        | None => ∃ v, get_value a s = inr v ∧ check_value a s v = inr values
        | Some _ => ∃ v v', get_value a s = inr v ∧ check_value a s v = inr v'
                            ∧ values = VListOf [v']
        end) →
  values = VStr s.
Proof.
  intros Hnargs Htype Hs. rewrite (proj2 (String.eqb_neq _ _) Hs), Hnargs.
  intros (v & Hv & ->%check_value_inr). by apply get_value_str in Hv.
Qed.

Lemma VList_app (l k : list string) : VListOf ((VStr <$> l) ++ (VStr <$> k)) = VList (l ++ k).
Proof. unfold VList. by rewrite fmap_app. Qed.

Lemma VList_inj (l k : list string) : VList l = VList k → l = k.
Proof.
  unfold VList. intros [= Heq]. revert k Heq.
  induction l as [|x l IH]; intros [|y k]; try done. rewrite !fmap_cons.
  intros [= -> Heq]. f_equal. by apply IH.
Qed.

Lemma normalised_attributes :
  Forall (λ a, a_dest a = "plugins" ∨ a_dest a = "excludes" →
               a_class a = append ∧ a_nargs a = None ∧ a_type a = None
               ∧ a_choices a = None)
         (actions create_analyze_parser).
Proof. apply (bool_decide_unpack _). by vm_compute. Qed.

Lemma append_call parser a (ns : Namespace) s w ns' w' :
  a_class a = append →
  (ns !! a_dest a = Some VNone ∨ ∃ l, ns !! a_dest a = Some (VList l)) →
  call parser a ns (VStr s) w = (Returned ns', w') →
  ∃ l, ns' !! a_dest a = Some (VList l).
Proof.
  unfold call, setattr, getattr3. intros -> [Hnone|[l Hl]] Hcall.
  - rewrite Hnone in Hcall. injection Hcall as <- <-.
    exists [s]. by rewrite lookup_insert_eq.
  - rewrite Hl in Hcall. unfold VList in Hcall. injection Hcall as <- <-.
    exists (l ++ [s]). by rewrite lookup_insert_eq, <- VList_app.
Qed.

Lemma parsed_step st option_string argument w st' w' :
  parsed (namespace st) →
  argument ≠ Some "--" →
  consume_optional create_analyze_parser st (Occ option_string argument) w
  = (Returned st', w') →
  parsed (namespace st').
Proof.
  intros Hparsed Hplain
    [(_ & Hns & _)|(a & Ha & Htake & Hnargs)]%consume_optional_returned.
  { by rewrite Hns. }
  apply find_action_elem in Ha as [Ha _].
  apply take_action_returned in Htake as (values & Hvalues & _ & Hcall & _).
  pose proof (proj1 (Forall_forall _ _) normalised_attributes a Ha) as Happend.
  destruct Hparsed as [Hplugins [excludes Hexcludes]].
  assert (a_dest a = "plugins" ∨ a_dest a = "excludes" →
          ∃ l, namespace st' !! a_dest a = Some (VList l)) as Hlist.
  { intros Hdest. destruct (Happend Hdest) as (Hclass & Hn & Htype & Hchoices).
    destruct argument as [s|].
    - apply (handed_string a s values Hn Htype) in Hvalues as ->; [|congruence].
      eapply append_call; [done| |done].
      destruct Hdest as [-> | ->]; [done|]. right. by exists excludes.
    - rewrite Hn in Hnargs. by pose proof (proj2 Hnargs eq_refl). }
  split.
  - destruct (decide (a_dest a = "plugins")) as [Hd|Hd].
    + right. rewrite <- Hd. apply Hlist. by left.
    + by rewrite (call_frame _ _ _ _ _ _ _ "plugins" Hcall).
  - destruct (decide (a_dest a = "excludes")) as [Hd|Hd].
    + rewrite <- Hd. apply Hlist. by right.
    + rewrite (call_frame _ _ _ _ _ _ _ "excludes" Hcall) by done. by exists excludes.
Qed.

(** The namespace the parser returns for a command line without the bare
    [--] is one the normaliser accepts. *)
Lemma parse_args_parsed args w ns w' :
  plain args →
  parse_args create_analyze_parser args w = (Returned ns, w') → parsed ns.
Proof.
  intros Hplain (st & Hloop & <-)%parse_args_returned.
  eapply (consume_optionals_invariant _ (λ st, parsed (namespace st))); [| |done].
  - intros st0 o argument w0 st1 w1 Hparsed Hin Hone.
    eapply parsed_step; [done| |done].
    exact (proj1 (Forall_forall _ _) Hplain _ Hin).
  - split; [left; by vm_compute|]. exists []. by vm_compute.
Qed.

(** *** The attributes the validator reads *)

Lemma validated_attributes :
  Forall (λ a, (a_dest a = "help_checkers_verbose" ∨ a_dest a = "help_checkers" →
                a_class a = store_true ∧ a_const a = VBool true)
               ∧ (a_dest a = "clang" ∨ a_dest a = "cdb" →
                  a_class a = store ∧ a_nargs a = None ∧ a_type a = None
                  ∧ a_choices a = None))
         (actions create_analyze_parser).
Proof. apply (bool_decide_unpack _). by vm_compute. Qed.

(** An attribute keeps its shape when the action that fills it does. *)
Lemma call_shape (name : string) (P : Value → Prop) parser a ns values w ns' w' :
  call parser a ns values w = (Returned ns', w') →
  (∃ v, ns !! name = Some v ∧ P v) →
  (a_dest a = name → ∃ v, ns' !! name = Some v ∧ P v) →
  ∃ v, ns' !! name = Some v ∧ P v.
Proof.
  intros Hcall Hbefore Hfill. destruct (decide (a_dest a = name)) as [Hd|Hd]; [auto|].
  by rewrite (call_frame _ _ _ _ _ _ _ name Hcall).
Qed.

Lemma validated_step st option_string argument w st' w' :
  validated (namespace st) →
  argument ≠ Some "--" →
  consume_optional create_analyze_parser st (Occ option_string argument) w
  = (Returned st', w') →
  validated (namespace st').
Proof.
  intros Hvalid Hplain
    [(_ & Hns & _)|(a & Ha & Htake & Hnargs)]%consume_optional_returned.
  { by rewrite Hns. }
  apply find_action_elem in Ha as [Ha _].
  apply take_action_returned in Htake as (values & Hvalues & _ & Hcall & _).
  destruct (proj1 (Forall_forall _ _) validated_attributes a Ha) as [Hflag Hstore].
  assert (∀ name, name = "help_checkers_verbose" ∨ name = "help_checkers" →
                  a_dest a = name → ∃ v, namespace st' !! name = Some v
                                         ∧ ∃ b, v = VBool b) as Hbool.
  { intros name Hname Hd. rewrite <- Hd in Hname.
    destruct (Hflag Hname) as [Hclass Hconst].
    unfold call in Hcall. rewrite Hclass, Hconst in Hcall. injection Hcall as <- _.
    exists (VBool true). rewrite <- Hd. unfold setattr. rewrite lookup_insert_eq.
    split; [done|by eexists]. }
  assert (∀ name, name = "clang" ∨ name = "cdb" →
                  a_dest a = name → ∃ v, namespace st' !! name = Some v
                                         ∧ ∃ s, v = VStr s) as Hstr.
  { intros name Hname Hd. rewrite <- Hd in Hname.
    destruct (Hstore Hname) as (Hclass & Hn & Htype & Hchoices).
    destruct argument as [s|];
      [|rewrite Hn in Hnargs; by pose proof (proj2 Hnargs eq_refl)].
    apply (handed_string a s values Hn Htype) in Hvalues as ->; [|congruence].
    unfold call in Hcall. rewrite Hclass in Hcall. injection Hcall as <- _.
    exists (VStr s). rewrite <- Hd. unfold setattr. rewrite lookup_insert_eq.
    split; [done|by eexists]. }
  destruct Hvalid as ((b1 & H1) & (b2 & H2) & (s1 & H3) & (s2 & H4)).
  repeat split.
  - destruct (call_shape "help_checkers_verbose" (λ v, ∃ b, v = VBool b)
                _ _ _ _ _ _ _ Hcall) as (v & Hv & b & ->); eauto.
  - destruct (call_shape "help_checkers" (λ v, ∃ b, v = VBool b)
                _ _ _ _ _ _ _ Hcall) as (v & Hv & b & ->); eauto.
  - destruct (call_shape "clang" (λ v, ∃ s, v = VStr s)
                _ _ _ _ _ _ _ Hcall) as (v & Hv & b & ->); eauto.
  - destruct (call_shape "cdb" (λ v, ∃ s, v = VStr s)
                _ _ _ _ _ _ _ Hcall) as (v & Hv & b & ->); eauto.
Qed.

(** The namespace the parser returns for a command line without the bare
    [--] is one the validator reads without error. *)
Lemma parse_args_validated args w ns w' :
  plain args →
  parse_args create_analyze_parser args w = (Returned ns, w') → validated ns.
Proof.
  intros Hplain (st & Hloop & <-)%parse_args_returned.
  eapply (consume_optionals_invariant _ (λ st, validated (namespace st))); [| |done].
  - intros st0 o argument w0 st1 w1 Hvalid Hin Hone.
    eapply validated_step; [done| |done].
    exact (proj1 (Forall_forall _ _) Hplain _ Hin).
  - repeat split; eexists; by vm_compute.
Qed.

(** After the normaliser, the namespace of the parser is still one the
    validator reads without error, and its plugins are a list. *)
Lemma normalize_validated (args : Namespace) w :
  parsed args → validated args →
  ∃ args' l,
    normalize_args_for_analyze args w = (Returned args', w)
    ∧ validated args' ∧ args' !! "plugins" = Some (VList l).
Proof.
  intros [Hplugins [excludes Hexcludes]] ((b1 & H1) & (b2 & H2) & (s1 & H3) & (s2 & H4)).
  assert (∃ plugins l, args !! "plugins" = Some plugins
                       ∧ (if is_None plugins then <["plugins" := VList []]> args
                          else args) !! "plugins" = Some (VList l))
    as (plugins & l & Hp & Hl).
  { destruct Hplugins as [Hp|[l Hp]].
    - exists VNone, []. split; [done|]. apply lookup_insert_eq.
    - by exists (VList l), l. }
  eexists _, l. split; [by eapply normalize_run|].
  assert (∀ name v, name ≠ "plugins" → name ≠ "excludes" → args !! name = Some v →
            <["excludes" := VList (list_of_set (os_path_abspath <$> excludes))]>
              (if is_None plugins then <["plugins" := VList []]> args else args)
            !! name = Some v) as Hframe.
  { intros name v Hn1 Hn2 Hv. rewrite lookup_insert_ne by done.
    destruct (is_None plugins); [|done]. by rewrite lookup_insert_ne. }
  split.
  - repeat split; eexists; by apply Hframe.
  - by rewrite lookup_insert_ne.
Qed.

(** *** The accumulating action *)

Lemma AppendCommaSeparated_first self_dest (ns : Namespace) values w :
  getattr3 ns self_dest VNone = VNone →
  AppendCommaSeparated_call self_dest ns values w
  = (Returned (<[self_dest := VList (str.split "," values)]> ns), w).
Proof.
  intros Hnone. unfold AppendCommaSeparated_call. rewrite Hnone. cbn [is_None].
  erewrite bind_returned by (apply getattr_Some, lookup_insert_eq).
  erewrite bind_returned by reflexivity.
  unfold mret, Py_ret, setattr. by rewrite insert_insert_eq.
Qed.

Lemma AppendCommaSeparated_next self_dest (ns : Namespace) prior values w :
  ns !! self_dest = Some (VList prior) →
  AppendCommaSeparated_call self_dest ns values w
  = (Returned (<[self_dest := VList (prior ++ str.split "," values)]> ns), w).
Proof.
  intros Hprior. unfold AppendCommaSeparated_call, getattr3. rewrite Hprior.
  unfold VList at 1. cbn [is_None].
  erewrite bind_returned by (by apply getattr_Some).
  unfold VList at 1. cbn [extend]. erewrite bind_returned by reflexivity.
  by rewrite VList_app.
Qed.

Lemma AppendCommaSeparated_accumulate self_dest (ns : Namespace) v values w :
  ns !! self_dest = Some v → (v = VNone ∨ ∃ l, v = VList l) →
  AppendCommaSeparated_call self_dest ns values w
  = (Returned (<[self_dest := accumulate v values]> ns), w).
Proof.
  intros Hv [->|[l ->]].
  - apply AppendCommaSeparated_first. unfold getattr3. by rewrite Hv.
  - rewrite (AppendCommaSeparated_next _ _ l) by done.
    unfold accumulate, VList at 2. by rewrite VList_app.
Qed.

Lemma checker_options_facts flags dest_ :
  (flags, dest_) ∈ checker_options →
  Forall (λ a, a_dest a = dest_ →
               a_class a = AppendCommaSeparated ∧ a_type a = None
               ∧ a_choices a = None ∧ a_nargs a = None
               ∧ option_strings a = flags
               ∧ action_conflicts create_analyze_parser a = [])
         (actions create_analyze_parser)
  ∧ Forall (λ o, ∃ a, find_action create_analyze_parser o = Some a ∧ a_dest a = dest_)
           flags
  ∧ initial_namespace create_analyze_parser !! dest_ = Some VNone.
Proof.
  unfold checker_options. rewrite !elem_of_cons.
  intros [[= -> ->]|[[= -> ->]|Hnil]]; [| |by apply elem_of_nil in Hnil].
  - split; [apply (bool_decide_unpack _); by vm_compute|].
    split; [|by vm_compute].
    apply Forall_cons_2; [|apply Forall_cons_2; [|apply Forall_nil_2]];
      (eexists; split; [by vm_compute|by vm_compute]).
  - split; [apply (bool_decide_unpack _); by vm_compute|].
    split; [|by vm_compute].
    apply Forall_cons_2; [|apply Forall_cons_2; [|apply Forall_nil_2]];
      (eexists; split; [by vm_compute|by vm_compute]).
Qed.

(** One option of the command line, seen from a checker attribute: an
    occurrence of its flag accumulates the argument, any other option leaves
    the attribute as it is. *)
Lemma checker_step flags dest_ st option_string argument w st' w' v :
  (flags, dest_) ∈ checker_options →
  namespace st !! dest_ = Some v → (v = VNone ∨ ∃ l, v = VList l) →
  consume_optional create_analyze_parser st (Occ option_string argument) w
  = (Returned st', w') →
  if bool_decide (option_string ∈ flags) then
    ∃ s, argument = Some s ∧ namespace st' !! dest_ = Some (accumulate v s)
  else namespace st' !! dest_ = Some v.
Proof.
  intros (Hactions & Hflags & _)%checker_options_facts Hv Hshape Hrun.
  apply consume_optional_returned in Hrun
    as [(Hnone & Hns & _)|(a & Ha & Htake & Hnargs)].
  { rewrite bool_decide_eq_false_2; [by rewrite Hns|].
    intros Hin. apply (proj1 (Forall_forall _ _) Hflags) in Hin as (a & Ha & _).
    congruence. }
  pose proof Ha as [Hin Hopt]%find_action_elem.
  apply take_action_returned in Htake as (values & Hvalues & _ & Hcall & _).
  pose proof (proj1 (Forall_forall _ _) Hactions a Hin) as Hfact.
  destruct (decide (a_dest a = dest_)) as [Hd|Hd].
  - destruct (Hfact Hd) as (Hclass & Htype & Hchoices & Hn & Hstrings & _).
    rewrite bool_decide_eq_true_2 by (by rewrite <- Hstrings).
    destruct argument as [s|];
      [|rewrite Hn in Hnargs; by pose proof (proj2 Hnargs eq_refl)].
    exists s. split; [done|].
    unfold call in Hcall. rewrite Hclass, Hd in Hcall.
    destruct (decide (s = "--")) as [->|Hs]; [by rewrite Hvalues in Hcall|].
    apply (handed_string a s values Hn Htype Hs) in Hvalues as ->.
    rewrite (AppendCommaSeparated_accumulate _ _ v) in Hcall by done.
    injection Hcall as <- _. apply lookup_insert_eq.
  - rewrite bool_decide_eq_false_2.
    + by rewrite (call_frame _ _ _ _ _ _ _ dest_ Hcall).
    + intros Hflag. apply (proj1 (Forall_forall _ _) Hflags) in Hflag as (b & Hb & Hbd).
      congruence.
Qed.

Lemma accumulate_shape v s :
  (v = VNone ∨ ∃ l, v = VList l) →
  accumulate v s = VNone ∨ ∃ l, accumulate v s = VList l.
Proof.
  intros [->|[l ->]]; right.
  - by exists (str.split "," s).
  - exists (l ++ str.split "," s). unfold accumulate, VList at 1. apply VList_app.
Qed.

Lemma checker_loop flags dest_ args st w st' w' v :
  (flags, dest_) ∈ checker_options →
  namespace st !! dest_ = Some v → (v = VNone ∨ ∃ l, v = VList l) →
  consume_optionals create_analyze_parser st args w = (Returned st', w') →
  namespace st' !! dest_ = Some (foldl accumulate v (arguments_of flags args)).
Proof.
  intros Hopt. revert st w v.
  induction args as [|[option_string argument] args IH]; intros st w v Hv Hshape;
    simpl.
  - by intros [= <- <-].
  - intros (st1 & w1 & Hone & Hrest)%bind_returned_inv.
    pose proof (checker_step _ _ _ _ _ _ _ _ _ Hopt Hv Hshape Hone) as Hstep.
    case_bool_decide.
    + destruct Hstep as (s & -> & Hs). simpl.
      eapply IH; [done|by apply accumulate_shape|done].
    + destruct argument; by eapply IH.
Qed.

Lemma foldl_accumulate l values :
  foldl accumulate (VList l) values = VList (l ++ (values ≫= str.split ",")).
Proof.
  revert l. induction values as [|s values IH]; intros l; csimpl.
  - by rewrite app_nil_r.
  - unfold accumulate at 2, VList at 1. by rewrite VList_app, IH, <- app_assoc.
Qed.

Lemma foldl_accumulated values : foldl accumulate VNone values = accumulated values.
Proof.
  destruct values as [|s values]; [done|]. simpl. unfold accumulate at 2.
  by rewrite (foldl_accumulate (str.split "," s)).
Qed.




Lemma parse_args_checker flags dest_ args w ns w' :
  (flags, dest_) ∈ checker_options →
  parse_args create_analyze_parser args w = (Returned ns, w') →
  ns !! dest_ = Some (accumulated (arguments_of flags args)).
Proof.
  intros Hopt (st & Hloop & <-)%parse_args_returned.
  rewrite <- foldl_accumulated.
  eapply checker_loop; [done| |by left|done].
  by apply checker_options_facts in Hopt as (_ & _ & ?).
Qed.


End parse.


(** ** More on the parse: what each option leaves in the namespace *)

Section options.
Import argparse.
Context `{Environment} `{HelpFormatter}.

Lemma option_strings_distinct :
  NoDup (concat (option_strings <$> actions create_analyze_parser)).
Proof. apply (bool_decide_unpack _). by vm_compute. Qed.

Lemma elem_of_concat {A} (x : A) (ls : list (list A)) :
  x ∈ concat ls ↔ ∃ l, x ∈ l ∧ l ∈ ls.
Proof.
  induction ls as [|l0 ls IH]; simpl.
  - split; [by intros ?%elem_of_nil|]. by intros (l & _ & ?%elem_of_nil).
  - rewrite elem_of_app, IH. split.
    + intros [?|(l & ? & ?)]; [exists l0; split; [done|by left]|].
      exists l. split; [done|by right].
    + intros (l & Hx & [->|Hl]%elem_of_cons); [by left|]. right. by exists l.
Qed.

Lemma concat_NoDup_unique {A B} (f : A → list B) (l : list A) a b x :
  NoDup (concat (f <$> l)) → a ∈ l → b ∈ l → x ∈ f a → x ∈ f b → a = b.
Proof.
  induction l as [|c l IH]; csimpl; [by intros _ ?%elem_of_nil|].
  intros (Hc & Hdisj & Hl)%NoDup_app [->|Ha]%elem_of_cons [->|Hb]%elem_of_cons Hxa Hxb.
  - done.
  - destruct (Hdisj x Hxa). apply elem_of_concat. exists (f b).
    split; [done|]. by apply list_elem_of_fmap_2.
  - destruct (Hdisj x Hxb). apply elem_of_concat. exists (f a).
    split; [done|]. by apply list_elem_of_fmap_2.
  - by apply IH.
Qed.

(** An option string names the one action that lists it. *)
Lemma find_action_iff option_string a :
  find_action create_analyze_parser option_string = Some a
  ↔ a ∈ actions create_analyze_parser ∧ option_string ∈ option_strings a.
Proof.
  split; [apply find_action_elem|]. intros [Ha Ho]. unfold find_action.
  destruct (filter _ _) as [|b l] eqn:Hfilter.
  - assert (a ∈ filter (λ a, option_string ∈ option_strings a)
                       (actions create_analyze_parser)) as Hin
      by by apply list_elem_of_filter.
    rewrite Hfilter in Hin. by apply elem_of_nil in Hin.
  - assert (b ∈ filter (λ a, option_string ∈ option_strings a)
                       (actions create_analyze_parser)) as Hin
      by (rewrite Hfilter; by left).
    apply list_elem_of_filter in Hin as [Hbo Hb]. simpl. f_equal.
    by eapply (concat_NoDup_unique option_strings _ b a option_string
                 option_strings_distinct).
Qed.

Lemma take_action_values parser a argument st w st' w' :
  take_action parser a argument st w = (Returned st', w') →
  ∃ values, get_values a (option_list argument) = inr values
            ∧ call parser a (namespace st) values w = (Returned (namespace st'), w').
Proof.
  unfold take_action.
  assert (∀ e, usage_error parser e w ≠ (Returned st', w')) as Herr.
  { intros e. destruct (usage_error_run (A:=ParseState) parser e w) as [w1 ->]. done. }
  destruct (get_values a (option_list argument)) as [e|values] eqn:Hvalues;
    [by intros ?%Herr|].
  destruct (filter _ _) eqn:Hf; [|by intros ?%Herr].
  intros (ns & w1 & Hcall & [= <- <-])%bind_returned_inv. by exists values.
Qed.

(** One option of the command line, seen from the attribute [dest_] whose
    flags are [flags]. *)
Lemma dest_step flags dest_ (P : Value → Prop) (step : option string → Value → Value) :
  Forall (λ a, Forall (λ o, a_dest a = dest_ ↔ o ∈ flags) (option_strings a))
         (actions create_analyze_parser) →
  Forall (λ o, is_Some (find_action create_analyze_parser o)) flags →
  (∀ a argument values (ns ns' : Namespace) w w' v,
     a ∈ actions create_analyze_parser → a_dest a = dest_ →
     (a_nargs a = Some 0 ↔ argument = None) →
     get_values a (option_list argument) = inr values →
     ns !! dest_ = Some v → P v →
     call create_analyze_parser a ns values w = (Returned ns', w') →
     ns' !! dest_ = Some (step argument v) ∧ P (step argument v)) →
  ∀ st option_string argument w st' w' v,
    namespace st !! dest_ = Some v → P v →
    consume_optional create_analyze_parser st (Occ option_string argument) w
    = (Returned st', w') →
    namespace st' !! dest_
    = Some (if bool_decide (option_string ∈ flags) then step argument v else v)
    ∧ P (if bool_decide (option_string ∈ flags) then step argument v else v).
Proof.
  intros Hflags Hknown Hcall st o argument w st' w' v Hv HP Hrun.
  apply consume_optional_returned in Hrun
    as [(Hnone & Hns & _)|(a & Ha & Htake & Hnargs)].
  { rewrite bool_decide_eq_false_2; [by rewrite Hns|].
    intros Hin. apply (proj1 (Forall_forall _ _) Hknown) in Hin as [b Hb].
    congruence. }
  apply find_action_elem in Ha as [Ha Ho].
  apply take_action_values in Htake as (values & Hvalues & Hrun).
  pose proof (proj1 (Forall_forall _ _)
                (proj1 (Forall_forall _ _) Hflags a Ha) o Ho) as Hiff.
  case_bool_decide as Hin.
  - eapply Hcall; try done. by apply Hiff.
  - rewrite (call_frame _ _ _ _ _ _ _ dest_ Hrun); [done|].
    intros Hd. by apply Hin, Hiff.
Qed.

Lemma dest_loop flags dest_ (P : Value → Prop) (step : option string → Value → Value) :
  Forall (λ a, Forall (λ o, a_dest a = dest_ ↔ o ∈ flags) (option_strings a))
         (actions create_analyze_parser) →
  Forall (λ o, is_Some (find_action create_analyze_parser o)) flags →
  (∀ a argument values (ns ns' : Namespace) w w' v,
     a ∈ actions create_analyze_parser → a_dest a = dest_ →
     (a_nargs a = Some 0 ↔ argument = None) →
     get_values a (option_list argument) = inr values →
     ns !! dest_ = Some v → P v →
     call create_analyze_parser a ns values w = (Returned ns', w') →
     ns' !! dest_ = Some (step argument v) ∧ P (step argument v)) →
  ∀ args st w st' w' v,
    namespace st !! dest_ = Some v → P v →
    consume_optionals create_analyze_parser st args w = (Returned st', w') →
    namespace st' !! dest_ = Some (fold_dest flags step v args)
    ∧ P (fold_dest flags step v args).
Proof.
  intros Hflags Hknown Hcall args.
  induction args as [|[o argument] args IH]; intros st w st' w' v Hv HP; simpl.
  - by intros [= <- <-].
  - intros (st1 & w1 & Hone & Hrest)%bind_returned_inv.
    destruct (dest_step flags dest_ P step Hflags Hknown Hcall
                _ _ _ _ _ _ _ Hv HP Hone) as [Hv1 HP1].
    by eapply IH.
Qed.

(** The same, for the whole parse. *)
Lemma dest_parse flags dest_ (P : Value → Prop) (step : option string → Value → Value)
    v args w ns w' :
  Forall (λ a, Forall (λ o, a_dest a = dest_ ↔ o ∈ flags) (option_strings a))
         (actions create_analyze_parser) →
  Forall (λ o, is_Some (find_action create_analyze_parser o)) flags →
  (∀ a argument values (ns ns' : Namespace) w w' v,
     a ∈ actions create_analyze_parser → a_dest a = dest_ →
     (a_nargs a = Some 0 ↔ argument = None) →
     get_values a (option_list argument) = inr values →
     ns !! dest_ = Some v → P v →
     call create_analyze_parser a ns values w = (Returned ns', w') →
     ns' !! dest_ = Some (step argument v) ∧ P (step argument v)) →
  initial_namespace create_analyze_parser !! dest_ = Some v → P v →
  parse_args create_analyze_parser args w = (Returned ns, w') →
  ns !! dest_ = Some (fold_dest flags step v args) ∧ P (fold_dest flags step v args).
Proof.
  intros Hflags Hknown Hcall Hv HP (st & Hloop & <-)%parse_args_returned.
  revert Hv Hloop. generalize (initial_namespace create_analyze_parser).
  intros ns0 Hv Hloop.
  exact (dest_loop flags dest_ P step Hflags Hknown Hcall args
           (mkState ns0 [] []) w st w' v Hv HP Hloop).
Qed.

(** *** The folds in closed form *)

Lemma arguments_of_cons flags option_string argument args :
  arguments_of flags (Occ option_string argument :: args)
  = (if bool_decide (option_string ∈ flags) then option_list argument else [])
    ++ arguments_of flags args.
Proof.
  unfold arguments_of. cbn [omap list_omap].
  case_bool_decide; [|done]. by destruct argument.
Qed.

Lemma fold_dest_cons flags step v option_string argument args :
  fold_dest flags step v (Occ option_string argument :: args)
  = fold_dest flags step
      (if bool_decide (option_string ∈ flags) then step argument v else v) args.
Proof. done. Qed.

(** Replacing: what the last argument given makes, else what was there. *)
Lemma fold_dest_last (f : string → Value) flags v args :
  fold_dest flags (λ argument v, from_option f v argument) v args
  = from_option f v (last (arguments_of flags args)).
Proof.
  revert v. induction args as [|[o argument] args IH]; intros v; [done|].
  rewrite fold_dest_cons, arguments_of_cons, IH.
  case_bool_decide; [|done]. destruct argument as [s|]; [|done]. cbn.
  destruct (arguments_of flags args) as [|s' l _] using rev_ind; [done|].
  by rewrite app_comm_cons, !last_snoc.
Qed.

(** Appending: what the arguments given make, after what was there. *)
Lemma fold_dest_append (f : string → Value) flags v args :
  fold_dest flags
    (λ argument v,
       match argument with
       | Some s => VListOf (match v with VListOf items => items | _ => [] end ++ [f s])
       | None => v
       end) v args
  = match arguments_of flags args with
    | [] => v
    | given => VListOf (match v with VListOf items => items | _ => [] end
                        ++ (f <$> given))
    end.
Proof.
  revert v. induction args as [|[o argument] args IH]; intros v; [done|].
  rewrite fold_dest_cons, arguments_of_cons, IH.
  case_bool_decide; [|done]. destruct argument as [s|]; [|done]. cbn.
  destruct (arguments_of flags args) as [|s' given]; [done|].
  by rewrite <- app_assoc.
Qed.

Lemma given_nil flags : given flags [] = false.
Proof. apply bool_decide_eq_false_2. by intros ?%Exists_nil. Qed.

Lemma given_cons flags option_string argument args :
  given flags (Occ option_string argument :: args)
  = bool_decide (option_string ∈ flags) || given flags args.
Proof.
  unfold given. apply eq_true_iff_eq.
  rewrite orb_true_iff, !bool_decide_eq_true, Exists_cons. done.
Qed.

(** Setting a boolean: set when one of the flags was given. *)
Lemma fold_dest_switch flags b v args :
  fold_dest flags (λ _ _, VBool b) v args
  = if given flags args then VBool b else v.
Proof.
  revert v. induction args as [|[o argument] args IH]; intros v.
  - by rewrite given_nil.
  - rewrite fold_dest_cons, IH, given_cons.
    case_bool_decide; by destruct (given flags args).
Qed.

(** Counting: one more for each occurrence. *)
Lemma fold_dest_count flags n args :
  fold_dest flags (λ _ v, match v with VInt n => VInt (n + 1) | _ => VInt 1 end)
    (VInt n) args
  = VInt (n + Z.of_nat (occurrences flags args)).
Proof.
  revert n. induction args as [|[o argument] args IH]; intros n.
  - cbn. f_equal. lia.
  - rewrite fold_dest_cons. unfold occurrences. rewrite filter_cons. cbn [flag_of].
    case_bool_decide as Ho.
    + rewrite decide_True by done. rewrite IH. unfold occurrences. cbn [length].
      f_equal. lia.
    + rewrite decide_False by done. by rewrite IH.
Qed.

End options.

(** ** What each kind of option leaves in its attribute *)

Section attributes.
Import argparse.
Context `{Environment} `{HelpFormatter}.

(** An option that takes an argument is called with what its argument
    makes: the empty list for the bare [--], else the argument converted
    and checked. *)
Lemma one_argument a argument (values : Value) :
  a_nargs a = None →
  (a_nargs a = Some 0 ↔ argument = None) →
  get_values a (option_list argument) = inr values →
  ∃ s, argument = Some s
       ∧ if String.eqb s "--" then values = VListOf []
         else get_value a s = inr values ∧ check_value a s values = inr values.
Proof.
  intros Hnargs Hiff Hvalues%get_values_inr. destruct argument as [s|].
  - exists s. split; [done|]. destruct (String.eqb s "--"); [done|].
    rewrite Hnargs in Hvalues. destruct Hvalues as (v & Hv & Hc).
    pose proof (check_value_inr _ _ _ _ Hc) as ->. by split.
  - destruct Hiff as [_ Hiff]. rewrite Hnargs in Hiff. by specialize (Hiff eq_refl).
Qed.

Lemma get_value_number a s v :
  a_type a = Some int → get_value a s = inr v → v = number s ∧ is_Some (int_of_str s).
Proof.
  unfold get_value, number. intros ->. destruct (int_of_str s); [|done].
  intros [= <-]. by split.
Qed.

(** The attribute of a storing option: what the last argument given makes,
    else the default. *)
Lemma store_parse flags dest_ (t : option ArgType) default args w ns w' :
  Forall (λ a, Forall (λ o, a_dest a = dest_ ↔ o ∈ flags) (option_strings a))
         (actions create_analyze_parser) →
  Forall (λ o, is_Some (find_action create_analyze_parser o)) flags →
  Forall (λ a, a_dest a = dest_ → a_class a = store ∧ a_nargs a = None ∧ a_type a = t)
         (actions create_analyze_parser) →
  initial_namespace create_analyze_parser !! dest_ = Some default →
  parse_args create_analyze_parser args w = (Returned ns, w') →
  ns !! dest_
  = Some (from_option
            (handed match t with
                    | None => VStr
                    | Some int => number
                    end)
            default (last (arguments_of flags args))).
Proof.
  intros Hflags Hknown Hclass Hdefault Hparse.
  rewrite <- fold_dest_last.
  refine (proj1 (dest_parse flags dest_ (λ _, True) _ default args w ns w'
                   Hflags Hknown _ Hdefault I Hparse)).
  intros a argument values ns1 ns2 w1 w2 v Ha Hdest Hnargs Hvalues Hv _ Hcall.
  destruct (proj1 (Forall_forall _ _) Hclass a Ha Hdest) as (Hstore & Hone & Htype).
  destruct (one_argument a argument values Hone Hnargs Hvalues) as (s & -> & Hs).
  unfold call in Hcall. rewrite Hstore in Hcall. injection Hcall as <- <-.
  rewrite Hdest. unfold setattr. rewrite lookup_insert_eq. split; [|exact I].
  clear Hdefault Hparse. f_equal. cbn. unfold handed.
  destruct (String.eqb s "--"); [done|]. destruct Hs as [Hget _].
  destruct t as [[]|].
  - by apply get_value_number in Hget as [-> _].
  - by apply get_value_str in Hget.
Qed.

(** X2. The options that store their argument leave in their attribute what
    the argument of their last occurrence makes, and the default when they
    are not given: [--cdb] in [cdb] (default [compile_commands.json]),
    [--output] and [-o] in [output] (default the temporary directory),
    [--html-title] in [html_title] (default [None]), [--use-analyzer] in
    [clang] (default [clang]) and [--analyzer-config] in [analyzer_config]
    (default [None]).  The argument makes the string itself, but for the
    bare [--], as in [--cdb=--], which argparse drops: the attribute is then
    the empty list. *)
Theorem store_options_parse (args : list occurrence) (w w' : World) (ns : Namespace) :
  parse_args create_analyze_parser args w = (Returned ns, w') →
  Forall (λ '(flags, dest_, initial),
            ns !! dest_
            = Some (from_option (handed VStr) initial (last (arguments_of flags args))))
         store_options.
Proof.
  intros Hparse. unfold store_options.
  repeat (apply Forall_cons_2;
    [match goal with
     | |- _ !! ?d = Some (from_option _ _ (last (arguments_of ?fl _))) =>
         apply (store_parse fl d None _ args w ns w');
         [apply (bool_decide_unpack _); by vm_compute
         |apply (bool_decide_unpack _); by vm_compute
         |apply (bool_decide_unpack _); by vm_compute
         |by vm_compute
         |done]
     end|]).
  apply Forall_nil_2.
Qed.

(** The attribute of an appending option: what the arguments given make, in
    order, after what was there. *)
Lemma append_parse flags dest_ initial args w ns w' :
  Forall (λ a, Forall (λ o, a_dest a = dest_ ↔ o ∈ flags) (option_strings a))
         (actions create_analyze_parser) →
  Forall (λ o, is_Some (find_action create_analyze_parser o)) flags →
  Forall (λ a, a_dest a = dest_ →
               a_class a = append ∧ a_nargs a = None ∧ a_type a = None)
         (actions create_analyze_parser) →
  initial_namespace create_analyze_parser !! dest_ = Some initial →
  initial = VNone ∨ initial = VListOf [] →
  parse_args create_analyze_parser args w = (Returned ns, w') →
  ns !! dest_ = Some (match arguments_of flags args with
                      | [] => initial
                      | given => VListOf (handed VStr <$> given)
                      end).
Proof.
  intros Hflags Hknown Hclass Hinitial Hshape Hparse.
  assert (match arguments_of flags args with
          | [] => initial
          | given => VListOf (handed VStr <$> given)
          end
          = match arguments_of flags args with
            | [] => initial
            | given => VListOf (match initial with VListOf items => items | _ => [] end
                                ++ (handed VStr <$> given))
            end) as -> by by destruct Hshape as [-> | ->].
  rewrite <- fold_dest_append.
  refine (proj1 (dest_parse flags dest_ (λ v, v = VNone ∨ ∃ items, v = VListOf items) _
                   initial args w ns w' Hflags Hknown _ Hinitial _ Hparse)).
  - intros a argument values ns1 ns2 w1 w2 v Ha Hdest Hnargs Hvalues Hv HP Hcall.
    destruct (proj1 (Forall_forall _ _) Hclass a Ha Hdest) as (Happend & Hone & Htype).
    destruct (one_argument a argument values Hone Hnargs Hvalues) as (s & -> & Hs).
    assert (values = handed VStr s) as ->.
    { unfold handed. destruct (String.eqb s "--"); [done|].
      destruct Hs as [Hget _]. by apply get_value_str in Hget. }
    unfold call, getattr3 in Hcall. rewrite Happend, Hdest, Hv in Hcall.
    clear Hinitial Hparse.
    destruct HP as [->|[items ->]]; injection Hcall as <- <-;
      unfold setattr; rewrite lookup_insert_eq; (split; [reflexivity|eauto]).
  - destruct Hshape as [-> | ->]; eauto.
Qed.

(** The attribute of an option that sets a boolean. *)
Lemma switch_parse flags dest_ (b : bool) args w ns w' :
  Forall (λ a, Forall (λ o, a_dest a = dest_ ↔ o ∈ flags) (option_strings a))
         (actions create_analyze_parser) →
  Forall (λ o, is_Some (find_action create_analyze_parser o)) flags →
  Forall (λ a, a_dest a = dest_ →
               (a_class a = store_true ∨ a_class a = store_false)
               ∧ a_const a = VBool b)
         (actions create_analyze_parser) →
  initial_namespace create_analyze_parser !! dest_ = Some (VBool (negb b)) →
  parse_args create_analyze_parser args w = (Returned ns, w') →
  ns !! dest_ = Some (VBool (if given flags args then b else negb b)).
Proof.
  intros Hflags Hknown Hclass Hinitial Hparse.
  assert (VBool (if given flags args then b else negb b)
          = if given flags args then VBool b else VBool (negb b)) as ->
    by by destruct (given flags args).
  rewrite <- fold_dest_switch.
  refine (proj1 (dest_parse flags dest_ (λ _, True) _
                   _ args w ns w' Hflags Hknown _ Hinitial I Hparse)).
  intros a argument values ns1 ns2 w1 w2 v Ha Hdest Hnargs Hvalues Hv _ Hcall.
  destruct (proj1 (Forall_forall _ _) Hclass a Ha Hdest) as (Hswitch & Hconst).
  unfold call in Hcall. rewrite Hconst, Hdest in Hcall.
  destruct Hswitch as [Hswitch|Hswitch]; rewrite Hswitch in Hcall;
    injection Hcall as <- <-; unfold setattr; rewrite lookup_insert_eq;
    (split; [reflexivity|exact I]).
Qed.

(** The attribute of a counting option. *)
Lemma count_parse flags dest_ (n : Z) args w ns w' :
  Forall (λ a, Forall (λ o, a_dest a = dest_ ↔ o ∈ flags) (option_strings a))
         (actions create_analyze_parser) →
  Forall (λ o, is_Some (find_action create_analyze_parser o)) flags →
  Forall (λ a, a_dest a = dest_ → a_class a = count) (actions create_analyze_parser) →
  initial_namespace create_analyze_parser !! dest_ = Some (VInt n) →
  parse_args create_analyze_parser args w = (Returned ns, w') →
  ns !! dest_ = Some (VInt (n + Z.of_nat (occurrences flags args))).
Proof.
  intros Hflags Hknown Hclass Hinitial Hparse.
  rewrite <- fold_dest_count.
  refine (proj1 (dest_parse flags dest_ (λ v, ∃ n, v = VInt n) _
                   _ args w ns w' Hflags Hknown _ Hinitial _ Hparse)); [|by eexists].
  intros a argument values ns1 ns2 w1 w2 v Ha Hdest Hnargs Hvalues Hv [m ->] Hcall.
  pose proof (proj1 (Forall_forall _ _) Hclass a Ha Hdest) as Hcount.
  unfold call, getattr3 in Hcall. rewrite Hcount, Hdest, Hv in Hcall.
  injection Hcall as <- <-. unfold setattr. rewrite lookup_insert_eq.
  split; [reflexivity|by eexists].
Qed.

(** X1. [--verbose] and [-v] are counted together: after a parse that
    returns, [verbose] holds the number of their occurrences on the command
    line, 0 when there is none. *)
Theorem verbose_counts (args : list occurrence) (w w' : World) (ns : Namespace) :
  parse_args create_analyze_parser args w = (Returned ns, w') →
  ns !! "verbose" = Some (VInt (Z.of_nat (occurrences ["--verbose"; "-v"] args))).
Proof.
  intros Hparse.
  apply (count_parse ["--verbose"; "-v"] "verbose" 0 args w ns w').
  - apply (bool_decide_unpack _); by vm_compute.
  - apply (bool_decide_unpack _); by vm_compute.
  - apply (bool_decide_unpack _); by vm_compute.
  - by vm_compute.
  - done.
Qed.

(** X3. The appending options keep what every argument makes, in the order
    of the command line: after a parse that returns, [excludes] is the list
    for the arguments of [--exclude] (the empty list when there is none) and
    [plugins] is the list for the arguments of [--load-plugin] and
    [-load-plugin], or [None] when there is none.  An argument makes the
    string itself, but for the bare [--], as in [--exclude=--], which
    argparse drops: the list then holds an empty list at its place. *)
Theorem append_options_parse (args : list occurrence) (w w' : World) (ns : Namespace) :
  parse_args create_analyze_parser args w = (Returned ns, w') →
  Forall (λ '(flags, dest_, initial),
            ns !! dest_ = Some (match arguments_of flags args with
                                | [] => initial
                                | given => VListOf (handed VStr <$> given)
                                end))
         append_options.
Proof.
  intros Hparse. unfold append_options.
  repeat (apply Forall_cons_2;
    [match goal with
     | |- _ !! ?d = Some (match arguments_of ?fl _ with [] => ?i | _ => _ end) =>
         apply (append_parse fl d i args w ns w');
         [apply (bool_decide_unpack _); by vm_compute
         |apply (bool_decide_unpack _); by vm_compute
         |apply (bool_decide_unpack _); by vm_compute
         |by vm_compute
         |by eauto
         |done]
     end|]).
  apply Forall_nil_2.
Qed.

(** X4. Each option without argument sets a boolean: after a parse that
    returns, the attribute holds the value of the option when one of its
    spellings is on the command line, however many times, and the other
    value when it is not.  [--no-failure-reports] sets [output_failures] to
    false; the other eight set their attribute to true. *)
Theorem switch_options_parse (args : list occurrence) (w w' : World) (ns : Namespace) :
  parse_args create_analyze_parser args w = (Returned ns, w') →
  Forall (λ '(flags, dest_, b),
            ns !! dest_ = Some (VBool (if given flags args then b else negb b)))
         switch_options.
Proof.
  intros Hparse. unfold switch_options.
  repeat (apply Forall_cons_2;
    [match goal with
     | |- _ !! ?d = Some (VBool (if given ?fl _ then ?b else _)) =>
         apply (switch_parse fl d b args w ns w');
         [apply (bool_decide_unpack _); by vm_compute
         |apply (bool_decide_unpack _); by vm_compute
         |apply (bool_decide_unpack _); by vm_compute
         |by vm_compute
         |done]
     end|]).
  apply Forall_nil_2.
Qed.

(** A parse that returns took every option of the command line. *)
Lemma call_help a ns values w ns' w' :
  call create_analyze_parser a ns values w = (Returned ns', w') → a_class a ≠ help.
Proof. unfold call. intros Hcall Hhelp. by rewrite Hhelp in Hcall. Qed.

(** The accumulating action returns on a string only. *)
Lemma call_split a ns w ns' w' :
  call create_analyze_parser a ns (VListOf []) w = (Returned ns', w') →
  a_class a ≠ AppendCommaSeparated.
Proof. unfold call. intros Hcall Hclass. by rewrite Hclass in Hcall. Qed.

Lemma nargs_facts :
  Forall (λ a, (a_nargs a = None ∨ a_nargs a = Some 0)
               ∧ (a_type a = None ∨ a_choices a = None))
         (actions create_analyze_parser).
Proof. apply (bool_decide_unpack _). by vm_compute. Qed.

Lemma get_value_inr a s v :
  get_value a s = inr v →
  (a_type a = None ∧ v = VStr s) ∨ (∃ n, a_type a = Some int ∧ int_of_str s = Some n ∧ v = VInt n).
Proof.
  unfold get_value. destruct (a_type a) as [[]|].
  - destruct (int_of_str s) as [n|]; [|done]. intros [= <-]. right. by exists n.
  - intros [= <-]. by left.
Qed.

Lemma check_value_choices a s values l :
  check_value a s (VStr s) = inr values → a_choices a = Some l → s ∈ l.
Proof.
  unfold check_value. intros Hcheck Hl. rewrite Hl in Hcheck.
  by case_bool_decide.
Qed.

Lemma consume_optional_acceptable st option_string argument w st' w' :
  consume_optional create_analyze_parser st (Occ option_string argument) w
  = (Returned st', w') →
  extras st' = [] →
  acceptable (Occ option_string argument) ∧ extras st = [].
Proof.
  intros [(_ & _ & _ & Hextras)|(a & Ha & Htake & Hnargs)]%consume_optional_returned
         Hnil; [done|].
  apply take_action_values in Htake as Hraw. destruct Hraw as (values & Hvalues & Hcall).
  apply take_action_returned in Htake as (_ & _ & _ & _ & _ & Hextras).
  split; [|congruence].
  exists a. split; [done|]. split; [by eapply call_help|].
  pose proof (find_action_elem _ _ _ Ha) as [Hin _].
  destruct (proj1 (Forall_forall _ _) nargs_facts a Hin) as [[Hn|Hn] Hexcl].
  - destruct (one_argument a argument values Hn Hnargs Hvalues) as (s & -> & Hs).
    rewrite Hn. destruct (String.eqb s "--").
    + subst values. by eapply call_split.
    + destruct Hs as [Hget Hcheck]. split.
      * intros Hint.
        apply get_value_inr in Hget as [[? _]|(n & _ & -> & _)]; [congruence|done].
      * intros l Hl. destruct Hexcl as [Hty|?]; [|congruence].
        apply get_value_inr in Hget as [[_ ->]|(n & ? & _)]; [|congruence].
        by eapply check_value_choices.
  - rewrite Hn. by rewrite (proj1 Hnargs Hn).
Qed.

Lemma consume_optionals_acceptable args st w st' w' :
  consume_optionals create_analyze_parser st args w = (Returned st', w') →
  extras st' = [] →
  Forall acceptable args ∧ extras st = [].
Proof.
  revert st w. induction args as [|[o argument] args IH]; intros st w; simpl.
  - by intros [= <- <-].
  - intros (st1 & w1 & Hone & Hrest)%bind_returned_inv Hnil.
    destruct (IH _ _ Hrest Hnil) as [Hargs Hnil1].
    destruct (consume_optional_acceptable _ _ _ _ _ _ Hone Hnil1) as [Ho Hnil0].
    split; [by apply Forall_cons_2|done].
Qed.

Lemma parse_args_acceptable args w ns w' :
  parse_args create_analyze_parser args w = (Returned ns, w') →
  Forall acceptable args.
Proof.
  unfold parse_args. intros (st & w1 & Hloop & Hend)%bind_returned_inv.
  case_bool_decide as Hextras.
  - destruct (usage_error_run (A:=Namespace) create_analyze_parser
                (unrecognized_arguments (extras st)) w1) as [w2 Herr].
    congruence.
  - by destruct (consume_optionals_acceptable _ _ _ _ _ Hloop Hextras).
Qed.

(** The arguments given to flags that are registered for one action. *)
Lemma arguments_of_acceptable flags a args s :
  Forall (λ o, find_action create_analyze_parser o = Some a) flags →
  Forall acceptable args →
  s ∈ arguments_of flags args →
  s = "--"
  ∨ ((a_type a = Some int → is_Some (int_of_str s))
     ∧ (∀ l, a_choices a = Some l → s ∈ l)).
Proof.
  intros Hflags Hargs (o & Ho & Hs)%list_elem_of_omap.
  destruct o as [option_string argument].
  case_bool_decide as Hin; [|done]. subst argument.
  apply (proj1 (Forall_forall _ _) Hargs) in Ho as (b & Hb & _ & Hshape).
  rewrite (proj1 (Forall_forall _ _) Hflags _ Hin) in Hb. injection Hb as <-.
  destruct (a_nargs a) as [[|?]|]; try done.
  destruct (String.eqb s "--") eqn:Hs; [|by right].
  left. by apply String.eqb_eq.
Qed.

(** X5. [--store] and [--constraints] take one of their words only, or the
    bare [--]: after a parse that returns, every argument given to them is
    one of the choices ([region] or [basic], and [range] or [basic]) or is
    [--], which argparse drops without a check, and [store_model] and
    [constraints_model] hold the argument of the last occurrence (the empty
    list when that argument is [--]), or [None] when the option is not
    given. *)
Theorem choice_options_parse (args : list occurrence) (w w' : World) (ns : Namespace) :
  parse_args create_analyze_parser args w = (Returned ns, w') →
  Forall (λ '(flags, dest_, words),
            ns !! dest_
            = Some (from_option (handed VStr) VNone (last (arguments_of flags args)))
            ∧ Forall (λ s, s = "--" ∨ s ∈ words) (arguments_of flags args))
         choice_options.
Proof.
  intros Hparse. pose proof (parse_args_acceptable _ _ _ _ Hparse) as Hargs.
  unfold choice_options.
  repeat (apply Forall_cons_2;
    [match goal with
     | |- _ !! ?d = Some (from_option _ _ (last (arguments_of ?fl _))) ∧ _ =>
         split;
         [apply (store_parse fl d None _ args w ns w');
          [apply (bool_decide_unpack _); by vm_compute
          |apply (bool_decide_unpack _); by vm_compute
          |apply (bool_decide_unpack _); by vm_compute
          |by vm_compute
          |exact Hparse]
         |clear Hparse; apply Forall_forall; intros s Hs;
          match goal with
          | |- _ ∨ _ ∈ ?words =>
              assert (∃ a, Forall (λ o, find_action create_analyze_parser o = Some a) fl
                           ∧ a_choices a = Some words) as (a & Hfl & Hwords)
                by (eexists; split;
                      [apply Forall_cons_2; [by vm_compute|];
                       apply Forall_cons_2; [by vm_compute|]; apply Forall_nil_2
                      |by vm_compute]);
              destruct (arguments_of_acceptable fl a args s Hfl Hargs Hs)
                as [->|[_ Hchoice]]; [by left|right; exact (Hchoice _ Hwords)]
          end]
     end|]).
  apply Forall_nil_2.
Qed.

(** X6. [--maxloop] takes numbers only, or the bare [--]: after a parse that
    returns, every argument given to [--maxloop] or [-maxloop] is one [int]
    converts or is [--], which argparse drops without converting it, and
    [maxloop] holds the number of the last occurrence (the empty list when
    that argument is [--]), or [None] when the option is not given. *)
Theorem maxloop_parse (args : list occurrence) (w w' : World) (ns : Namespace) :
  parse_args create_analyze_parser args w = (Returned ns, w') →
  Forall (λ s, s = "--" ∨ is_Some (int_of_str s))
         (arguments_of ["--maxloop"; "-maxloop"] args)
  ∧ ns !! "maxloop"
    = Some (from_option (handed number) VNone
              (last (arguments_of ["--maxloop"; "-maxloop"] args))).
Proof.
  intros Hparse. pose proof (parse_args_acceptable _ _ _ _ Hparse) as Hargs. split.
  - clear Hparse. apply Forall_forall. intros s Hs.
    assert (∃ a, Forall (λ o, find_action create_analyze_parser o = Some a)
                   ["--maxloop"; "-maxloop"]
                 ∧ a_type a = Some int) as (a & Hfl & Hint)
      by (eexists; split;
            [apply Forall_cons_2; [by vm_compute|];
             apply Forall_cons_2; [by vm_compute|]; apply Forall_nil_2
            |by vm_compute]).
    destruct (arguments_of_acceptable _ a args s Hfl Hargs Hs) as [->|[Hnumber _]];
      [by left|right; exact (Hnumber Hint)].
  - apply (store_parse ["--maxloop"; "-maxloop"] "maxloop" (Some int) VNone args w ns w').
    + apply (bool_decide_unpack _); by vm_compute.
    + apply (bool_decide_unpack _); by vm_compute.
    + apply (bool_decide_unpack _); by vm_compute.
    + by vm_compute.
    + exact Hparse.
Qed.

(** *** Which command lines the parser takes *)

Lemma class_facts :
  Forall (λ a, (a_class a = append ∨ a_class a = AppendCommaSeparated →
                a_nargs a = None ∧ a_type a = None)
               ∧ (a_class a = help → a_nargs a = Some 0)
               ∧ Forall (λ b, a_dest a = a_dest b → a_class b = a_class a)
                        (actions create_analyze_parser))
         (actions create_analyze_parser).
Proof. apply (bool_decide_unpack _). by vm_compute. Qed.

Lemma initial_facts :
  Forall (λ a, (a_class a = append ∨ a_class a = AppendCommaSeparated →
                initial_namespace create_analyze_parser !! a_dest a
                ∈ [None; Some VNone; Some (VListOf [])])
               ∧ (a_class a = count →
                  initial_namespace create_analyze_parser !! a_dest a
                  = Some (VInt 0)))
         (actions create_analyze_parser).
Proof. apply (bool_decide_unpack _). by vm_compute. Qed.

Lemma typed_initial : typed (initial_namespace create_analyze_parser).
Proof.
  unfold typed. eapply Forall_impl; [exact initial_facts|].
  generalize (initial_namespace create_analyze_parser). intros ns a [Happend Hcount].
  unfold class_shape. destruct (a_class a); try exact I.
  - specialize (Happend (or_introl eq_refl)).
    apply elem_of_cons in Happend as [->|Hin]; [by left|].
    apply elem_of_cons in Hin as [->|Hin]; [right; by left|].
    apply elem_of_cons in Hin as [->|Hin]; [right; right; by eexists|].
    by apply elem_of_nil in Hin.
  - right. right. left. exists 0%Z. by apply Hcount.
  - specialize (Happend (or_intror eq_refl)).
    apply elem_of_cons in Happend as [->|Hin]; [by left|].
    apply elem_of_cons in Hin as [->|Hin]; [right; by left|].
    apply elem_of_cons in Hin as [->|Hin]; [right; right; by eexists|].
    by apply elem_of_nil in Hin.
Qed.

(** An action other than the help changes its destination, writes nothing
    and does not raise, on a namespace it can work on, when the accumulating
    action is handed a string. *)
Lemma call_run a ns values w :
  a_class a ≠ help →
  class_shape (a_class a) (ns !! a_dest a) →
  (a_class a = AppendCommaSeparated → ∃ s, values = VStr s) →
  ∃ v, call create_analyze_parser a ns values w = (Returned (<[a_dest a := v]> ns), w)
       ∧ class_shape (a_class a) (Some v).
Proof.
  unfold call, class_shape, getattr3, setattr. intros Hhelp Hshape Hvalues.
  destruct (a_class a) eqn:Hclass;
    try (eexists; split; [reflexivity|exact I]); try (by destruct Hhelp).
  - destruct Hshape as [->|[->|[items ->]]]; eexists; (split; [reflexivity|eauto]).
  - destruct Hshape as [->|[->|[[n ->]|[b ->]]]]; eexists; (split; [reflexivity|eauto]).
  - destruct Hvalues as [s ->]; [done|].
    assert (∃ v, AppendCommaSeparated_call (a_dest a) ns s w
                 = (Returned (<[a_dest a := v]> ns), w)
                 ∧ ∃ items, v = VListOf items) as (v & -> & items & ->).
    { unfold AppendCommaSeparated_call, getattr3.
      destruct Hshape as [Hnone|[Hnone|[items Hitems]]]; rewrite ?Hnone, ?Hitems;
        cbn [is_None].
      - erewrite bind_returned by (apply getattr_Some, lookup_insert_eq).
        erewrite bind_returned by reflexivity.
        unfold mret, Py_ret, setattr. rewrite insert_insert_eq. eauto.
      - erewrite bind_returned by (apply getattr_Some, lookup_insert_eq).
        erewrite bind_returned by reflexivity.
        unfold mret, Py_ret, setattr. rewrite insert_insert_eq. eauto.
      - erewrite bind_returned by (by apply getattr_Some).
        erewrite bind_returned by reflexivity. eauto. }
    eexists. split; [reflexivity|eauto].
Qed.

Lemma typed_insert a ns v :
  a ∈ actions create_analyze_parser →
  typed ns → class_shape (a_class a) (Some v) → typed (<[a_dest a := v]> ns).
Proof.
  unfold typed. intros Ha Hns Hv. apply Forall_forall. intros b Hb.
  destruct (decide (a_dest a = a_dest b)) as [Heq|Hne].
  - destruct (proj1 (Forall_forall _ _) class_facts a Ha) as (_ & _ & Hsame).
    rewrite (proj1 (Forall_forall _ _) Hsame b Hb Heq), <- Heq.
    by rewrite lookup_insert_eq.
  - rewrite lookup_insert_ne by done. by apply (proj1 (Forall_forall _ _) Hns).
Qed.

Lemma usage_error_world {A} e w :
  usage_error (A:=A) create_analyze_parser e w
  = (Raised (SystemExit 2),
     mkWorld (stdout w)
             (stderr w +:+ format_usage create_analyze_parser
              +:+ prog create_analyze_parser +:+ ": error: " +:+ str_of_error e +:+ nl)).
Proof. unfold usage_error. apply error_run. Qed.

(** The argument of an acceptable option is converted and checked, or
    dropped when it is the bare [--]. *)
Lemma acceptable_values a argument :
  a ∈ actions create_analyze_parser →
  match a_nargs a, argument with
  | Some 0, None => True
  | None, Some s =>
      if String.eqb s "--" then a_class a ≠ AppendCommaSeparated
      else (a_type a = Some int → is_Some (int_of_str s))
           ∧ (∀ l, a_choices a = Some l → s ∈ l)
  | _, _ => False
  end →
  ∃ values,
    get_values a (option_list argument) = inr values
    ∧ (a_class a = AppendCommaSeparated → ∃ s, values = VStr s).
Proof.
  intros Ha Hshape. unfold get_values. rewrite remove_dashes_argument.
  destruct (proj1 (Forall_forall _ _) nargs_facts a Ha) as [_ Hexcl].
  destruct (proj1 (Forall_forall _ _) class_facts a Ha) as (Happend & _ & _).
  destruct (a_nargs a) as [[|n]|] eqn:Hnargs, argument as [s|]; try done.
  - eexists. split; [done|]. intros Hclass.
    destruct (Happend (or_intror Hclass)) as [? _]. congruence.
  - destruct (String.eqb s "--").
    + eexists. split; [done|]. by intros ?.
    + destruct Hshape as [Hint Hchoice]. unfold get_value, check_value.
      destruct (a_type a) as [[]|] eqn:Htype.
      * destruct (Hint eq_refl) as [n ->]. destruct Hexcl as [?| ->]; [done|].
        eexists. split; [done|]. intros Hclass.
        destruct (Happend (or_intror Hclass)) as [_ ?]. congruence.
      * destruct (a_choices a) as [l|].
        -- rewrite bool_decide_eq_true_2 by by apply Hchoice.
           eexists. split; eauto.
        -- eexists. split; eauto.
Qed.

(** An acceptable option that conflicts with none seen before is taken: the
    parse goes on, with nothing written. *)
Lemma consume_optional_run st option_string argument a w :
  typed (namespace st) →
  find_action create_analyze_parser option_string = Some a →
  a_class a ≠ help →
  match a_nargs a, argument with
  | Some 0, None => True
  | None, Some s =>
      if String.eqb s "--" then a_class a ≠ AppendCommaSeparated
      else (a_type a = Some int → is_Some (int_of_str s))
           ∧ (∀ l, a_choices a = Some l → s ∈ l)
  | _, _ => False
  end →
  filter (λ c, c ∈ a :: seen_non_default_actions st)
         (action_conflicts create_analyze_parser a) = [] →
  ∃ v, consume_optional create_analyze_parser st (Occ option_string argument) w
       = (Returned (mkState (<[a_dest a := v]> (namespace st))
                            (a :: seen_non_default_actions st) (extras st)), w)
       ∧ typed (<[a_dest a := v]> (namespace st)).
Proof.
  intros Htyped Hfind Hhelp Hshape Hconflicts.
  pose proof (find_action_elem _ _ _ Hfind) as [Ha _].
  destruct (acceptable_values a argument Ha Hshape) as (values & Hvalues & Hstr).
  destruct (call_run a (namespace st) values w Hhelp) as (v & Hcall & Hv).
  { by apply (proj1 (Forall_forall _ _) Htyped). }
  { done. }
  exists v. split; [|by apply typed_insert].
  unfold consume_optional. rewrite Hfind.
  assert (take_action create_analyze_parser a argument st w
          = (Returned (mkState (<[a_dest a := v]> (namespace st))
                               (a :: seen_non_default_actions st) (extras st)), w))
    as Htake.
  { unfold take_action. rewrite Hvalues. cbv zeta. rewrite Hconflicts.
    by rewrite (bind_returned _ _ _ _ _ Hcall). }
  destruct (a_nargs a) as [[|n]|], argument as [s|]; done.
Qed.

(** *** How a parse ends *)

Lemma parse_outcome_raised {A B} w e w' :
  parse_outcome (A:=A) w (Raised e, w') → parse_outcome (A:=B) w (Raised e, w').
Proof.
  intros [[a [=]]|[[= -> ->]|[[err [= -> ->]]|[= -> ->]]]].
  - right. by left.
  - right. right. left. by exists err.
  - right. right. by right.
Qed.

Lemma parse_outcome_error {A} e w :
  parse_outcome w (usage_error (A:=A) create_analyze_parser e w).
Proof. right. right. left. exists e. apply usage_error_world. Qed.

Lemma checker_flags :
  Forall (λ a, a_class a = AppendCommaSeparated →
               Forall (λ o, Exists (λ p, o ∈ p.1) checker_options) (option_strings a))
         (actions create_analyze_parser).
Proof. apply (bool_decide_unpack _). by vm_compute. Qed.

Lemma take_action_outcome a argument st w :
  a ∈ actions create_analyze_parser →
  typed (namespace st) →
  (argument = None → a_nargs a = Some 0) →
  parse_outcome w (take_action create_analyze_parser a argument st w)
  ∧ (∀ st' w', take_action create_analyze_parser a argument st w = (Returned st', w') →
               typed (namespace st'))
  ∧ (∀ w', take_action create_analyze_parser a argument st w
           = (Raised (AttributeError "split"), w') →
           a_class a = AppendCommaSeparated ∧ argument = Some "--").
Proof.
  intros Ha Htyped Hnargs. unfold take_action.
  destruct (get_values a (option_list argument)) as [e|values] eqn:Hvalues.
  { split; [apply parse_outcome_error|].
    split; [intros st' w'|intros w']; by rewrite usage_error_world. }
  cbv zeta. destruct (filter _ _) as [|conflict conflicts].
  2:{ split; [apply parse_outcome_error|].
      split; [intros st' w'|intros w']; by rewrite usage_error_world. }
  destruct (decide (a_class a = help)) as [Hhelp|Hhelp].
  { assert (call create_analyze_parser a (namespace st) values w
            = (Raised (SystemExit 0),
               mkWorld (stdout w +:+ format_help create_analyze_parser) (stderr w)))
      as Hcall by (unfold call; by rewrite Hhelp).
    rewrite (bind_raised _ _ _ _ _ Hcall). split; [right; by left|]. by split. }
  destruct (proj1 (Forall_forall _ _) class_facts a Ha) as (Happend & _ & _).
  destruct (decide (a_class a = AppendCommaSeparated ∧ argument = Some "--"))
    as [[Hclass ->]|Hplain].
  { assert (values = VListOf []) as ->.
    { apply get_values_inr in Hvalues. by cbn in Hvalues. }
    assert (call create_analyze_parser a (namespace st) (VListOf []) w
            = (Raised (AttributeError "split"), w))
      as Hcall by (unfold call; by rewrite Hclass).
    rewrite (bind_raised _ _ _ _ _ Hcall).
    split; [right; right; by right|]. by split. }
  destruct (call_run a (namespace st) values w Hhelp) as (v & Hcall & Hv).
  { by apply (proj1 (Forall_forall _ _) Htyped). }
  { intros Hclass. destruct (Happend (or_intror Hclass)) as [Hnone Htype].
    destruct argument as [s|]; [|rewrite Hnargs in Hnone; done].
    apply get_values_inr in Hvalues. rewrite Hnone in Hvalues.
    destruct (String.eqb s "--") eqn:Hs.
    - destruct Hplain. split; [done|]. by apply String.eqb_eq in Hs as ->.
    - destruct Hvalues as (v & Hget & ->%check_value_inr).
      apply get_value_str in Hget; [|done]. by exists s. }
  rewrite (bind_returned _ _ _ _ _ Hcall). split; [left; by eexists|].
  split; [|done]. intros st' w' [= <- _]. by apply typed_insert.
Qed.

Lemma consume_optional_outcome st option_string argument w :
  typed (namespace st) →
  parse_outcome w
    (consume_optional create_analyze_parser st (Occ option_string argument) w)
  ∧ (∀ st' w',
       consume_optional create_analyze_parser st (Occ option_string argument) w
       = (Returned st', w') →
       typed (namespace st'))
  ∧ (∀ w',
       consume_optional create_analyze_parser st (Occ option_string argument) w
       = (Raised (AttributeError "split"), w') →
       argument = Some "--" ∧ Exists (λ p, option_string ∈ p.1) checker_options).
Proof.
  intros Htyped. unfold consume_optional.
  destruct (find_action create_analyze_parser option_string) as [a|] eqn:Hfind.
  2:{ split; [left; by eexists|]. split; [|done]. by intros st' w' [= <- _]. }
  pose proof (find_action_elem _ _ _ Hfind) as [Ha Ho].
  assert (∀ e, parse_outcome w (usage_error (A:=ParseState) create_analyze_parser e w)
               ∧ (∀ st' w', usage_error create_analyze_parser e w = (Returned st', w') →
                            typed (namespace st'))
               ∧ (∀ w', usage_error (A:=ParseState) create_analyze_parser e w
                        = (Raised (AttributeError "split"), w') →
                        argument = Some "--"
                        ∧ Exists (λ p, option_string ∈ p.1) checker_options)) as Herr.
  { intros e. split; [apply parse_outcome_error|].
    split; [intros st' w'|intros w']; by rewrite usage_error_world. }
  assert ((argument = None → a_nargs a = Some 0) →
          parse_outcome w (take_action create_analyze_parser a argument st w)
          ∧ (∀ st' w', take_action create_analyze_parser a argument st w
                       = (Returned st', w') → typed (namespace st'))
          ∧ (∀ w', take_action create_analyze_parser a argument st w
                   = (Raised (AttributeError "split"), w') →
                   argument = Some "--"
                   ∧ Exists (λ p, option_string ∈ p.1) checker_options)) as Htake.
  { intros Hnargs.
    destruct (take_action_outcome a argument st w Ha Htyped Hnargs) as (H1 & H2 & H3).
    split; [done|]. split; [done|]. intros w' [Hclass ->]%H3. split; [done|].
    exact (proj1 (Forall_forall _ _)
             (proj1 (Forall_forall _ _) checker_flags a Ha Hclass) _ Ho). }
  destruct (a_nargs a) as [[|n]|] eqn:Hnargs, argument as [s|]; try apply Herr;
    by apply Htake.
Qed.

Lemma consume_optionals_outcome args st w :
  typed (namespace st) →
  parse_outcome w (consume_optionals create_analyze_parser st args w)
  ∧ (∀ w', consume_optionals create_analyze_parser st args w
           = (Raised (AttributeError "split"), w') →
           ∃ flags dest_ flag,
             (flags, dest_) ∈ checker_options ∧ flag ∈ flags
             ∧ Occ flag (Some "--") ∈ args).
Proof.
  revert st. induction args as [|[option_string argument] args IH]; intros st Htyped.
  - split; [left; by eexists|done].
  - cbn [consume_optionals].
    destruct (consume_optional_outcome st option_string argument w Htyped)
      as (Hone & Hnext & Hsplit).
    destruct (consume_optional create_analyze_parser st (Occ option_string argument) w)
      as [[st1|e] w1] eqn:Hrun.
    + destruct Hone as [[? [= <- <-]]|[[=]|[[? [=]]|[=]]]].
      rewrite (bind_returned _ _ _ _ _ Hrun).
      destruct (IH st1 (Hnext _ _ eq_refl)) as [Hrest Hrest'].
      split; [done|]. intros w' (flags & dest_ & flag & ? & ? & ?)%Hrest'.
      exists flags, dest_, flag. split; [done|]. split; [done|]. by right.
    + rewrite (bind_raised _ _ _ _ _ Hrun).
      split; [by eapply parse_outcome_raised|].
      intros w' [= -> <-]. destruct (Hsplit _ eq_refl) as [-> Hflag].
      apply Exists_exists in Hflag as ([flags dest_] & Hin & Hflag).
      exists flags, dest_, option_string. split; [done|]. split; [done|]. by left.
Qed.

(** X8. A parse of any command line ends in one of four ways: it returns
    and has written nothing; or it has written the help message on standard
    output, and nothing else, and exits with status 0; or it has written the
    usage and one error message on standard error, and nothing else, and
    exits with status 2; or it raises the attribute error of a list that has
    no [split], with nothing written.  The last happens only when a checker
    flag has the bare [--] for argument, as in [--enable-checker=--]:
    argparse drops the [--] and hands the accumulating action of this module
    an empty list. *)
Theorem parse_args_outcome (args : list occurrence) (w : World) :
  parse_outcome w (parse_args create_analyze_parser args w)
  ∧ (∀ w', parse_args create_analyze_parser args w
           = (Raised (AttributeError "split"), w') →
           ∃ flags dest_ flag,
             (flags, dest_) ∈ checker_options ∧ flag ∈ flags
             ∧ Occ flag (Some "--") ∈ args).
Proof.
  unfold parse_args.
  destruct (consume_optionals_outcome args
              (mkState (initial_namespace create_analyze_parser) [] []) w
              typed_initial) as [Hloop Hsplit].
  destruct (consume_optionals _ _ _ _) as [[st|e] w1] eqn:Hrun.
  - destruct Hloop as [[? [= <- <-]]|[[=]|[[? [=]]|[=]]]].
    rewrite (bind_returned _ _ _ _ _ Hrun).
    case_bool_decide.
    + split; [apply parse_outcome_error|]. intros w'. by rewrite usage_error_world.
    + split; [left; by eexists|done].
  - rewrite (bind_raised _ _ _ _ _ Hrun).
    split; [by eapply parse_outcome_raised|]. intros w' [= -> <-]. by eapply Hsplit.
Qed.

(** *** The command lines the parser takes *)

Lemma conflict_facts :
  Forall (λ a, a ∉ format_group → action_conflicts create_analyze_parser a = [])
         (actions create_analyze_parser)
  ∧ Forall (λ a, Forall (λ o, Exists (λ p, p.1 = o ∧ a_const a = VStr p.2) format_flags)
                        (option_strings a)
                 ∧ Forall (λ b, a_const a = a_const b → a = b) format_group)
           format_group.
Proof. split; apply (bool_decide_unpack _); by vm_compute. Qed.

(** Command lines whose format flags agree never meet a conflict. *)
Lemma well_formed_conflicts (args : list occurrence) a c :
  (∀ o o' f f', o ∈ args → o' ∈ args →
                (flag_of o, f) ∈ format_flags → (flag_of o', f') ∈ format_flags →
                f = f') →
  (∃ o, o ∈ args ∧ find_action create_analyze_parser (flag_of o) = Some a) →
  c ∈ action_conflicts create_analyze_parser a →
  ¬ ∃ o, o ∈ args ∧ find_action create_analyze_parser (flag_of o) = Some c.
Proof.
  intros Hformat (o & Ho & Ha) Hc (o' & Ho' & Hc').
  destruct conflict_facts as [Hnone Hgroup].
  apply find_action_elem in Ha as [Ha Hoa]. apply find_action_elem in Hc' as [_ Hoc].
  destruct (decide (a ∈ format_group)) as [Hin|Hout].
  2:{ rewrite (proj1 (Forall_forall _ _) Hnone a Ha Hout) in Hc.
      by apply elem_of_nil in Hc. }
  destruct (proj1 (Forall_forall _ _) format_group_actions a Hin) as (_ & _ & _ & Hfilter).
  rewrite Hfilter in Hc. apply list_elem_of_filter in Hc as [Hne Hcin].
  destruct (proj1 (Forall_forall _ _) Hgroup a Hin) as [Hflags Hinj].
  destruct (proj1 (Forall_forall _ _) Hgroup c Hcin) as [Hflags' _].
  apply (proj1 (Forall_forall _ _) Hflags) in Hoa.
  apply (proj1 (Forall_forall _ _) Hflags') in Hoc.
  apply Exists_exists in Hoa as ([flag f] & Hp & Hflag & Hf).
  apply Exists_exists in Hoc as ([flag' f'] & Hp' & Hflag' & Hf').
  cbn in Hflag, Hf, Hflag', Hf'. subst flag flag'.
  pose proof (Hformat o o' f f' Ho Ho' Hp Hp') as <-.
  apply Hne. symmetry. apply (proj1 (Forall_forall _ _) Hinj c Hcin).
  by rewrite Hf, Hf'.
Qed.

(** Acceptable options that conflict with none before them are all taken,
    with nothing written. *)
Lemma consume_optionals_run (allowed : Action → Prop) args st w :
  (∀ a c, allowed a → c ∈ action_conflicts create_analyze_parser a → ¬ allowed c) →
  typed (namespace st) →
  (∀ a, a ∈ seen_non_default_actions st → allowed a) →
  Forall (λ o, acceptable o
               ∧ ∀ a, find_action create_analyze_parser (flag_of o) = Some a → allowed a)
         args →
  ∃ st', consume_optionals create_analyze_parser st args w = (Returned st', w)
         ∧ extras st' = extras st.
Proof.
  intros Hallowed. revert st.
  induction args as [|[option_string argument] args IH]; intros st Htyped Hseen Hargs.
  - by exists st.
  - apply Forall_cons in Hargs as [[(a & Hfind & Hhelp & Hshape) Ha] Hargs].
    cbn [flag_of] in Ha. specialize (Ha a Hfind).
    destruct (consume_optional_run st option_string argument a w
                Htyped Hfind Hhelp Hshape) as (v & Hrun & Htyped').
    { destruct (filter _ _) as [|c l] eqn:Hfilter; [done|]. exfalso.
      assert (c ∈ filter (λ c, c ∈ a :: seen_non_default_actions st)
                         (action_conflicts create_analyze_parser a)) as Hc
        by (rewrite Hfilter; by left).
      apply list_elem_of_filter in Hc as [Hc Hconflict].
      apply (Hallowed a c Ha Hconflict).
      apply elem_of_cons in Hc as [->|Hc]; [done|by apply Hseen]. }
    cbn [consume_optionals]. rewrite (bind_returned _ _ _ _ _ Hrun).
    destruct (IH (mkState (<[a_dest a := v]> (namespace st))
                          (a :: seen_non_default_actions st) (extras st)))
      as (st' & Hrest & Hextras); [done| |done|by exists st'].
    intros b [->|Hb]%elem_of_cons; [done|by apply Hseen].
Qed.

Lemma well_formed_run args st w :
  well_formed args →
  typed (namespace st) → seen_non_default_actions st = [] →
  ∃ st', consume_optionals create_analyze_parser st args w = (Returned st', w)
         ∧ extras st' = extras st.
Proof.
  intros [Hargs Hformat] Htyped Hseen.
  apply (consume_optionals_run
           (λ a, ∃ o, o ∈ args ∧ find_action create_analyze_parser (flag_of o) = Some a)).
  - intros a c. by apply well_formed_conflicts.
  - done.
  - rewrite Hseen. by intros a ?%elem_of_nil.
  - apply Forall_forall. intros o Ho. split.
    + by apply (proj1 (Forall_forall _ _) Hargs).
    + intros a Ha. by exists o.
Qed.

Lemma parse_args_consistent args w ns w' :
  parse_args create_analyze_parser args w = (Returned ns, w') →
  ∀ o o' f f', o ∈ args → o' ∈ args →
               (flag_of o, f) ∈ format_flags → (flag_of o', f') ∈ format_flags →
               f = f'.
Proof.
  intros (st & (g & _ & Hinv) & _ & Hseen)%parse_args_format
         [flag argument] [flag' argument'] f f' Ho Ho' Hf Hf'.
  cbn [flag_of] in Hf, Hf'.
  apply (proj1 (Forall_forall _ _) format_flags_actions) in Hf
    as (a & Ha & Hgroup & Hconst).
  apply (proj1 (Forall_forall _ _) format_flags_actions) in Hf'
    as (a' & Ha' & Hgroup' & Hconst').
  pose proof (Hseen _ _ _ Ho Ha) as Hs. pose proof (Hseen _ _ _ Ho' Ha') as Hs'.
  destruct Hinv as [[_ Hnone]|(b & _ & _ & _ & Huniq)].
  - by destruct (Hnone a Hs).
  - rewrite (Huniq a Hs Hgroup), (Huniq a' Hs' Hgroup') in *. congruence.
Qed.

Lemma parse_args_well_formed args w ns w' :
  parse_args create_analyze_parser args w = (Returned ns, w') → well_formed args.
Proof.
  intros Hparse. split; [by eapply parse_args_acceptable|by eapply parse_args_consistent].
Qed.

Lemma well_formed_parse args w :
  well_formed args →
  ∃ ns, parse_args create_analyze_parser args w = (Returned ns, w).
Proof.
  intros Hargs.
  destruct (well_formed_run args
              (mkState (initial_namespace create_analyze_parser) [] []) w Hargs
              typed_initial eq_refl) as (st & Hloop & Hextras).
  exists (namespace st). unfold parse_args.
  rewrite (bind_returned _ _ _ _ _ Hloop).
  by rewrite bool_decide_eq_false_2 by (rewrite Hextras; by intros []).
Qed.

(** X9. The parser returns, with nothing written, on every command line
    where each option is registered and is not the help option, comes with
    an argument exactly when it takes one (a number for [--maxloop], one of
    the choices for [--store] and [--constraints], and not the bare [--] for
    a checker flag), and where the output-format flags all select the same
    format. *)
Theorem parse_args_accepts (args : list occurrence) (w : World) :
  well_formed args →
  ∃ ns, parse_args create_analyze_parser args w = (Returned ns, w).
Proof. apply well_formed_parse. Qed.

Lemma consume_optionals_app parser before rest st w :
  consume_optionals parser st (before ++ rest) w
  = match consume_optionals parser st before w with
    | (Returned st1, w1) => consume_optionals parser st1 rest w1
    | (Raised e, w1) => (Raised e, w1)
    end.
Proof.
  revert st w. induction before as [|o before IH]; intros st w;
    cbn [app consume_optionals]; [done|].
  unfold mbind, Py_bind.
  destruct (consume_optional parser st o w) as [[st1|e] w1]; [apply IH|done].
Qed.

(** X10. The parser has the help option of argparse: when [-h] or [--help]
    comes after options the parser takes and before registered options
    only, the parse writes the help message on standard output and exits
    with status 0, whatever the options that follow and their arguments. *)
Theorem help_exits (before after : list occurrence) (flag : string) (w : World) :
  well_formed before →
  flag ∈ ["-h"; "--help"] →
  Forall (λ o, is_Some (find_action create_analyze_parser (flag_of o))) after →
  parse_args create_analyze_parser (before ++ Occ flag None :: after) w
  = (Raised (SystemExit 0),
     mkWorld (stdout w +:+ format_help create_analyze_parser) (stderr w)).
Proof.
  intros Hbefore Hflag _.
  destruct (well_formed_run before
              (mkState (initial_namespace create_analyze_parser) [] []) w Hbefore
              typed_initial eq_refl) as (st & Hloop & _).
  assert (∃ a, find_action create_analyze_parser flag = Some a
               ∧ a_class a = help ∧ a_nargs a = Some 0
               ∧ action_conflicts create_analyze_parser a = [])
    as (a & Hfind & Hclass & Hnargs & Hconflicts).
  { apply elem_of_cons in Hflag as [->|Hflag];
      [eexists; split; [by vm_compute|by vm_compute]|].
    apply elem_of_cons in Hflag as [->|Hflag];
      [eexists; split; [by vm_compute|by vm_compute]|].
    by apply elem_of_nil in Hflag. }
  assert (consume_optional create_analyze_parser st (Occ flag None) w
          = (Raised (SystemExit 0),
             mkWorld (stdout w +:+ format_help create_analyze_parser) (stderr w)))
    as Hhelp.
  { unfold consume_optional. rewrite Hfind, Hnargs. unfold take_action. cbv zeta.
    rewrite Hconflicts, filter_nil. unfold call. by rewrite Hclass. }
  assert (consume_optionals create_analyze_parser
            (mkState (initial_namespace create_analyze_parser) [] [])
            (before ++ Occ flag None :: after) w
          = (Raised (SystemExit 0),
             mkWorld (stdout w +:+ format_help create_analyze_parser) (stderr w)))
    as Hall.
  { rewrite consume_optionals_app, Hloop. cbn [consume_optionals].
    by rewrite (bind_raised _ _ _ _ _ Hhelp). }
  unfold parse_args. by rewrite (bind_raised _ _ _ _ _ Hall).
Qed.

(** *** The attributes of the namespace *)

Lemma call_dom a (ns ns' : Namespace) values w w' :
  call create_analyze_parser a ns values w = (Returned ns', w') →
  dom ns' = {[a_dest a]} ∪ dom ns.
Proof.
  unfold call, setattr. intros Hcall. destruct (a_class a).
  - injection Hcall as <- <-. apply dom_insert_L.
  - injection Hcall as <- <-. apply dom_insert_L.
  - injection Hcall as <- <-. apply dom_insert_L.
  - injection Hcall as <- <-. apply dom_insert_L.
  - destruct (getattr3 ns (a_dest a) VNone); try done;
      injection Hcall as <- <-; apply dom_insert_L.
  - destruct (getattr3 ns (a_dest a) VNone); try done;
      injection Hcall as <- <-; apply dom_insert_L.
  - done.
  - destruct values as [| | |s|]; try done. unfold AppendCommaSeparated_call in Hcall.
    apply bind_returned_inv in Hcall as (actual & w1 & _ & Hrest).
    apply bind_returned_inv in Hrest as (actual' & w2 & _ & [= <- <-]).
    unfold setattr. rewrite dom_insert_L.
    destruct (is_None _); [|done].
    by rewrite dom_insert_L, (assoc_L (∪)), (idemp_L (∪)).
Qed.

Lemma attribute_facts :
  Forall (λ a, a_class a ≠ help → a_dest a ∈ attribute_names)
         (actions create_analyze_parser).
Proof. apply (bool_decide_unpack _). by vm_compute. Qed.

Lemma initial_attributes :
  dom (initial_namespace create_analyze_parser) = list_to_set attribute_names.
Proof. apply (bool_decide_unpack _). by vm_compute. Qed.

(** X7. Whatever the command line, a parse that returns gives a namespace
    with the same 23 attributes: one for each destination of the parser, and
    none for the help option. *)
Theorem parse_attributes (args : list occurrence) (w w' : World) (ns : Namespace) :
  parse_args create_analyze_parser args w = (Returned ns, w') →
  dom ns = list_to_set attribute_names.
Proof.
  intros (st & Hloop & <-)%parse_args_returned.
  pose proof initial_attributes as Hinit. revert Hinit Hloop.
  generalize (initial_namespace create_analyze_parser). intros ns0 Hinit Hloop.
  refine (consume_optionals_invariant create_analyze_parser
            (λ st, dom (namespace st) = list_to_set attribute_names)
            args _ (mkState ns0 [] []) w st w' Hinit Hloop).
  clear. intros st o argument w st' w' Hdom _
    [(_ & -> & _)|(a & Hfind & Htake & _)]%consume_optional_returned; [exact Hdom|].
  apply take_action_returned in Htake as (values & _ & _ & Hcall & _).
  rewrite (call_dom _ _ _ _ _ _ Hcall), Hdom.
  apply find_action_elem in Hfind as [Ha _].
  pose proof (proj1 (Forall_forall _ _) attribute_facts a Ha (call_help _ _ _ _ _ _ Hcall))
    as Hin.
  apply subseteq_union_1_L, singleton_subseteq_l, elem_of_list_to_set, Hin.
Qed.

(** *** The checker names *)

Lemma join_split sep s : str.join (String sep "") (str.split sep s) = s.
Proof.
  unfold str.join. induction s as [|c s IH]; [done|]. cbn [str.split].
  destruct (Ascii.eqb c sep) eqn:Hc.
  - apply Ascii.eqb_eq in Hc as ->.
    pose proof (split_nonempty sep s) as Hne.
    destruct (str.split sep s) as [|w ws]; [done|].
    cbn [String.concat] in *. by rewrite IH.
  - pose proof (split_nonempty sep s) as Hne.
    destruct (str.split sep s) as [|w ws]; [done|].
    destruct ws as [|w' ws]; cbn [String.concat] in *; by rewrite <- IH.
Qed.

Lemma join_app sep (l1 l2 : list string) :
  l1 ≠ [] → l2 ≠ [] →
  str.join sep (l1 ++ l2) = str.join sep l1 +:+ sep +:+ str.join sep l2.
Proof.
  unfold str.join. intros Hl1 Hl2. induction l1 as [|w l1 IH]; [done|].
  destruct l1 as [|w' l1].
  - destruct l2; done.
  - cbn [app String.concat] in *. rewrite IH by done. by rewrite !str_app_assoc.
Qed.

Lemma join_bind_split sep (values : list string) :
  values ≠ [] →
  str.join (String sep "") (values ≫= str.split sep) = str.join (String sep "") values.
Proof.
  induction values as [|v values IH]; [done|]. intros _.
  destruct values as [|v' values].
  - rewrite bind_singleton. apply join_split.
  - rewrite bind_cons, join_app, IH, join_split; [done|done|apply split_nonempty|].
    rewrite bind_cons. intros [Hnil _]%app_eq_nil. by apply split_nonempty in Hnil.
Qed.

(** X11. After a parse that returns, when a checker flag was given, its
    attribute is a list of names none of which holds a comma, and joining
    the names with commas gives the arguments of the flag joined with
    commas: splitting loses nothing of what was given. *)
Theorem checker_names (flags : list string) (dest_ : string)
    (args : list occurrence) (w w' : World) (ns : Namespace) :
  (flags, dest_) ∈ checker_options →
  parse_args create_analyze_parser args w = (Returned ns, w') →
  arguments_of flags args ≠ [] →
  ∃ names, ns !! dest_ = Some (VList names)
           ∧ Forall (λ name, contains "," name = false) names
           ∧ str.join "," names = str.join "," (arguments_of flags args).
Proof.
  intros Hopt Hparse Hgiven.
  rewrite (parse_args_checker flags dest_ args w ns w' Hopt Hparse).
  clear Hparse. unfold accumulated.
  destruct (arguments_of flags args) as [|v values] eqn:Hvalues; [done|].
  exists ((v :: values) ≫= str.split ","). split; [done|]. split.
  - apply Forall_bind, Forall_forall. intros s _. apply split_no_sep.
  - by apply join_bind_split.
Qed.

End attributes.

(** ** The two listings together *)



(** ** The failures of the normaliser *)

Section failures.
Context `{Environment}.

(** Drawing the absolute forms fails on the first entry that is not a
    string, and only there. *)
Lemma generate_abspath_cases (entries : list Value) w :
  (∃ excludes, entries = VStr <$> excludes)
  ∨ (generate abspath_of entries w = (Raised TypeError, w)
     ∧ ∃ entry, entry ∈ entries ∧ ∀ s, entry ≠ VStr s).
Proof.
  induction entries as [|entry entries IH]; [left; by exists []|].
  assert ((∃ s, entry = VStr s) ∨ ∀ s, entry ≠ VStr s) as [[s ->]|Hentry]
    by (destruct entry; try (by right); left; by eexists).
  - destruct IH as [[excludes ->]|(Hrest & entry & Hin & Hentry)].
    + left. by exists (s :: excludes).
    + right. split.
      * cbn [generate]. erewrite bind_returned by reflexivity.
        by rewrite (bind_raised _ _ _ _ _ Hrest).
      * exists entry. split; [by right|done].
  - right. split.
    + cbn [generate]. apply bind_raised.
      destruct entry; try done. by destruct (Hentry s).
    + exists entry. split; [by left|done].
Qed.

(** X13. Take a namespace whose excluded directories, when they are
    strings, are absolute paths, so that none is resolved against the
    working directory.  The normaliser writes nothing and never exits.  It
    fails in three cases only: with an attribute error for [plugins] when
    the namespace has no such attribute, with an attribute error for
    [excludes] when it has [plugins] and no [excludes], and with a type
    error when [excludes] is [None], a boolean or a number, which cannot be
    iterated, or a list that holds an entry that is not a string, which is
    not a path.  It returns when [plugins] is there and [excludes] is a list
    of strings or a string. *)
Theorem normalize_failures (args : Namespace) (w : World) :
  (∀ entries s, args !! "excludes" = Some (VListOf entries) →
                VStr s ∈ entries → posixpath.isabs s = true) →
  (∀ s c, args !! "excludes" = Some (VStr s) →
          c ∈ chars s → posixpath.isabs c = true) →
  ∃ r, normalize_args_for_analyze args w = (r, w)
       ∧ match r with
         | Returned _ =>
             is_Some (args !! "plugins")
             ∧ ((∃ l, args !! "excludes" = Some (VList l))
                ∨ ∃ s, args !! "excludes" = Some (VStr s))
         | Raised e =>
             (e = AttributeError "plugins" ∧ args !! "plugins" = None)
             ∨ (e = AttributeError "excludes" ∧ is_Some (args !! "plugins")
                ∧ args !! "excludes" = None)
             ∨ (e = TypeError ∧ is_Some (args !! "plugins")
                ∧ ∃ v, args !! "excludes" = Some v
                       ∧ (v = VNone ∨ (∃ b, v = VBool b) ∨ (∃ n, v = VInt n)
                          ∨ ∃ entries entry,
                              v = VListOf entries ∧ entry ∈ entries
                              ∧ ∀ s, entry ≠ VStr s))
         end.
Proof.
  intros _ _. unfold normalize_args_for_analyze.
  destruct (args !! "plugins") as [plugins|] eqn:Hplugins.
  2:{ rewrite (bind_raised _ _ _ _ _ (getattr_None _ _ _ Hplugins)).
      eexists. split; [done|]. by left. }
  rewrite (bind_returned _ _ _ _ _ (getattr_Some _ _ _ _ Hplugins)).
  assert ((if is_None plugins then setattr args "plugins" (VList []) else args)
          !! "excludes" = args !! "excludes") as Hsame.
  { destruct (is_None plugins); [|done]. unfold setattr. by rewrite lookup_insert_ne. }
  destruct (args !! "excludes") as [excludes|] eqn:Hexcludes.
  2:{ rewrite (bind_raised _ _ _ _ _ (getattr_None _ _ _ Hsame)).
      eexists. split; [done|]. right. left. split; [done|]. split; [by eexists|done]. }
  rewrite (bind_returned _ _ _ _ _ (getattr_Some _ _ _ _ Hsame)).
  destruct excludes as [|b|n|s|entries].
  - eexists. split; [done|]. right. right.
    split; [done|]. split; [by eexists|]. eexists. split; [done|]. by left.
  - eexists. split; [done|]. right. right.
    split; [done|]. split; [by eexists|]. eexists. split; [done|]. right. left. by eexists.
  - eexists. split; [done|]. right. right.
    split; [done|]. split; [by eexists|]. eexists. split; [done|].
    right. right. left. by eexists.
  - erewrite bind_returned by reflexivity.
    rewrite (bind_returned _ _ _ _ _ (generate_abspath (chars s) w)).
    eexists. split; [done|]. split; [by eexists|]. right. by eexists.
  - erewrite bind_returned by reflexivity.
    destruct (generate_abspath_cases entries w)
      as [[excludes ->]|(Hfail & entry & Hin & Hentry)].
    + rewrite (bind_returned _ _ _ _ _ (generate_abspath excludes w)).
      eexists. split; [done|]. split; [by eexists|]. left. by exists excludes.
    + rewrite (bind_raised _ _ _ _ _ Hfail).
      eexists. split; [done|]. right. right.
      split; [done|]. split; [by eexists|]. eexists. split; [done|].
      right. right. right. by exists entries, entry.
Qed.

End failures.

(** ** The entry point *)

Section entry_point.
Import argparse.
Context `{Environment} `{HelpFormatter} `{Logging}.

(** Arguments other than the bare [--] are handed as they are. *)
Lemma handed_fmap (given : list string) :
  Forall (λ s, s ≠ "--") given → handed VStr <$> given = VStr <$> given.
Proof.
  induction 1 as [|s given Hs _ IH]; [done|]. rewrite !fmap_cons, IH. f_equal.
  unfold handed. by rewrite (proj2 (String.eqb_neq _ _) Hs).
Qed.

Lemma handed_strings (given excludes : list string) :
  handed VStr <$> given = VStr <$> excludes →
  Forall (λ s, s ≠ "--") given ∧ excludes = given.
Proof.
  revert excludes. induction given as [|s given IH]; intros [|e excludes]; try done.
  rewrite !fmap_cons. unfold handed at 1.
  destruct (String.eqb s "--") eqn:Hs; [done|]. intros [= <- Hrest].
  destruct (IH _ Hrest) as [Hgiven ->]. split; [|done].
  constructor; [by apply String.eqb_neq|done].
Qed.

Lemma handed_last (given : list string) (initial : string) :
  last given ≠ Some "--" →
  from_option (handed VStr) (VStr initial) (last given)
  = VStr (from_option id initial (last given)).
Proof.
  destruct (last given) as [s|]; [|done]. intros Hs. cbn [from_option]. unfold handed.
  rewrite (proj2 (String.eqb_neq s "--")); [done|]. intros ->. by apply Hs.
Qed.

Lemma isabs_plain (given : list string) :
  Forall (λ s, posixpath.isabs s = true) given → Forall (λ s, s ≠ "--") given.
Proof. intros Habs. eapply Forall_impl; [exact Habs|]. by intros s Hs ->. Qed.

(** The attributes the entry point reads after a parse that returns. *)
Lemma parse_args_entry args w ns w' :
  parse_args create_analyze_parser args w = (Returned ns, w') →
  ns !! "verbose" = Some (VInt (Z.of_nat (occurrences ["--verbose"; "-v"] args)))
  ∧ ns !! "help_checkers_verbose"
    = Some (VBool (given ["--help-checkers-verbose"] args))
  ∧ ns !! "help_checkers" = Some (VBool (given ["--help-checkers"] args))
  ∧ ns !! "cdb"
    = Some (from_option (handed VStr) (VStr "compile_commands.json")
              (last (arguments_of ["--cdb"] args)))
  ∧ ns !! "plugins"
    = Some (match arguments_of ["--load-plugin"; "-load-plugin"] args with
            | [] => VNone
            | given => VListOf (handed VStr <$> given)
            end)
  ∧ ns !! "excludes" = Some (VListOf (handed VStr <$> arguments_of ["--exclude"] args))
  ∧ ns !! "clang"
    = Some (from_option (handed VStr) (VStr "clang")
              (last (arguments_of ["--use-analyzer"] args))).
Proof.
  intros Hparse. split; [|split; [|split; [|split; [|split; [|split]]]]].
  - apply (count_parse ["--verbose"; "-v"] "verbose" 0 args w ns w');
      [apply (bool_decide_unpack _); by vm_compute
      |apply (bool_decide_unpack _); by vm_compute
      |apply (bool_decide_unpack _); by vm_compute
      |by vm_compute
      |exact Hparse].
  - rewrite (switch_parse ["--help-checkers-verbose"] "help_checkers_verbose" true
               args w ns w');
      [clear Hparse; by destruct (given _ _)
      |apply (bool_decide_unpack _); by vm_compute
      |apply (bool_decide_unpack _); by vm_compute
      |apply (bool_decide_unpack _); by vm_compute
      |by vm_compute
      |exact Hparse].
  - rewrite (switch_parse ["--help-checkers"] "help_checkers" true args w ns w');
      [clear Hparse; by destruct (given _ _)
      |apply (bool_decide_unpack _); by vm_compute
      |apply (bool_decide_unpack _); by vm_compute
      |apply (bool_decide_unpack _); by vm_compute
      |by vm_compute
      |exact Hparse].
  - rewrite (store_parse ["--cdb"] "cdb" None (VStr "compile_commands.json")
               args w ns w');
      [reflexivity
      |apply (bool_decide_unpack _); by vm_compute
      |apply (bool_decide_unpack _); by vm_compute
      |apply (bool_decide_unpack _); by vm_compute
      |by vm_compute
      |exact Hparse].
  - apply (append_parse ["--load-plugin"; "-load-plugin"] "plugins" VNone
             args w ns w');
      [apply (bool_decide_unpack _); by vm_compute
      |apply (bool_decide_unpack _); by vm_compute
      |apply (bool_decide_unpack _); by vm_compute
      |by vm_compute
      |by left
      |exact Hparse].
  - rewrite (append_parse ["--exclude"] "excludes" (VListOf []) args w ns w');
      [clear Hparse; by destruct (arguments_of _ _)
      |apply (bool_decide_unpack _); by vm_compute
      |apply (bool_decide_unpack _); by vm_compute
      |apply (bool_decide_unpack _); by vm_compute
      |by vm_compute
      |by right
      |exact Hparse].
  - rewrite (store_parse ["--use-analyzer"] "clang" None (VStr "clang") args w ns w');
      [reflexivity
      |apply (bool_decide_unpack _); by vm_compute
      |apply (bool_decide_unpack _); by vm_compute
      |apply (bool_decide_unpack _); by vm_compute
      |by vm_compute
      |exact Hparse].
Qed.

(** The namespace of the parser after the normaliser, when no excluded
    directory is the bare [--]. *)
Lemma normalize_parsed args w ns w' :
  parse_args create_analyze_parser args w = (Returned ns, w') →
  Forall (λ s, s ≠ "--") (arguments_of ["--exclude"] args) →
  ∀ w1, ∃ ns',
    normalize_args_for_analyze ns w1 = (Returned ns', w1)
    ∧ ns' !! "plugins"
      = Some (VListOf (handed VStr <$> arguments_of ["--load-plugin"; "-load-plugin"] args))
    ∧ ns' !! "excludes"
      = Some (VList (list_of_set
                       (os_path_abspath <$> arguments_of ["--exclude"] args)))
    ∧ ∀ name, name ≠ "plugins" → name ≠ "excludes" → ns' !! name = ns !! name.
Proof.
  intros (_ & _ & _ & _ & Hplugins & Hexcludes & _)%parse_args_entry Hplain w1.
  rewrite (handed_fmap _ Hplain) in Hexcludes.
  eexists. split; [by apply (normalize_run ns _ _ w1 Hplugins Hexcludes)|].
  split; [|split].
  - rewrite lookup_insert_ne by done.
    destruct (arguments_of ["--load-plugin"; "-load-plugin"] args); cbn [is_None].
    + apply lookup_insert_eq.
    + done.
  - apply lookup_insert_eq.
  - intros name Hn1 Hn2. rewrite lookup_insert_ne by done.
    destruct (is_None _); [|done]. by rewrite lookup_insert_ne.
Qed.

(** The normaliser returns on the namespace of the parser only when no
    excluded directory is the bare [--]. *)
Lemma normalize_plain args w ns w' w1 ns' w2 :
  parse_args create_analyze_parser args w = (Returned ns, w') →
  normalize_args_for_analyze ns w1 = (Returned ns', w2) →
  Forall (λ s, s ≠ "--") (arguments_of ["--exclude"] args).
Proof.
  intros (_ & _ & _ & _ & _ & Hexcludes & _)%parse_args_entry
         (plugins & excludes & entries & paths & _ & Hsome & Hiter & Hpaths & _)
           %normalize_returned.
  rewrite Hexcludes in Hsome. injection Hsome as <-.
  injection Hiter as <-.
  destruct (generate_abspath_cases
              (handed VStr <$> arguments_of ["--exclude"] args) w1)
    as [[strings Hstrings]|[Hfail _]].
  - by apply handed_strings in Hstrings as [? _].
  - by rewrite Hfail in Hpaths.
Qed.

(** The validator returns only past its three checks. *)
Lemma validate_returned parser (args : Namespace) w w' :
  validate_args_for_analyze parser args w = (Returned tt, w') →
  ∃ verbose active cdb,
    args !! "help_checkers_verbose" = Some verbose ∧ truthy verbose = false
    ∧ args !! "help_checkers" = Some active ∧ truthy active = false
    ∧ args !! "cdb" = Some cdb
    ∧ os_path_exists cdb w = (Returned true, w)
    ∧ w' = w.
Proof.
  assert (∀ (print_them : Checkers → Py unit) w0 w1,
            (clang ← getattr args "clang";
             plugins ← getattr args "plugins";
             checkers ← get_checkers clang plugins;
             print_them checkers;;
             exit (A:=unit) 0 None) w0 ≠ (Returned tt, w1)) as Hexit.
  { intros print_them w0 w1 (clang & w2 & _ & Hrun)%bind_returned_inv.
    apply bind_returned_inv in Hrun as (plugins & w3 & _ & Hrun).
    apply bind_returned_inv in Hrun as (checkers & w4 & _ & Hrun).
    by apply bind_returned_inv in Hrun as (u & w5 & _ & Hrun). }
  unfold validate_args_for_analyze.
  intros (verbose & w1 & Hverbose & Hrun)%bind_returned_inv.
  unfold getattr in Hverbose.
  destruct (args !! "help_checkers_verbose") as [v1|]; [|done].
  injection Hverbose as -> <-.
  destruct (truthy verbose) eqn:Hv1; [by apply Hexit in Hrun|].
  apply bind_returned_inv in Hrun as (active & w2 & Hactive & Hrun).
  unfold getattr in Hactive.
  destruct (args !! "help_checkers") as [v2|]; [|done].
  injection Hactive as -> <-.
  destruct (truthy active) eqn:Hv2; [by apply Hexit in Hrun|].
  apply bind_returned_inv in Hrun as (cdb & w3 & Hcdb & Hrun).
  unfold getattr in Hcdb.
  destruct (args !! "cdb") as [v3|]; [|done].
  injection Hcdb as -> <-.
  apply bind_returned_inv in Hrun as (found & w4 & Hfound & Hrun).
  assert (w4 = w) as ->.
  { unfold os_path_exists in Hfound.
    destruct cdb; try case_bool_decide; try done; by injection Hfound. }
  destruct found; cbn [negb] in Hrun.
  - injection Hrun as <-. by exists verbose, active, cdb.
  - by rewrite error_run in Hrun.
Qed.

Lemma validate_run parser (args : Namespace) cdb w :
  args !! "help_checkers_verbose" = Some (VBool false) →
  args !! "help_checkers" = Some (VBool false) →
  args !! "cdb" = Some (VStr cdb) →
  exists_on_disk cdb = true →
  validate_args_for_analyze parser args w = (Returned tt, w).
Proof.
  intros Hverbose Hactive Hcdb Hfound. unfold validate_args_for_analyze.
  rewrite (bind_returned _ _ _ _ _ (getattr_Some _ _ _ w Hverbose)). cbn [truthy].
  rewrite (bind_returned _ _ _ _ _ (getattr_Some _ _ _ w Hactive)). cbn [truthy].
  rewrite (bind_returned _ _ _ _ _ (getattr_Some _ _ _ w Hcdb)).
  unfold os_path_exists, mbind, Py_bind, mret, Py_ret. by rewrite Hfound.
Qed.

(** X14. When the entry point returns, neither checker-help flag is on the
    command line, the compilation database (the last argument of [--cdb],
    which is not the bare [--], or [compile_commands.json]) exists, and no
    argument of [--exclude] is the bare [--]; the namespace returned has
    that path in [cdb], in [plugins] the list of what [--load-plugin] was
    handed for each of its arguments (the argument, or the empty list for
    the bare [--]), never [None], and in [excludes] a list without
    duplicates of the absolute forms of the arguments of [--exclude]. *)
Theorem entry_point_returned (argv : list occurrence) (w w' : World) (ns : Namespace) :
  parse_args_for_analyze_build argv w = (Returned ns, w') →
  given ["--help-checkers-verbose"] argv = false
  ∧ given ["--help-checkers"] argv = false
  ∧ last (arguments_of ["--cdb"] argv) ≠ Some "--"
  ∧ exists_on_disk (from_option id "compile_commands.json" (last (arguments_of ["--cdb"] argv)))
    = true
  ∧ ns !! "cdb"
    = Some (VStr (from_option id "compile_commands.json" (last (arguments_of ["--cdb"] argv))))
  ∧ ns !! "plugins"
    = Some (VListOf (handed VStr <$> arguments_of ["--load-plugin"; "-load-plugin"] argv))
  ∧ Forall (λ s, s ≠ "--") (arguments_of ["--exclude"] argv)
  ∧ ∃ excludes,
      ns !! "excludes" = Some (VList excludes)
      ∧ NoDup excludes
      ∧ ∀ p, p ∈ excludes
             ↔ ∃ entry, entry ∈ arguments_of ["--exclude"] argv
                        ∧ p = os_path_abspath entry.
Proof.
  unfold parse_args_for_analyze_build. cbv zeta.
  intros (parsed & w1 & Hparse & Hrun)%bind_returned_inv.
  apply bind_returned_inv in Hrun as (verbose & w2 & _ & Hrun).
  apply bind_returned_inv in Hrun as (u1 & w3 & _ & Hrun).
  apply bind_returned_inv in Hrun as (u2 & w4 & _ & Hrun).
  apply bind_returned_inv in Hrun as (args & w5 & Hnormalize & Hrun).
  apply bind_returned_inv in Hrun as ([] & w6 & Hvalidate & Hrun).
  apply bind_returned_inv in Hrun as (u3 & w7 & _ & [= <- <-]).
  pose proof (normalize_plain _ _ _ _ _ _ _ Hparse Hnormalize) as Hplain.
  destruct (normalize_parsed _ _ _ _ Hparse Hplain w4)
    as (args' & Hrun & Hplugins & Hexcludes & Hframe).
  rewrite Hrun in Hnormalize. injection Hnormalize as -> <-.
  apply validate_returned in Hvalidate
    as (v1 & v2 & cdb & Hv1 & Ht1 & Hv2 & Ht2 & Hcdb & Hfound & _).
  pose proof (parse_args_entry _ _ _ _ Hparse) as (_ & Hp1 & Hp2 & Hp3 & _).
  rewrite Hframe, Hp1 in Hv1 by done. rewrite Hframe, Hp2 in Hv2 by done.
  rewrite Hframe, Hp3 in Hcdb by done.
  injection Hv1 as <-. injection Hv2 as <-. injection Hcdb as <-.
  assert (last (arguments_of ["--cdb"] argv) ≠ Some "--") as Hlast.
  { intros Heq. by rewrite Heq in Hfound. }
  rewrite (handed_last _ _ Hlast) in Hfound.
  split; [exact Ht1|split; [exact Ht2|split; [exact Hlast|split; [|split; [|split; [|split]]]]]].
  - unfold os_path_exists, mret, Py_ret in Hfound. by injection Hfound.
  - by rewrite Hframe, Hp3, (handed_last _ _ Hlast).
  - exact Hplugins.
  - exact Hplain.
  - eexists. split; [exact Hexcludes|]. split; [apply list_of_set_NoDup|].
    apply excludes_elem.
Qed.

(** X15. When logging does not fail, the entry point returns on every
    command line the parser takes that has no checker-help flag, whose
    compilation database (the last argument of [--cdb], not the bare [--],
    or [compile_commands.json]) exists, and whose excluded directories are
    given as absolute paths, so that none is resolved against the working
    directory. *)
Theorem entry_point_returns (argv : list occurrence) (w : World) :
  (∀ level w, ∃ w', reconfigure_logging level w = (Returned tt, w')) →
  (∀ format object w, ∃ w', logging_debug format object w = (Returned tt, w')) →
  well_formed argv →
  given ["--help-checkers-verbose"] argv = false →
  given ["--help-checkers"] argv = false →
  last (arguments_of ["--cdb"] argv) ≠ Some "--" →
  exists_on_disk (from_option id "compile_commands.json" (last (arguments_of ["--cdb"] argv)))
  = true →
  Forall (λ entry, posixpath.isabs entry = true) (arguments_of ["--exclude"] argv) →
  ∃ ns w', parse_args_for_analyze_build argv w = (Returned ns, w').
Proof.
  intros Hreconfigure Hdebug Hargv Hverbose Hactive Hlast Hfound Habs%isabs_plain.
  destruct (well_formed_parse argv w Hargv) as [parsed Hparse].
  pose proof (parse_args_entry _ _ _ _ Hparse) as (Hp0 & Hp1 & Hp2 & Hp3 & _).
  rewrite Hverbose in Hp1. rewrite Hactive in Hp2. rewrite (handed_last _ _ Hlast) in Hp3.
  unfold parse_args_for_analyze_build. cbv zeta.
  rewrite (bind_returned _ _ _ _ _ Hparse).
  rewrite (bind_returned _ _ _ _ _ (getattr_Some _ _ _ w Hp0)).
  destruct (Hreconfigure (VInt (Z.of_nat (occurrences ["--verbose"; "-v"] argv))) w)
    as [w1 Hrun1].
  rewrite (bind_returned _ _ _ _ _ Hrun1).
  destruct (Hdebug "Raw arguments %s" (inl argv) w1) as [w2 Hrun2].
  rewrite (bind_returned _ _ _ _ _ Hrun2).
  destruct (normalize_parsed _ _ _ _ Hparse Habs w2) as (args & Hrun3 & _ & _ & Hframe).
  rewrite (bind_returned _ _ _ _ _ Hrun3).
  rewrite <- Hframe in Hp1, Hp2, Hp3 by done.
  rewrite (bind_returned _ _ _ _ _
             (validate_run create_analyze_parser args _ w2 Hp1 Hp2 Hp3 Hfound)).
  destruct (Hdebug "Parsed arguments: %s" (inr args) w2) as [w3 Hrun4].
  rewrite (bind_returned _ _ _ _ _ Hrun4). by eexists _, _.
Qed.

(** The validator, case by case. *)
Lemma validate_cases parser (args : Namespace) (verbose active : bool)
    (clang plugins cdb : Value) w :
  args !! "help_checkers_verbose" = Some (VBool verbose) →
  args !! "help_checkers" = Some (VBool active) →
  args !! "clang" = Some clang →
  args !! "plugins" = Some plugins →
  args !! "cdb" = Some cdb →
  validate_args_for_analyze parser args w
  = if verbose || active then
      match get_checkers clang plugins w with
      | (Returned checkers, w1) =>
          (Raised (SystemExit 0),
           ((if verbose then print_checkers checkers
             else print_active_checkers checkers) w1).2)
      | (Raised e, w1) => (Raised e, w1)
      end
    else
      match os_path_exists cdb w with
      | (Returned true, _) => (Returned tt, w)
      | (Returned false, _) =>
          (Raised (SystemExit 2),
           mkWorld (stdout w)
                   (stderr w +:+ format_usage parser +:+ prog parser
                    +:+ ": error: compilation database is missing" +:+ nl))
      | (Raised e, _) => (Raised e, w)
      end.
Proof.
  intros Hverbose Hactive Hclang Hplugins Hcdb. unfold validate_args_for_analyze.
  rewrite (bind_returned _ _ _ _ _ (getattr_Some _ _ _ w Hverbose)). cbn [truthy].
  destruct verbose; cbn [orb].
  { rewrite (bind_returned _ _ _ _ _ (getattr_Some _ _ _ w Hclang)).
    rewrite (bind_returned _ _ _ _ _ (getattr_Some _ _ _ w Hplugins)).
    destruct (get_checkers clang plugins w) as [[checkers|e] w1] eqn:Hget.
    - rewrite (bind_returned _ _ _ _ _ Hget).
      rewrite (bind_returned _ _ _ _ _ (print_checkers_run checkers w1)).
      rewrite exit_run. by rewrite print_checkers_run.
    - by rewrite (bind_raised _ _ _ _ _ Hget). }
  rewrite (bind_returned _ _ _ _ _ (getattr_Some _ _ _ w Hactive)). cbn [truthy].
  destruct active.
  { rewrite (bind_returned _ _ _ _ _ (getattr_Some _ _ _ w Hclang)).
    rewrite (bind_returned _ _ _ _ _ (getattr_Some _ _ _ w Hplugins)).
    destruct (get_checkers clang plugins w) as [[checkers|e] w1] eqn:Hget.
    - rewrite (bind_returned _ _ _ _ _ Hget).
      rewrite (bind_returned _ _ _ _ _ (print_active_checkers_run checkers w1)).
      rewrite exit_run. by rewrite print_active_checkers_run.
    - by rewrite (bind_raised _ _ _ _ _ Hget). }
  rewrite (bind_returned _ _ _ _ _ (getattr_Some _ _ _ w Hcdb)).
  assert (∀ w0 r w1, os_path_exists cdb w0 = (r, w1) → w1 = w0) as Hworld.
  { intros w0 r w1. unfold os_path_exists.
    destruct cdb; try case_bool_decide; by intros [= _ <-]. }
  destruct (os_path_exists cdb w) as [[[]|e] w1] eqn:Hfound;
    pose proof (Hworld _ _ _ Hfound) as ->.
  - by rewrite (bind_returned _ _ _ _ _ Hfound).
  - rewrite (bind_returned _ _ _ _ _ Hfound). apply error_run.
  - by rewrite (bind_raised _ _ _ _ _ Hfound).
Qed.

(** The entry point up to the validator, on a command line the parser
    takes. *)
Lemma entry_point_steps argv w w1 w2 :
  well_formed argv →
  Forall (λ s, s ≠ "--") (arguments_of ["--exclude"] argv) →
  reconfigure_logging (VInt (Z.of_nat (occurrences ["--verbose"; "-v"] argv))) w
  = (Returned tt, w1) →
  logging_debug "Raw arguments %s" (inl argv) w1 = (Returned tt, w2) →
  ∃ args : Namespace,
    args !! "help_checkers_verbose"
    = Some (VBool (given ["--help-checkers-verbose"] argv))
    ∧ args !! "help_checkers" = Some (VBool (given ["--help-checkers"] argv))
    ∧ args !! "clang"
      = Some (from_option (handed VStr) (VStr "clang")
                (last (arguments_of ["--use-analyzer"] argv)))
    ∧ args !! "plugins"
      = Some (VListOf (handed VStr <$> arguments_of ["--load-plugin"; "-load-plugin"] argv))
    ∧ args !! "cdb"
      = Some (from_option (handed VStr) (VStr "compile_commands.json")
                (last (arguments_of ["--cdb"] argv)))
    ∧ parse_args_for_analyze_build argv w
      = (validate_args_for_analyze create_analyze_parser args;;
         logging_debug "Parsed arguments: %s" (inr args);;
         mret args) w2.
Proof.
  intros Hargv Hplain Hrun1 Hrun2.
  destruct (well_formed_parse argv w Hargv) as [parsed Hparse].
  pose proof (parse_args_entry _ _ _ _ Hparse) as (Hp0 & Hp1 & Hp2 & Hp3 & _ & _ & Hp4).
  destruct (normalize_parsed _ _ _ _ Hparse Hplain w2)
    as (args & Hrun3 & Hplugins & _ & Hframe).
  exists args. rewrite <- Hframe in Hp1, Hp2, Hp3, Hp4 by done.
  split; [exact Hp1|]. split; [exact Hp2|]. split; [exact Hp4|].
  split; [exact Hplugins|]. split; [exact Hp3|].
  unfold parse_args_for_analyze_build. cbv zeta.
  rewrite (bind_returned _ _ _ _ _ Hparse).
  rewrite (bind_returned _ _ _ _ _ (getattr_Some _ _ _ w Hp0)).
  rewrite (bind_returned _ _ _ _ _ Hrun1).
  rewrite (bind_returned _ _ _ _ _ Hrun2).
  by rewrite (bind_returned _ _ _ _ _ Hrun3).
Qed.

(** X16. With a checker-help flag on a command line the parser takes,
    whose excluded directories are given as absolute paths, the entry point
    sets up logging with the count of [--verbose] and [-v], logs the command
    line, and asks for the checkers with what the parser left in [clang]
    (the last argument of [--use-analyzer], the empty list when that is the
    bare [--], [clang] by default) and the list of what [--load-plugin] was
    handed for each of its arguments, which is a list even when there is
    none.  When it gets them, it prints the verbose listing if
    [--help-checkers-verbose] is given, else the active listing, and exits
    with status 0, whether the compilation database exists or not; a failure
    to get them is passed on. *)
Theorem entry_point_lists (argv : list occurrence) (w w1 w2 : World) :
  well_formed argv →
  Forall (λ entry, posixpath.isabs entry = true) (arguments_of ["--exclude"] argv) →
  reconfigure_logging (VInt (Z.of_nat (occurrences ["--verbose"; "-v"] argv))) w
  = (Returned tt, w1) →
  logging_debug "Raw arguments %s" (inl argv) w1 = (Returned tt, w2) →
  given ["--help-checkers-verbose"] argv || given ["--help-checkers"] argv = true →
  parse_args_for_analyze_build argv w
  = match get_checkers
            (from_option (handed VStr) (VStr "clang")
               (last (arguments_of ["--use-analyzer"] argv)))
            (VListOf (handed VStr <$> arguments_of ["--load-plugin"; "-load-plugin"] argv))
            w2 with
    | (Returned checkers, w3) =>
        (Raised (SystemExit 0),
         ((if given ["--help-checkers-verbose"] argv then print_checkers checkers
           else print_active_checkers checkers) w3).2)
    | (Raised e, w3) => (Raised e, w3)
    end.
Proof.
  intros Hargv Habs%isabs_plain Hrun1 Hrun2 Hgiven.
  destruct (entry_point_steps argv w w1 w2 Hargv Habs Hrun1 Hrun2)
    as (args & Hverbose & Hactive & Hclang & Hplugins & Hcdb & ->).
  pose proof (validate_cases create_analyze_parser args _ _ _ _ _ w2
                Hverbose Hactive Hclang Hplugins Hcdb) as Hvalidate.
  rewrite Hgiven in Hvalidate.
  destruct (get_checkers _ _ w2) as [[checkers|e] w3];
    by rewrite (bind_raised _ _ _ _ _ Hvalidate).
Qed.

(** X17. Without a checker-help flag, on a command line the parser takes,
    whose excluded directories are given as absolute paths and whose
    compilation database (the last argument of [--cdb], not the bare [--],
    or [compile_commands.json]) does not exist, the entry point sets up
    logging, logs the command line, and then writes the usage and the
    message [compilation database is missing] on standard error and exits
    with status 2. *)
Theorem entry_point_missing_cdb (argv : list occurrence) (w w1 w2 : World) :
  well_formed argv →
  Forall (λ entry, posixpath.isabs entry = true) (arguments_of ["--exclude"] argv) →
  reconfigure_logging (VInt (Z.of_nat (occurrences ["--verbose"; "-v"] argv))) w
  = (Returned tt, w1) →
  logging_debug "Raw arguments %s" (inl argv) w1 = (Returned tt, w2) →
  given ["--help-checkers-verbose"] argv = false →
  given ["--help-checkers"] argv = false →
  last (arguments_of ["--cdb"] argv) ≠ Some "--" →
  exists_on_disk (from_option id "compile_commands.json" (last (arguments_of ["--cdb"] argv)))
  = false →
  parse_args_for_analyze_build argv w
  = (Raised (SystemExit 2),
     mkWorld (stdout w2)
             (stderr w2 +:+ format_usage create_analyze_parser
              +:+ prog create_analyze_parser
              +:+ ": error: compilation database is missing" +:+ nl)).
Proof.
  intros Hargv Habs%isabs_plain Hrun1 Hrun2 Hverbose Hactive Hlast Hmissing.
  destruct (entry_point_steps argv w w1 w2 Hargv Habs Hrun1 Hrun2)
    as (args & Hv & Ha & Hclang & Hplugins & Hcdb & ->).
  pose proof (validate_cases create_analyze_parser args _ _ _ _ _ w2
                Hv Ha Hclang Hplugins Hcdb) as Hvalidate.
  rewrite Hverbose, Hactive, (handed_last _ _ Hlast) in Hvalidate.
  cbn [orb os_path_exists mret Py_ret] in Hvalidate. rewrite Hmissing in Hvalidate.
  by rewrite (bind_raised _ _ _ _ _ Hvalidate).
Qed.

End entry_point.

(** ** The properties on the example command line *)

Lemma returned_run (c : Py Namespace) :
  match c w0 with
  | (Returned _, w) => w = w0
  | (Raised _, _) => False
  end →
  c w0 = (Returned (returned c), w0).
Proof. unfold returned. destruct (c w0) as [[ns|e] w]; [by intros ->|done]. Defined.

Lemma example_argv_parsed :
  argparse.parse_args create_analyze_parser example_argv w0
  = (Returned example_parsed, w0).
Proof. apply returned_run. by vm_compute. Defined.

Lemma example_dashes_argv_parsed :
  argparse.parse_args create_analyze_parser example_dashes_argv w0
  = (Returned example_dashes_parsed, w0).
Proof. apply returned_run. by vm_compute. Defined.

Lemma verbose_counts_witness :
  argparse.parse_args create_analyze_parser example_argv w0
  = (Returned example_parsed, w0)
  ∧ example_parsed !! "verbose" = Some (VInt 2).
Proof.
  split; [apply example_argv_parsed|].
  apply (verbose_counts example_argv w0 w0 example_parsed), example_argv_parsed.
Defined.

Lemma store_options_parse_witness :
  argparse.parse_args create_analyze_parser example_dashes_argv w0
  = (Returned example_dashes_parsed, w0)
  ∧ Forall (λ '(flags, dest_, initial),
              example_dashes_parsed !! dest_
              = Some (from_option (handed VStr) initial
                        (last (arguments_of flags example_dashes_argv))))
           store_options.
Proof.
  split; [apply example_dashes_argv_parsed|].
  apply (store_options_parse example_dashes_argv w0 w0 example_dashes_parsed),
    example_dashes_argv_parsed.
Defined.

Lemma append_options_parse_witness :
  argparse.parse_args create_analyze_parser example_dashes_argv w0
  = (Returned example_dashes_parsed, w0)
  ∧ Forall (λ '(flags, dest_, initial),
              example_dashes_parsed !! dest_
              = Some (match arguments_of flags example_dashes_argv with
                      | [] => initial
                      | given => VListOf (handed VStr <$> given)
                      end))
           append_options.
Proof.
  split; [apply example_dashes_argv_parsed|].
  apply (append_options_parse example_dashes_argv w0 w0 example_dashes_parsed),
    example_dashes_argv_parsed.
Defined.

Lemma switch_options_parse_witness :
  argparse.parse_args create_analyze_parser example_argv w0
  = (Returned example_parsed, w0)
  ∧ Forall (λ '(flags, dest_, b),
              example_parsed !! dest_
              = Some (VBool (if given flags example_argv then b else negb b)))
           switch_options.
Proof.
  split; [apply example_argv_parsed|].
  apply (switch_options_parse example_argv w0 w0 example_parsed), example_argv_parsed.
Defined.

Lemma choice_options_parse_witness :
  argparse.parse_args create_analyze_parser example_dashes_argv w0
  = (Returned example_dashes_parsed, w0)
  ∧ Forall (λ '(flags, dest_, words),
              example_dashes_parsed !! dest_
              = Some (from_option (handed VStr) VNone
                        (last (arguments_of flags example_dashes_argv)))
              ∧ Forall (λ s, s = "--" ∨ s ∈ words)
                       (arguments_of flags example_dashes_argv))
           choice_options.
Proof.
  split; [apply example_dashes_argv_parsed|].
  apply (choice_options_parse example_dashes_argv w0 w0 example_dashes_parsed),
    example_dashes_argv_parsed.
Defined.

Lemma maxloop_parse_witness :
  argparse.parse_args create_analyze_parser example_argv w0
  = (Returned example_parsed, w0)
  ∧ Forall (λ s, s = "--" ∨ is_Some (int_of_str s))
           (arguments_of ["--maxloop"; "-maxloop"] example_argv)
  ∧ example_parsed !! "maxloop" = Some (VInt 4).
Proof.
  split; [apply example_argv_parsed|].
  exact (maxloop_parse example_argv w0 w0 example_parsed example_argv_parsed).
Defined.

Lemma parse_attributes_witness :
  argparse.parse_args create_analyze_parser example_argv w0
  = (Returned example_parsed, w0)
  ∧ dom example_parsed = list_to_set attribute_names.
Proof.
  split; [apply example_argv_parsed|].
  apply (parse_attributes example_argv w0 w0 example_parsed), example_argv_parsed.
Defined.

Lemma example_argv_well_formed : well_formed example_argv.
Proof.
  apply (parse_args_well_formed example_argv w0 example_parsed w0), example_argv_parsed.
Defined.

Lemma parse_args_accepts_witness :
  well_formed example_argv
  ∧ ∃ ns, argparse.parse_args create_analyze_parser example_argv w0 = (Returned ns, w0).
Proof.
  split; [apply example_argv_well_formed|].
  apply (parse_args_accepts example_argv w0), example_argv_well_formed.
Defined.

Lemma help_exits_witness :
  well_formed example_argv
  ∧ "-h" ∈ ["-h"; "--help"]
  ∧ Forall (λ o, is_Some (argparse.find_action create_analyze_parser (flag_of o)))
           [argparse.Occ "--maxloop" (Some "many"); argparse.Occ "--plist-html" None]
  ∧ argparse.parse_args create_analyze_parser
      (example_argv ++ [argparse.Occ "-h" None; argparse.Occ "--maxloop" (Some "many");
                        argparse.Occ "--plist-html" None]) w0
    = (Raised (SystemExit 0),
       mkWorld (argparse.format_help create_analyze_parser) "").
Proof.
  assert (Forall (λ o, is_Some (argparse.find_action create_analyze_parser (flag_of o)))
                 [argparse.Occ "--maxloop" (Some "many");
                  argparse.Occ "--plist-html" None]) as Hafter
    by (apply Forall_cons_2; [vm_compute; by eexists|];
        apply Forall_cons_2; [vm_compute; by eexists|]; apply Forall_nil_2).
  split; [apply example_argv_well_formed|]. split; [by left|]. split; [exact Hafter|].
  apply (help_exits example_argv
           [argparse.Occ "--maxloop" (Some "many"); argparse.Occ "--plist-html" None]
           "-h" w0).
  - apply example_argv_well_formed.
  - by left.
  - exact Hafter.
Defined.

Lemma checker_names_witness :
  (["--enable-checker"; "-enable-checker"], "enable_checker") ∈ checker_options
  ∧ argparse.parse_args create_analyze_parser example_argv w0
    = (Returned example_parsed, w0)
  ∧ arguments_of ["--enable-checker"; "-enable-checker"] example_argv ≠ []
  ∧ ∃ names, example_parsed !! "enable_checker" = Some (VList names)
             ∧ Forall (λ name, contains "," name = false) names
             ∧ str.join "," names
               = str.join "," (arguments_of ["--enable-checker"; "-enable-checker"]
                                 example_argv).
Proof.
  split; [by left|]. split; [apply example_argv_parsed|]. split; [by vm_compute|].
  apply (checker_names ["--enable-checker"; "-enable-checker"] "enable_checker"
           example_argv w0 w0 example_parsed).
  - by left.
  - apply example_argv_parsed.
  - by vm_compute.
Defined.

Lemma normalize_failures_witness :
  (∀ entries s, example_nested !! "excludes" = Some (VListOf entries) →
                VStr s ∈ entries → posixpath.isabs s = true)
  ∧ (∀ s c, example_nested !! "excludes" = Some (VStr s) →
            c ∈ chars s → posixpath.isabs c = true)
  ∧ normalize_args_for_analyze example_nested w0 = (Raised TypeError, w0).
Proof.
  assert (∀ entries s, example_nested !! "excludes" = Some (VListOf entries) →
                       VStr s ∈ entries → posixpath.isabs s = true) as Hentries.
  { intros entries s [= <-] [[= ->]|[[=]|[]%elem_of_nil]%elem_of_cons]%elem_of_cons.
    reflexivity. }
  assert (∀ s c, example_nested !! "excludes" = Some (VStr s) →
                 c ∈ chars s → posixpath.isabs c = true) as Hchars
    by (intros s c [=]).
  split; [exact Hentries|]. split; [exact Hchars|].
  destruct (normalize_failures example_nested w0 Hentries Hchars) as (r & Hrun & _).
  rewrite Hrun. f_equal. revert Hrun. by vm_compute; intros [= <-].
Defined.

Lemma example_build_argv_well_formed : well_formed example_build_argv.
Proof.
  apply (parse_args_well_formed example_build_argv w0
           (returned (argparse.parse_args create_analyze_parser example_build_argv)) w0),
    returned_run.
  by vm_compute.
Defined.

Lemma entry_point_returned_witness :
  parse_args_for_analyze_build example_build_argv w0
  = (Returned (returned (parse_args_for_analyze_build example_build_argv)), w0)
  ∧ given ["--help-checkers-verbose"] example_build_argv = false
  ∧ given ["--help-checkers"] example_build_argv = false
  ∧ last (arguments_of ["--cdb"] example_build_argv) ≠ Some "--"
  ∧ exists_on_disk
      (from_option id "compile_commands.json"
         (last (arguments_of ["--cdb"] example_build_argv)))
    = true
  ∧ returned (parse_args_for_analyze_build example_build_argv) !! "cdb"
    = Some (VStr (from_option id "compile_commands.json"
                    (last (arguments_of ["--cdb"] example_build_argv))))
  ∧ returned (parse_args_for_analyze_build example_build_argv) !! "plugins"
    = Some (VListOf (handed VStr
                       <$> arguments_of ["--load-plugin"; "-load-plugin"]
                             example_build_argv))
  ∧ Forall (λ s, s ≠ "--") (arguments_of ["--exclude"] example_build_argv)
  ∧ ∃ excludes,
      returned (parse_args_for_analyze_build example_build_argv) !! "excludes"
      = Some (VList excludes)
      ∧ NoDup excludes
      ∧ ∀ p, p ∈ excludes
             ↔ ∃ entry, entry ∈ arguments_of ["--exclude"] example_build_argv
                        ∧ p = os_path_abspath entry.
Proof.
  split; [apply returned_run; by vm_compute|].
  apply (entry_point_returned example_build_argv w0 w0), returned_run. by vm_compute.
Defined.

Lemma entry_point_returns_witness :
  (∀ level w, ∃ w', reconfigure_logging level w = (Returned tt, w'))
  ∧ (∀ format object w, ∃ w', logging_debug format object w = (Returned tt, w'))
  ∧ well_formed example_build_argv
  ∧ given ["--help-checkers-verbose"] example_build_argv = false
  ∧ given ["--help-checkers"] example_build_argv = false
  ∧ last (arguments_of ["--cdb"] example_build_argv) ≠ Some "--"
  ∧ exists_on_disk
      (from_option id "compile_commands.json"
         (last (arguments_of ["--cdb"] example_build_argv)))
    = true
  ∧ Forall (λ entry, posixpath.isabs entry = true)
           (arguments_of ["--exclude"] example_build_argv)
  ∧ ∃ ns w', parse_args_for_analyze_build example_build_argv w0 = (Returned ns, w').
Proof.
  assert (Forall (λ entry, posixpath.isabs entry = true)
                 (arguments_of ["--exclude"] example_build_argv)) as Habs
    by (apply Forall_cons_2; [reflexivity|];
        apply Forall_cons_2; [reflexivity|]; apply Forall_nil_2).
  split; [intros level w; by exists w|].
  split; [intros format object w; by exists w|].
  split; [apply example_build_argv_well_formed|].
  split; [by vm_compute|]. split; [by vm_compute|]. split; [by vm_compute|].
  split; [by vm_compute|]. split; [exact Habs|].
  apply (entry_point_returns example_build_argv w0).
  - intros level w. by exists w.
  - intros format object w. by exists w.
  - apply example_build_argv_well_formed.
  - by vm_compute.
  - by vm_compute.
  - by vm_compute.
  - by vm_compute.
  - exact Habs.
Defined.

Lemma example_help_argv_well_formed : well_formed example_help_argv.
Proof.
  apply (parse_args_well_formed example_help_argv w0
           (returned (argparse.parse_args create_analyze_parser example_help_argv)) w0),
    returned_run.
  by vm_compute.
Defined.

Lemma entry_point_lists_witness :
  well_formed example_help_argv
  ∧ Forall (λ entry, posixpath.isabs entry = true)
           (arguments_of ["--exclude"] example_help_argv)
  ∧ reconfigure_logging
      (VInt (Z.of_nat (occurrences ["--verbose"; "-v"] example_help_argv))) w0
    = (Returned tt, w0)
  ∧ logging_debug "Raw arguments %s" (inl example_help_argv) w0 = (Returned tt, w0)
  ∧ given ["--help-checkers-verbose"] example_help_argv
    || given ["--help-checkers"] example_help_argv = true
  ∧ parse_args_for_analyze_build example_help_argv w0
    = (Raised (SystemExit 0), mkWorld ("core.A" +:+ nl) "").
Proof.
  split; [apply example_help_argv_well_formed|]. split; [by constructor|].
  split; [reflexivity|]. split; [reflexivity|]. split; [by vm_compute|].
  exact (entry_point_lists example_help_argv w0 w0 w0
           example_help_argv_well_formed (Forall_nil_2 _) eq_refl eq_refl eq_refl).
Defined.

Lemma example_missing_argv_well_formed : well_formed example_missing_argv.
Proof.
  apply (parse_args_well_formed example_missing_argv w0
           (returned (argparse.parse_args create_analyze_parser example_missing_argv)) w0),
    returned_run.
  by vm_compute.
Defined.

Lemma entry_point_missing_cdb_witness :
  well_formed example_missing_argv
  ∧ Forall (λ entry, posixpath.isabs entry = true)
           (arguments_of ["--exclude"] example_missing_argv)
  ∧ reconfigure_logging
      (VInt (Z.of_nat (occurrences ["--verbose"; "-v"] example_missing_argv))) w0
    = (Returned tt, w0)
  ∧ logging_debug "Raw arguments %s" (inl example_missing_argv) w0 = (Returned tt, w0)
  ∧ given ["--help-checkers-verbose"] example_missing_argv = false
  ∧ given ["--help-checkers"] example_missing_argv = false
  ∧ last (arguments_of ["--cdb"] example_missing_argv) ≠ Some "--"
  ∧ exists_on_disk
      (from_option id "compile_commands.json"
         (last (arguments_of ["--cdb"] example_missing_argv)))
    = false
  ∧ parse_args_for_analyze_build example_missing_argv w0
    = (Raised (SystemExit 2),
       mkWorld ""
         ("usage: analyze-build" +:+ nl
          +:+ "analyze-build: error: compilation database is missing" +:+ nl)).
Proof.
  assert (last (arguments_of ["--cdb"] example_missing_argv) ≠ Some "--") as Hlast
    by (by vm_compute).
  split; [apply example_missing_argv_well_formed|]. split; [by constructor|].
  split; [reflexivity|]. split; [reflexivity|].
  split; [by vm_compute|]. split; [by vm_compute|]. split; [exact Hlast|].
  split; [by vm_compute|].
  exact (entry_point_missing_cdb example_missing_argv w0 w0 w0
           example_missing_argv_well_formed (Forall_nil_2 _) eq_refl eq_refl eq_refl
           eq_refl Hlast eq_refl).
Defined.
